(** * AD → FreeIPA synchronisation: identifier mapping and reconcilers

    A shallow embedding of [ad-sync/ad_sync.py]: the SID → UID mapping
    ([sid_to_uid], [sid_to_string]) and the three reconcilers of [ADSync]
    ([sync_users], [sync_groups], [sync_memberships]) with their
    orchestrator [sync], followed by the properties stated about them. *)

From Stdlib Require Import ZArith NArith Lia Ascii String List Bool.
From Stdlib.Strings Require Import Byte.
From stdpp Require Import gmap strings list fin_maps.

Local Open Scope string_scope.
Local Open Scope Z_scope.

(** ** Python exceptions and results *)

(** The exception classes that the modelled code can see.  All of them are
    subclasses of [Exception]; [NotFound] and [DuplicateEntry] are the two
    [python_freeipa] classes the script imports. *)
Inductive pyexn : Type :=
| ValueError
| TypeError
| IndexError
| StructError
| NotFound
| DuplicateEntry
| FreeIPAError.

(** A computation either returns or raises. *)
Inductive outcome (A : Type) : Type :=
| Ok (a : A)
| Raise (e : pyexn).
Arguments Ok {A} a.
Arguments Raise {A} e.

Global Instance outcome_ret : MRet outcome := λ A a, Ok a.

Global Instance outcome_bind : MBind outcome := λ A B k m,
  match m with
  | Ok a => k a
  | Raise e => Raise e
  end.

(** [try: body / except Exception: return d] for a pure body. *)
Definition try_except_all {A} (body : outcome A) (d : A) : outcome A :=
  match body with
  | Ok a => Ok a
  | Raise _ => Ok d
  end.

(** ** Python strings and integers *)

Module Py.

(** [str.split(sep)] for a one-character separator. *)
Fixpoint split (sep : ascii) (s : string) : list string :=
  match s with
  | EmptyString => [EmptyString]
  | String c r =>
      if Ascii.eqb c sep then EmptyString :: split sep r
      else match split sep r with
           | h :: t => String c h :: t
           | [] => [String c EmptyString]
           end
  end.

(** [str.replace(old, new)] for a one-character [old]. *)
Fixpoint replace (old : ascii) (new : string) (s : string) : string :=
  match s with
  | EmptyString => EmptyString
  | String c r =>
      if Ascii.eqb c old then new ++ replace old new r
      else String c (replace old new r)
  end.

(** Whitespace as [int()] sees it on a string of code points below 256:
    tab, LF, VT, FF, CR, space, and the two non-ASCII spaces NEL and NBSP. *)
Definition is_space (c : ascii) : bool :=
  let n := N_of_ascii c in
  ((9 <=? n) && (n <=? 13) || (n =? 32) || (n =? 133) || (n =? 160))%N.

Definition digit_value (c : ascii) : option N :=
  let n := N_of_ascii c in
  if ((48 <=? n) && (n <=? 57))%N then Some (n - 48)%N else None.

Fixpoint lstrip (s : string) : string :=
  match s with
  | String c r => if is_space c then lstrip r else s
  | EmptyString => EmptyString
  end.

Fixpoint all_space (s : string) : bool :=
  match s with
  | String c r => is_space c && all_space r
  | EmptyString => true
  end.

(** What the digit scanner saw last. *)
Inductive prev_char : Type := AtStart | AfterDigit | AfterUnderscore.

(** The digit loop of [int()]: decimal digits with single underscores
    between them.  Returns the value, the number of digits and the rest. *)
Fixpoint scan_digits (s : string) (p : prev_char) (acc : N) (nd : nat)
  : option (N * nat * string) :=
  let finish :=
    match p with
    | AfterDigit => Some (acc, nd, s)
    | _ => None
    end in
  match s with
  | EmptyString => finish
  | String c r =>
      if Ascii.eqb c "_"%char then
        match p with
        | AfterDigit => scan_digits r AfterUnderscore acc nd
        | _ => None
        end
      else
        match digit_value c with
        | Some d => scan_digits r AfterDigit (10 * acc + d)%N (S nd)
        | None => finish
        end
  end.

(** The interpreter's limit on the number of digits [int()] converts
    ([sys.get_int_max_str_digits()], 4300 unless reconfigured). *)
Definition int_max_str_digits : nat := 4300.

(** [int(s)] for a string [s]: [Raise ValueError] when it is not a decimal
    literal. *)
Definition int (s : string) : outcome Z :=
  let s1 := lstrip s in
  let '(neg, s2) :=
    match s1 with
    | String "+" r => (false, r)
    | String "-" r => (true, r)
    | _ => (false, s1)
    end in
  match scan_digits s2 AtStart 0%N 0%nat with
  | Some (v, nd, rest) =>
      if (int_max_str_digits <? nd)%nat then Raise ValueError
      else if all_space rest then Ok (if neg then - Z.of_N v else Z.of_N v)
      else Raise ValueError
  | None => Raise ValueError
  end.

(** The decimal digits of [n], most significant first; [fuel] bounds their
    number. *)
Fixpoint digits_of (fuel : nat) (n : N) : list N :=
  match fuel with
  | O => []
  | S f => if (n <? 10)%N then [n]
           else digits_of f (n / 10)%N ++ [(n mod 10)%N]
  end.

Definition digit_char (d : N) : ascii := ascii_of_N (48 + d).

(** [str(n)] for a non-negative integer. *)
Definition str_of_N (n : N) : string :=
  string_of_list_ascii (map digit_char (digits_of (S (N.size_nat n)) n)).

(** [str(z)] for an integer. *)
Definition str_of_Z (z : Z) : string :=
  match z with
  | Zneg p => String "-" (str_of_N (Npos p))
  | _ => str_of_N (Z.to_N z)
  end.

(** [b[i:j]] on a sequence: out-of-range bounds are clamped. *)
Definition slice {A} (i j : nat) (l : list A) : list A :=
  firstn (j - i) (skipn i l).

(** [b[i]] on [bytes]. *)
Definition index (b : list byte) (i : nat) : outcome byte :=
  match nth_error b i with
  | Some x => Ok x
  | None => Raise IndexError
  end.

Definition byte_val (b : byte) : Z := Z.of_N (Byte.to_N b).

(** Little-endian and big-endian values of a byte string. *)
Fixpoint le_value (bs : list byte) : Z :=
  match bs with
  | [] => 0
  | b :: r => byte_val b + 256 * le_value r
  end.

Definition be_value (bs : list byte) : Z := le_value (rev bs).

(** [struct.unpack('<I', bs)[0]] and [struct.unpack('>Q', bs)[0]]: the
    buffer must have exactly the size of the format. *)
Definition unpack_I_le (bs : list byte) : outcome Z :=
  if (length bs =? 4)%nat then Ok (le_value bs) else Raise StructError.

Definition unpack_Q_be (bs : list byte) : outcome Z :=
  if (length bs =? 8)%nat then Ok (be_value bs) else Raise StructError.

(** [s.encode('latin-1')] on a string of code points below 256. *)
Definition encode_latin1 (s : string) : list byte :=
  map byte_of_ascii (list_ascii_of_string s).

End Py.

(** ** The identifier mapper *)

(** The values [sid_to_uid] and [sid_to_string] receive for [sid_bytes]:
    [None], a [str] (code points below 256) or a [bytes] object. *)
Inductive sid_value : Type :=
| SidNone
| SidStr (s : string)
| SidBytes (b : list byte).

(** [not sid_bytes]. *)
Definition sid_falsy (v : sid_value) : bool :=
  match v with
  | SidNone => true
  | SidStr s => match s with EmptyString => true | _ => false end
  | SidBytes b => match b with [] => true | _ => false end
  end.

(** [len(sid_bytes)]. *)
Definition sid_len (v : sid_value) : outcome nat :=
  match v with
  | SidNone => Raise TypeError
  | SidStr s => Ok (String.length s)
  | SidBytes b => Ok (length b)
  end.

(** [isinstance(sid_bytes, str) and sid_bytes.startswith('S-')]. *)
Definition is_sid_string (v : sid_value) : option string :=
  match v with
  | SidStr s => if String.prefix "S-" s then Some s else None
  | _ => None
  end.

(** The [bytes] object after the "ensure we have bytes" step. *)
Definition sid_as_bytes (v : sid_value) : outcome (list byte) :=
  match v with
  | SidNone => Raise TypeError
  | SidStr s => Ok (Py.encode_latin1 s)
  | SidBytes b => Ok b
  end.

(** The loop [for i in range(sub_auth_count)] that unpacks the
    sub-authorities, appending each to the list built so far. *)
Fixpoint read_sub_authorities (b : list byte) (idxs : list nat) (acc : list Z)
  : outcome (list Z) :=
  match idxs with
  | [] => Ok acc
  | i :: rest =>
      let offset := (8 + i * 4)%nat in
      (sub_auth ← Py.unpack_I_le (Py.slice offset (offset + 4) b);
       read_sub_authorities b rest (acc ++ [sub_auth]))
  end.

(** The header fields read from a binary SID. *)
Definition sid_header (b : list byte) : outcome (Z * nat * Z) :=
  (revision ← Py.index b 0;
   sub_auth_count ← Py.index b 1;
   authority ← Py.unpack_Q_be ([x00; x00] ++ Py.slice 2 8 b);
   Ok (Py.byte_val revision, N.to_nat (Byte.to_N sub_auth_count), authority)).

(** The body of the [try] block of [sid_to_uid]. *)
Definition sid_to_uid_try (sid_bytes : sid_value) (id_range_base : Z)
  : outcome (option Z) :=
  match is_sid_string sid_bytes with
  | Some s =>
      let parts := Py.split "-" s in
      if (8 <=? length parts)%nat then
        (rid ← Py.int (List.last parts EmptyString);
         Ok (Some (id_range_base + rid)))
      else Ok None
  | None =>
      (n ← sid_len sid_bytes;
       if (n <? 12)%nat then Ok None
       else
         b ← sid_as_bytes sid_bytes;
         hdr ← sid_header b;
         let '(_, sub_auth_count, _) := hdr in
         sub_authorities ← read_sub_authorities b (seq 0 sub_auth_count) [];
         if (length sub_authorities =? 0)%nat then Ok None
         else
           let rid := List.last sub_authorities 0 in
           let uid := id_range_base + rid in
           Ok (Some uid))
  end.

(** [sid_to_uid(sid_bytes, id_range_base)]: [Ok None] is Python's [None];
    the [except Exception] clause turns every exception of the body into
    [None]. *)
Definition sid_to_uid (sid_bytes : sid_value) (id_range_base : Z)
  : outcome (option Z) :=
  if sid_falsy sid_bytes then Ok None
  else try_except_all (sid_to_uid_try sid_bytes id_range_base) None.

(** The loop of [sid_to_string] that appends ["-<sub_auth>"] for each
    sub-authority. *)
Fixpoint append_sub_authorities (b : list byte) (idxs : list nat)
  (sid_string : string) : outcome string :=
  match idxs with
  | [] => Ok sid_string
  | i :: rest =>
      let offset := (8 + i * 4)%nat in
      (sub_auth ← Py.unpack_I_le (Py.slice offset (offset + 4) b);
       append_sub_authorities b rest
         (sid_string ++ "-" ++ Py.str_of_Z sub_auth))
  end.

(** The body of the [try] block of [sid_to_string]. *)
Definition sid_to_string_try (sid_bytes : sid_value) : outcome (option string) :=
  (n ← sid_len sid_bytes;
   if (n <? 12)%nat then Ok None
   else
     b ← sid_as_bytes sid_bytes;
     hdr ← sid_header b;
     let '(revision, sub_auth_count, authority) := hdr in
     let sid_string :=
       "S-" ++ Py.str_of_Z revision ++ "-" ++ Py.str_of_Z authority in
     sid_string ← append_sub_authorities b (seq 0 sub_auth_count) sid_string;
     Ok (Some sid_string)).

(** [sid_to_string(sid_bytes)]. *)
Definition sid_to_string (sid_bytes : sid_value) : outcome (option string) :=
  if sid_falsy sid_bytes then Ok None
  else match is_sid_string sid_bytes with
       | Some s => Ok (Some s)
       | None => try_except_all (sid_to_string_try sid_bytes) None
       end.

(** The value a caller passes on when it feeds the result of
    [sid_to_string] to [sid_to_uid]. *)
Definition sid_of_result (r : option string) : sid_value :=
  match r with
  | Some s => SidStr s
  | None => SidNone
  end.

(** ** Attribute values

    The values found in the attribute dictionaries: [None], booleans,
    integers and strings, and lists of those for multi-valued
    attributes. *)

Inductive atom : Type :=
| ANone
| ABool (b : bool)
| AInt (z : Z)
| AStr (s : string).

Inductive pyval : Type :=
| PAtom (a : atom)
| PList (l : list atom).

Global Instance atom_eq_dec : EqDecision atom.
Proof. solve_decision. Defined.
Global Instance pyval_eq_dec : EqDecision pyval.
Proof. solve_decision. Defined.

(** Truth value of [if v:]. *)
Definition atom_truthy (a : atom) : bool :=
  match a with
  | ANone => false
  | ABool b => b
  | AInt z => negb (z =? 0)
  | AStr s => match s with EmptyString => false | _ => true end
  end.

Definition truthy (v : pyval) : bool :=
  match v with
  | PAtom a => atom_truthy a
  | PList l => match l with [] => false | _ => true end
  end.

(** [f"{a}"]. *)
Definition str_of_atom (a : atom) : string :=
  match a with
  | ANone => "None"
  | ABool true => "True"
  | ABool false => "False"
  | AInt z => Py.str_of_Z z
  | AStr s => s
  end.

(** ** Configuration and source snapshot *)

(** The options of the YAML configuration that the reconcilers read.  A
    filter list that is absent reads as [[]], a switch that is absent as
    [True]. *)
Record config : Type := {
  cfg_id_range_base : option Z;
  user_attribute_mapping : list (string * string);
  default_email_domain : option string;
  user_include_filter : list string;
  user_exclude_filter : list string;
  group_include_filter : list string;
  group_exclude_filter : list string;
  cfg_sync_users : bool;
  cfg_sync_groups : bool;
  cfg_sync_group_memberships : bool
}.

(** [ad_config.get('id_range_base', 200000)]. *)
Definition id_range_base (cfg : config) : Z :=
  default 200000 (cfg_id_range_base cfg).

(** One element of the lists that [get_ad_users] and [get_ad_groups]
    return.  [sAMAccountName] is a single-valued string attribute of the
    directory schema; the other attributes are kept as the dictionary the
    code reads them from. *)
Record ad_object : Type := {
  entry_dn : string;
  sAMAccountName : option string;
  other_attributes : gmap string pyval
}.

(** [ad_object['attributes']]. *)
Definition attributes (o : ad_object) : gmap string pyval :=
  match sAMAccountName o with
  | Some s => <["sAMAccountName" := PAtom (AStr s)]> (other_attributes o)
  | None => delete "sAMAccountName" (other_attributes o)
  end.

(** [bool(uac and (uac & 0x0002))], the flag [get_ad_users] stores under
    ['_is_disabled']. *)
Definition uac_is_disabled (uac : option Z) : bool :=
  match uac with
  | Some u => negb (u =? 0) && negb (Z.land u 2 =? 0)
  | None => false
  end.

(** An entry returned by the per-member search of [sync_memberships]. *)
Record member_entry : Type := {
  member_sAMAccountName : option string;
  member_objectClass : list string
}.

(** The source directory as the reconcilers observe it during one run. *)
Record source : Type := {
  ad_connect_ok : bool;
  ad_users : list ad_object;
  ad_groups : list ad_object;
  ad_search_dn : string → outcome (list member_entry)
}.

(** ** The target directory *)

(** The methods of the FreeIPA client that the script calls, with their
    arguments. *)
Inductive ipa_call : Type :=
| user_show (uid : string)
| user_add (uid givenname sn cn : atom) (params : gmap string pyval)
| user_mod (uid : string) (params : gmap string pyval)
| user_disable (uid : string)
| user_enable (uid : string)
| group_show (cn : string)
| group_add (cn : string) (params : gmap string pyval)
| group_add_member_user (cn : string) (user : string)
| group_add_member_group (cn : string) (group : string)
| idrange_show (name : string)
| idrange_add (name : string) (keywords : gmap string Z).

(** The calls that only read. *)
Definition is_lookup (c : ipa_call) : bool :=
  match c with
  | user_show _ | group_show _ | idrange_show _ => true
  | _ => false
  end.

(** What a [*_show] method of the client returns: not the entry but the
    result object of the JSON-RPC response, a dictionary that holds the
    entry under ['result'], its primary key under ['value'], and
    ['summary'] (which is [None] for a lookup). *)
Inductive reply_value (A : Type) : Type :=
| ReplyEntry (entry : A)
| ReplyText (s : string)
| ReplyNone.
Arguments ReplyEntry {A} entry.
Arguments ReplyText {A} s.
Arguments ReplyNone {A}.

Abbreviation reply A := (gmap string (reply_value A)) (only parsing).

Definition reply_of {A} (value : string) (entry : A) : reply A :=
  {[ "result" := ReplyEntry entry; "value" := ReplyText value;
     "summary" := ReplyNone ]}.

Record ipa_group : Type := {
  group_attrs : gmap string pyval;
  member_user : gset string;
  member_group : gset string
}.

Record directory : Type := {
  users : gmap string (gmap string pyval);
  groups : gmap string ipa_group;
  idranges : gset string
}.

(** The target service: whether the login succeeds, and which calls it
    refuses (validation errors, missing permissions, lost connection) in a
    given state. *)
Record target : Type := {
  ipa_connect_ok : bool;
  ipa_rejects : directory → ipa_call → bool
}.

(** ** Run state *)

(** [self.stats]: the counters of a run, and their keys. *)
Record stats_dict : Type := {
  users_created : Z;
  users_updated : Z;
  users_skipped : Z;
  users_disabled : Z;
  users_enabled : Z;
  groups_created : Z;
  groups_updated : Z;
  memberships_added : Z
}.

Inductive stat_key : Type :=
| UsersCreated | UsersUpdated | UsersSkipped | UsersDisabled
| UsersEnabled | GroupsCreated | GroupsUpdated | MembershipsAdded.

(** [stats[k] += 1]. *)
Definition bump (k : stat_key) (s : stats_dict) : stats_dict :=
  let '{| users_created := uc; users_updated := uu; users_skipped := us;
          users_disabled := ud; users_enabled := ue; groups_created := gc;
          groups_updated := gu; memberships_added := ma |} := s in
  match k with
  | UsersCreated => Build_stats_dict (uc + 1) uu us ud ue gc gu ma
  | UsersUpdated => Build_stats_dict uc (uu + 1) us ud ue gc gu ma
  | UsersSkipped => Build_stats_dict uc uu (us + 1) ud ue gc gu ma
  | UsersDisabled => Build_stats_dict uc uu us (ud + 1) ue gc gu ma
  | UsersEnabled => Build_stats_dict uc uu us ud (ue + 1) gc gu ma
  | GroupsCreated => Build_stats_dict uc uu us ud ue (gc + 1) gu ma
  | GroupsUpdated => Build_stats_dict uc uu us ud ue gc (gu + 1) ma
  | MembershipsAdded => Build_stats_dict uc uu us ud ue gc gu (ma + 1)
  end.

(** The messages the reconcilers log, one constructor per format string. *)
Inductive log_event : Type :=
| LogDryRunMode
| LogConnectedAD | LogFailedConnectAD
| LogConnectedIPA | LogFailedConnectIPA
| LogRangeExists (name : string)
| LogCreatingRange (name : string) (base : Z)
| LogCreatedRange (name : string) (base size : Z)
| LogRestartRecommended
| LogCouldNotEnsureRange (e : pyexn)
| LogManualRangeHint
| LogManualRangeCommand (base : Z)
| LogRetrievedUsers (n : nat)
| LogRetrievedGroups (n : nat)
| LogGeneratedEmail (mail : string)
| LogStartingUserSync
| LogWouldUpdateUser (username status : string)
| LogDisabledUser (username : string)
| LogEnabledUser (username : string)
| LogUpdatedUser (username status : string)
| LogUserStatusUnchanged (username status : string)
| LogWouldCreateUser (username status : string)
| LogCreatedUserDisabled (username : string)
| LogCreatedUser (username : string)
| LogFailedSyncUser (username : string) (e : pyexn)
| LogStartingGroupSync
| LogSanitizedGroupName (groupname sanitized : string)
| LogGroupExistsSkipping (groupname : string)
| LogWouldUpdateGroup (groupname : string)
| LogUpdatedGroup (groupname : string)
| LogWouldCreateGroup (groupname : string)
| LogCreatedGroup (groupname : string)
| LogFailedSyncGroup (groupname : string) (e : pyexn)
| LogStartingMembershipSync
| LogUsingSanitizedGroupName (groupname sanitized : string)
| LogNoSAMAccountName (member_dn : atom)
| LogMemberNotFound (member_dn : atom)
| LogFailedQueryMember (member_dn : atom) (e : pyexn)
| LogWouldAddUser (username groupname : string)
| LogAddedUser (username groupname : string)
| LogFailedAddUser (username groupname : string) (e : pyexn)
| LogWouldAddGroup (member_groupname groupname : string)
| LogAddedGroup (group_to_add groupname : string)
| LogFailedAddGroup (member_groupname groupname : string) (e : pyexn)
| LogFailedSyncMemberships (groupname : string) (e : pyexn)
| LogSummary (st : stats_dict)
| LogDisconnected.

(** What a run changes: the target directory, [self.stats], the log, and
    the sequence of client calls issued so far. *)
Record world : Type := {
  ipa : directory;
  stats : stats_dict;
  log : list log_event;
  calls : list ipa_call
}.

Definition set_ipa (d : directory) (w : world) : world :=
  {| ipa := d; stats := stats w; log := log w; calls := calls w |}.

Definition set_stats (s : stats_dict) (w : world) : world :=
  {| ipa := ipa w; stats := s; log := log w; calls := calls w |}.

Definition add_log (e : log_event) (w : world) : world :=
  {| ipa := ipa w; stats := stats w; log := log w ++ [e]; calls := calls w |}.

Definition add_call (c : ipa_call) (w : world) : world :=
  {| ipa := ipa w; stats := stats w; log := log w; calls := calls w ++ [c] |}.

(** The state of [self.stats] set up by [__init__]. *)
Definition initial_stats : stats_dict := Build_stats_dict 0 0 0 0 0 0 0 0.

(** ** Programs: state and exceptions *)

Definition prog (A : Type) : Type := world → outcome A * world.

Global Instance prog_ret : MRet prog := λ A a w, (Ok a, w).

Global Instance prog_bind : MBind prog := λ A B k m w,
  match m w with
  | (Ok a, w') => k a w'
  | (Raise e, w') => (Raise e, w')
  end.

Definition raise {A} (e : pyexn) : prog A := λ w, (Raise e, w).

(** A pure computation that may raise, inside a program. *)
Definition lift_prog {A} (r : outcome A) : prog A := λ w, (r, w).

(** [try: body / except ...]: [handler e] is the clause that matches [e],
    if any.  An exception raised inside a clause is not handled by the
    other clauses of the same statement. *)
Definition try_except {A} (body : prog A) (handler : pyexn → option (prog A))
  : prog A := λ w,
  match body w with
  | (Ok a, w') => (Ok a, w')
  | (Raise e, w') =>
      match handler e with
      | Some h => h w'
      | None => (Raise e, w')
      end
  end.

(** [try: body / finally: final]. *)
Definition try_finally {A} (body : prog A) (final : prog unit) : prog A := λ w,
  match body w with
  | (r, w') =>
      match final w' with
      | (Ok _, w'') => (r, w'')
      | (Raise e, w'') => (Raise e, w'')
      end
  end.

(** [for x in l: body(x)]. *)
Fixpoint for_each {X} (l : list X) (body : X → prog unit) : prog unit :=
  match l with
  | [] => mret tt
  | x :: rest => body x ;; for_each rest body
  end.

Definition when (b : bool) (m : prog unit) : prog unit :=
  if b then m else mret tt.

(** [logger.info(...)], [logger.debug(...)] and the like. *)
Definition logger (e : log_event) : prog unit := λ w, (Ok tt, add_log e w).

(** [self.stats[k] += 1]. *)
Definition incr (k : stat_key) : prog unit := λ w,
  (Ok tt, set_stats (bump k (stats w)) w).

Definition get_stats : prog stats_dict := λ w, (Ok (stats w), w).

(** ** What the target does with a call

    The service is an external collaborator; this is the reference
    behaviour of a directory that accepts a call: lookups fail with
    [NotFound] on a missing entry, additions with [DuplicateEntry] on an
    existing one, and [group_add_member] only ever adds.  A lookup hands
    back the reply object of the client, not the bare entry. *)

Module Ipa.

(** The client passes option [x] as keyword [o_x]. *)
Definition option_name (k : string) : string :=
  if String.prefix "o_" k then String.substring 2 (String.length k - 2) k
  else k.

Definition set_users (u : gmap string (gmap string pyval)) (d : directory)
  : directory :=
  {| users := u; groups := groups d; idranges := idranges d |}.

Definition set_groups (g : gmap string ipa_group) (d : directory) : directory :=
  {| users := users d; groups := g; idranges := idranges d |}.

Definition set_idranges (r : gset string) (d : directory) : directory :=
  {| users := users d; groups := groups d; idranges := r |}.

Definition do_user_show (uid : string) (d : directory)
  : outcome (reply (gmap string pyval)) * directory :=
  match users d !! uid with
  | Some entry => (Ok (reply_of uid entry), d)
  | None => (Raise NotFound, d)
  end.

Definition do_user_add (uid givenname sn cn : atom)
  (params : gmap string pyval) (d : directory) : outcome unit * directory :=
  match uid with
  | AStr u =>
      match users d !! u with
      | Some _ => (Raise DuplicateEntry, d)
      | None =>
          let entry :=
            kmap option_name params ∪
            {[ "uid" := PAtom uid; "givenname" := PAtom givenname;
               "sn" := PAtom sn; "cn" := PAtom cn;
               "nsaccountlock" := PAtom (ABool false) ]} in
          (Ok tt, set_users (<[u := entry]> (users d)) d)
      end
  | _ => (Raise FreeIPAError, d)
  end.

Definition do_user_mod (uid : string) (params : gmap string pyval)
  (d : directory) : outcome unit * directory :=
  match users d !! uid with
  | Some entry =>
      (Ok tt, set_users (<[uid := kmap option_name params ∪ entry]> (users d)) d)
  | None => (Raise NotFound, d)
  end.

Definition do_user_lock (locked : bool) (uid : string) (d : directory)
  : outcome unit * directory :=
  match users d !! uid with
  | Some entry =>
      (Ok tt,
       set_users
         (<[uid := <["nsaccountlock" := PAtom (ABool locked)]> entry]> (users d))
         d)
  | None => (Raise NotFound, d)
  end.

Definition do_group_show (cn : string) (d : directory)
  : outcome (reply ipa_group) * directory :=
  match groups d !! cn with
  | Some g => (Ok (reply_of cn g), d)
  | None => (Raise NotFound, d)
  end.

Definition do_group_add (cn : string) (params : gmap string pyval)
  (d : directory) : outcome unit * directory :=
  match groups d !! cn with
  | Some _ => (Raise DuplicateEntry, d)
  | None =>
      let g := {| group_attrs := kmap option_name params;
                  member_user := ∅; member_group := ∅ |} in
      (Ok tt, set_groups (<[cn := g]> (groups d)) d)
  end.

Definition do_group_add_member_user (cn user : string) (d : directory)
  : outcome unit * directory :=
  match groups d !! cn, users d !! user with
  | Some g, Some _ =>
      let g' := {| group_attrs := group_attrs g;
                   member_user := member_user g ∪ {[ user ]};
                   member_group := member_group g |} in
      (Ok tt, set_groups (<[cn := g']> (groups d)) d)
  | _, _ => (Raise NotFound, d)
  end.

Definition do_group_add_member_group (cn group : string) (d : directory)
  : outcome unit * directory :=
  match groups d !! cn, groups d !! group with
  | Some g, Some _ =>
      let g' := {| group_attrs := group_attrs g;
                   member_user := member_user g;
                   member_group := member_group g ∪ {[ group ]} |} in
      (Ok tt, set_groups (<[cn := g']> (groups d)) d)
  | _, _ => (Raise NotFound, d)
  end.

Definition do_idrange_show (name : string) (d : directory)
  : outcome unit * directory :=
  if bool_decide (name ∈ idranges d) then (Ok tt, d) else (Raise NotFound, d).

Definition do_idrange_add (name : string) (d : directory)
  : outcome unit * directory :=
  if bool_decide (name ∈ idranges d) then (Raise DuplicateEntry, d)
  else (Ok tt, set_idranges (idranges d ∪ {[ name ]}) d).

End Ipa.

(** ** The synchronisation class *)

(** [str.lower()] on code points below 256. *)
Definition lower_char (c : ascii) : ascii :=
  let n := N_of_ascii c in
  if ((65 <=? n) && (n <=? 90)
      || (192 <=? n) && (n <=? 222) && negb (n =? 215))%N
  then ascii_of_N (n + 32) else c.

Fixpoint lower (s : string) : string :=
  match s with
  | EmptyString => EmptyString
  | String c r => String (lower_char c) (lower r)
  end.

(** [name.replace(' ', '-').replace('(', '').replace(')', '')]. *)
Definition sanitize (name : string) : string :=
  Py.replace ")" "" (Py.replace "(" "" (Py.replace " " "-" name)).

Definition is_empty_string (s : string) : bool :=
  match s with EmptyString => true | _ => false end.

(** [x in l] for a list of strings. *)
Definition str_in (x : string) (l : list string) : bool :=
  existsb (String.eqb x) l.

Definition list_truthy {A} (l : list A) : bool :=
  match l with [] => false | _ => true end.

(** The order in which a [for] loop visits a set of strings.  It depends
    on the hash seed of the interpreter, so it is a parameter of a run: any
    order that visits every element once. *)
Record set_order : Type := {
  iterate : gset string → list string;
  iterate_permutation : ∀ s, iterate s ≡ₚ elements s
}.

(** [set(ipa_group.get(k, []))] on the reply of [group_show].  [set] of a
    dictionary holds its keys, [set] of a string its characters, and [None]
    is not iterable. *)
Definition reply_members (ipa_group : reply ipa_group) (k : string)
  : outcome (gset string) :=
  match ipa_group !! k with
  | None => Ok ∅
  | Some (ReplyEntry g) =>
      Ok (dom (group_attrs g)
          ∪ (if decide (member_user g = ∅) then ∅ else {[ "member_user" ]})
          ∪ (if decide (member_group g = ∅) then ∅ else {[ "member_group" ]}))
  | Some (ReplyText s) =>
      Ok (list_to_set ((λ c, String c "") <$> list_ascii_of_string s))
  | Some ReplyNone => Raise TypeError
  end.

Section ADSync.

Variable cfg : config.
Variable ad : source.
Variable tgt : target.
Variable order : set_order.

(** A call of a client method: it is recorded, then either refused by the
    service or carried out. *)
Definition invoke {A} (c : ipa_call)
  (sem : directory → outcome A * directory) : prog A := λ w,
  let w1 := add_call c w in
  if ipa_rejects tgt (ipa w) c then (Raise FreeIPAError, w1)
  else let '(r, d) := sem (ipa w) in (r, set_ipa d w1).

Definition ipa_user_show (uid : string) :=
  invoke (user_show uid) (Ipa.do_user_show uid).
Definition ipa_user_add (uid givenname sn cn : atom) (params : gmap string pyval) :=
  invoke (user_add uid givenname sn cn params)
         (Ipa.do_user_add uid givenname sn cn params).
Definition ipa_user_mod (uid : string) (params : gmap string pyval) :=
  invoke (user_mod uid params) (Ipa.do_user_mod uid params).
Definition ipa_user_disable (uid : string) :=
  invoke (user_disable uid) (Ipa.do_user_lock true uid).
Definition ipa_user_enable (uid : string) :=
  invoke (user_enable uid) (Ipa.do_user_lock false uid).
Definition ipa_group_show (cn : string) :=
  invoke (group_show cn) (Ipa.do_group_show cn).
Definition ipa_group_add (cn : string) (params : gmap string pyval) :=
  invoke (group_add cn params) (Ipa.do_group_add cn params).
Definition ipa_group_add_member_user (cn user : string) :=
  invoke (group_add_member_user cn user) (Ipa.do_group_add_member_user cn user).
Definition ipa_group_add_member_group (cn group : string) :=
  invoke (group_add_member_group cn group)
         (Ipa.do_group_add_member_group cn group).
Definition ipa_idrange_show (name : string) :=
  invoke (idrange_show name) (Ipa.do_idrange_show name).

(** [ClientMeta.idrange_add(a_cn, o_ipabaseid, o_ipaidrangesize,
    o_ipabaserid=None, ...)]: the two options without a default are
    required.  A call that does not pass them raises [TypeError] when the
    arguments are bound, before the client sends anything. *)
Definition ipa_idrange_add (name : string) (keywords : gmap string Z)
  : prog unit :=
  match keywords !! "o_ipabaseid", keywords !! "o_ipaidrangesize" with
  | Some _, Some _ =>
      invoke (idrange_add name keywords) (Ipa.do_idrange_add name)
  | _, _ => raise TypeError
  end.

(** [connect_ad] and [connect_ipa]. *)
Definition connect_ad : prog bool :=
  if ad_connect_ok ad then logger LogConnectedAD ;; mret true
  else logger LogFailedConnectAD ;; mret false.

Definition connect_ipa : prog bool :=
  if ipa_connect_ok tgt then logger LogConnectedIPA ;; mret true
  else logger LogFailedConnectIPA ;; mret false.

(** [ensure_id_range]. *)
Definition ensure_id_range : prog bool :=
  try_except
    (let id_range_base := id_range_base cfg in
     let range_name := "AD_SYNC_RANGE" in
     let range_size := 200000 in
     try_except
       (ipa_idrange_show range_name ;;
        logger (LogRangeExists range_name) ;;
        mret true)
       (λ e, match e with
             | NotFound => Some (
                 logger (LogCreatingRange range_name id_range_base) ;;
                 let rid_base := (id_range_base `mod` 1000000000) `div` 1000 in
                 let secondary_rid_base := 100000000 + rid_base in
                 ipa_idrange_add range_name
                   {[ "ipabaseid" := id_range_base;
                      "ipaidrangesize" := range_size;
                      "ipabaserid" := rid_base;
                      "ipasecondarybaserid" := secondary_rid_base ]} ;;
                 logger (LogCreatedRange range_name id_range_base range_size) ;;
                 logger LogRestartRecommended ;;
                 mret true)
             | _ => None
             end))
    (λ e, Some (logger (LogCouldNotEnsureRange e) ;;
                logger LogManualRangeHint ;;
                logger (LogManualRangeCommand (id_range_base cfg)) ;;
                mret true)).

(** [get_ad_users] and [get_ad_groups]: the snapshot of the source. *)
Definition get_ad_users : prog (list ad_object) :=
  let users := ad_users ad in
  logger (LogRetrievedUsers (length users)) ;; mret users.

Definition get_ad_groups : prog (list ad_object) :=
  let groups := ad_groups ad in
  logger (LogRetrievedGroups (length groups)) ;; mret groups.

(** One iteration of the loop over [mapping.items()] in
    [map_user_attributes]. *)
Definition map_attribute (ad_attrs : gmap string pyval)
  (ipa_user : gmap string atom) (item : string * string) : gmap string atom :=
  let '(ad_attr, ipa_attr) := item in
  match ad_attrs !! ad_attr with
  | Some v =>
      if truthy v then
        let value :=
          match v with
          | PList l => match l with a :: _ => a | [] => ANone end
          | PAtom a => a
          end in
        if atom_truthy value then <[ipa_attr := value]> ipa_user else ipa_user
      else ipa_user
  | None => ipa_user
  end.

(** ['mail' not in ipa_user or not ipa_user['mail']]. *)
Definition mail_missing (ipa_user : gmap string atom) : bool :=
  match ipa_user !! "mail" with
  | Some m => negb (atom_truthy m)
  | None => true
  end.

(** [map_user_attributes]. *)
Definition map_user_attributes (ad_user : ad_object) : prog (gmap string atom) :=
  let mapping := user_attribute_mapping cfg in
  let ad_attrs := attributes ad_user in
  let ipa_user := fold_left (map_attribute ad_attrs) mapping ∅ in
  if mail_missing ipa_user then
    match default_email_domain cfg, ipa_user !! "uid" with
    | Some default_domain, Some uid =>
        if is_empty_string default_domain then mret ipa_user
        else
          let mail := str_of_atom uid ++ "@" ++ default_domain in
          logger (LogGeneratedEmail mail) ;;
          mret (<["mail" := AStr mail]> ipa_user)
    | _, _ => mret ipa_user
    end
  else mret ipa_user.

(** [should_sync_user] and [should_sync_group]. *)
Definition should_sync (include_filter exclude_filter : list string)
  (name : string) : bool :=
  if list_truthy include_filter && negb (str_in name include_filter) then false
  else if list_truthy exclude_filter && str_in name exclude_filter then false
  else true.

Definition should_sync_user (username : string) : bool :=
  should_sync (user_include_filter cfg) (user_exclude_filter cfg) username.

Definition should_sync_group (groupname : string) : bool :=
  should_sync (group_include_filter cfg) (group_exclude_filter cfg) groupname.

(** The blocks [if k in ipa_user: params['o_' + k] = ipa_user[k]]. *)
Definition copy_option (ipa_user : gmap string atom)
  (params : gmap string pyval) (k : string) : gmap string pyval :=
  match ipa_user !! k with
  | Some v => <["o_" ++ k := PAtom v]> params
  | None => params
  end.

Definition user_mod_params (ipa_user : gmap string atom) : gmap string pyval :=
  fold_left (copy_option ipa_user)
    ["givenname"; "sn"; "mail"; "telephonenumber"; "title"; "uidnumber";
     "gidnumber"; "loginshell"; "homedirectory"] ∅.

Definition user_add_params (ipa_user : gmap string atom) : gmap string pyval :=
  fold_left (copy_option ipa_user)
    ["mail"; "telephonenumber"; "title"; "uidnumber"; "gidnumber";
     "loginshell"; "homedirectory"] ∅.

Definition status_str (is_disabled : bool) : string :=
  if is_disabled then "disabled" else "enabled".

(** [ad_user['attributes'].get('_is_disabled', False)], as a condition. *)
Definition source_is_disabled (ad_user : ad_object) : bool :=
  match attributes ad_user !! "_is_disabled" with
  | Some v => truthy v
  | None => false
  end.

(** ['nsaccountlock' in existing and existing['nsaccountlock']], as a
    condition, where [existing] is what [user_show] returned. *)
Definition ipa_is_disabled (existing : reply (gmap string pyval)) : bool :=
  match existing !! "nsaccountlock" with
  | Some (ReplyEntry entry) => negb (bool_decide (entry = ∅))
  | Some (ReplyText s) => negb (is_empty_string s)
  | Some ReplyNone | None => false
  end.

(** The positional arguments of [user_add]. *)
Definition create_uid (ipa_user : gmap string atom) (username : string) : atom :=
  default (AStr username) (ipa_user !! "uid").
Definition create_givenname (ipa_user : gmap string atom) (username : string)
  : atom := default (AStr username) (ipa_user !! "givenname").
Definition create_sn (ipa_user : gmap string atom) (username : string) : atom :=
  default (AStr username) (ipa_user !! "sn").
Definition create_cn (ipa_user : gmap string atom) (username : string) : atom :=
  let givenname := create_givenname ipa_user username in
  let sn := create_sn ipa_user username in
  default (AStr (str_of_atom givenname ++ " " ++ str_of_atom sn))
          (ipa_user !! "cn").

(** The [try] block of the loop body of [sync_users]: the user exists. *)
Definition sync_existing_user (dry_run force : bool) (username : string)
  (ipa_user : gmap string atom) (is_disabled : bool) : prog unit :=
  existing ← ipa_user_show username ;
  (if dry_run then
     logger (LogWouldUpdateUser username (status_str is_disabled))
   else
     when force
       (let params := user_mod_params ipa_user in
        when (negb (bool_decide (params = ∅)))
             (ipa_user_mod username params)) ;;
     let ipa_is_disabled := ipa_is_disabled existing in
     if is_disabled && negb ipa_is_disabled then
       ipa_user_disable username ;;
       logger (LogDisabledUser username) ;;
       incr UsersDisabled
     else if negb is_disabled && ipa_is_disabled then
       ipa_user_enable username ;;
       logger (LogEnabledUser username) ;;
       incr UsersEnabled
     else
       if force then logger (LogUpdatedUser username (status_str is_disabled))
       else logger (LogUserStatusUnchanged username (status_str is_disabled))) ;;
  incr UsersUpdated.

(** The [except NotFound] clause: the user does not exist. *)
Definition create_user (dry_run : bool) (username : string)
  (ipa_user : gmap string atom) (is_disabled : bool) : prog unit :=
  (if dry_run then
     logger (LogWouldCreateUser username (status_str is_disabled))
   else
     let uid := create_uid ipa_user username in
     let givenname := create_givenname ipa_user username in
     let sn := create_sn ipa_user username in
     let cn := create_cn ipa_user username in
     let params := user_add_params ipa_user in
     ipa_user_add uid givenname sn cn params ;;
     if is_disabled then
       ipa_user_disable username ;;
       logger (LogCreatedUserDisabled username)
     else logger (LogCreatedUser username)) ;;
  incr UsersCreated.

(** The [except] clauses of the loop body of [sync_users]. *)
Definition sync_user_handlers (dry_run : bool) (username : string)
  (ipa_user : gmap string atom) (is_disabled : bool) (e : pyexn)
  : option (prog unit) :=
  match e with
  | NotFound => Some (create_user dry_run username ipa_user is_disabled)
  | _ => Some (logger (LogFailedSyncUser username e))
  end.

(** The body of [for ad_user in users] in [sync_users]. *)
Definition sync_user (dry_run force : bool) (ad_user : ad_object) : prog unit :=
  match sAMAccountName ad_user with
  | Some username =>
      if is_empty_string username || negb (should_sync_user username) then
        incr UsersSkipped
      else
        ipa_user ← map_user_attributes ad_user ;
        let is_disabled := source_is_disabled ad_user in
        try_except
          (sync_existing_user dry_run force username ipa_user is_disabled)
          (sync_user_handlers dry_run username ipa_user is_disabled)
  | None => incr UsersSkipped
  end.

(** [sync_users]. *)
Definition sync_users (dry_run force : bool) : prog unit :=
  logger LogStartingUserSync ;;
  users ← get_ad_users ;
  for_each users (sync_user dry_run force).

(** The description passed to [group_add]. *)
Definition group_description (ad_group : ad_object) : atom :=
  match attributes ad_group !! "description" with
  | None => AStr ""
  | Some (PList l) => match l with a :: _ => a | [] => AStr "" end
  | Some (PAtom a) => a
  end.

Definition group_add_params (ad_group : ad_object) : gmap string pyval :=
  let description := group_description ad_group in
  let params : gmap string pyval :=
    if atom_truthy description then {[ "o_description" := PAtom description ]}
    else ∅ in
  match attributes ad_group !! "gidNumber" with
  | Some gid => <["o_gidnumber" := gid]> params
  | None => params
  end.

(** The [try] statement of the loop body of [sync_groups], for the
    sanitized [groupname]. *)
Definition reconcile_group (dry_run force : bool) (ad_group : ad_object)
  (groupname : string) : prog unit :=
  try_except
    (existing ← ipa_group_show groupname ;
     if negb force then
       logger (LogGroupExistsSkipping groupname) ;;
       incr GroupsUpdated
     else
       (if dry_run then logger (LogWouldUpdateGroup groupname)
        else logger (LogUpdatedGroup groupname)) ;;
       incr GroupsUpdated)
    (λ e, match e with
          | NotFound => Some (
              (if dry_run then logger (LogWouldCreateGroup groupname)
               else
                 ipa_group_add groupname (group_add_params ad_group) ;;
                 logger (LogCreatedGroup groupname)) ;;
              incr GroupsCreated)
          | _ => Some (logger (LogFailedSyncGroup groupname e))
          end).

(** The body of [for ad_group in groups] in [sync_groups]. *)
Definition sync_group (dry_run force : bool) (ad_group : ad_object) : prog unit :=
  match sAMAccountName ad_group with
  | Some groupname =>
      if is_empty_string groupname || negb (should_sync_group groupname) then
        mret tt
      else
        let sanitized_groupname := sanitize groupname in
        when (negb (String.eqb sanitized_groupname groupname))
             (logger (LogSanitizedGroupName groupname sanitized_groupname)) ;;
        let groupname :=
          if negb (String.eqb sanitized_groupname groupname)
          then sanitized_groupname else groupname in
        reconcile_group dry_run force ad_group groupname
  | None => mret tt
  end.

(** [sync_groups]. *)
Definition sync_groups (dry_run force : bool) : prog unit :=
  logger LogStartingGroupSync ;;
  groups ← get_ad_groups ;
  for_each groups (sync_group dry_run force).

(** The [member] attribute as the list the membership loop iterates. *)
Definition group_members (ad_group : ad_object) : list atom :=
  match attributes ad_group !! "member" with
  | None => []
  | Some (PList l) => l
  | Some (PAtom a) => if atom_truthy a then [a] else []
  end.

(** [self.ad_conn.search(... f'(distinguishedName={member_dn})' ...)]
    followed by reading [self.ad_conn.entries]. *)
Definition search_member (member_dn : atom) : prog (list member_entry) := λ w,
  (ad_search_dn ad (str_of_atom member_dn), w).

(** One iteration of [for member_dn in members]: the two name sets are
    updated in place. *)
Definition resolve_member (names : gset string * gset string)
  (member_dn : atom) : prog (gset string * gset string) :=
  let '(ad_usernames, ad_groupnames) := names in
  try_except
    (entries ← search_member member_dn ;
     match entries with
     | entry :: _ =>
         match member_sAMAccountName entry with
         | Some sam_account_name =>
             if is_empty_string sam_account_name then
               logger (LogNoSAMAccountName member_dn) ;; mret names
             else
               let obj_classes := map lower (member_objectClass entry) in
               if str_in "group" obj_classes
               then mret (ad_usernames, ad_groupnames ∪ {[ sam_account_name ]})
               else mret (ad_usernames ∪ {[ sam_account_name ]}, ad_groupnames)
         | None => logger (LogNoSAMAccountName member_dn) ;; mret names
         end
     | [] => logger (LogMemberNotFound member_dn) ;; mret names
     end)
    (λ e, Some (logger (LogFailedQueryMember member_dn e) ;; mret names)).

Fixpoint resolve_members (members : list atom)
  (names : gset string * gset string) : prog (gset string * gset string) :=
  match members with
  | [] => mret names
  | member_dn :: rest =>
      names' ← resolve_member names member_dn ;
      resolve_members rest names'
  end.

(** The body of [for username in ad_usernames - ipa_user_members]. *)
Definition add_user_member (dry_run : bool) (groupname username : string)
  : prog unit :=
  if dry_run then logger (LogWouldAddUser username groupname)
  else
    try_except
      (ipa_group_add_member_user groupname username ;;
       logger (LogAddedUser username groupname) ;;
       incr MembershipsAdded)
      (λ e, Some (logger (LogFailedAddUser username groupname e))).

(** The body of [for member_groupname in ad_groupnames - ipa_group_members]. *)
Definition add_group_member (dry_run : bool) (groupname member_groupname : string)
  : prog unit :=
  if dry_run then logger (LogWouldAddGroup member_groupname groupname)
  else
    try_except
      (let group_to_add := sanitize member_groupname in
       ipa_group_add_member_group groupname group_to_add ;;
       logger (LogAddedGroup group_to_add groupname) ;;
       incr MembershipsAdded)
      (λ e, Some (logger (LogFailedAddGroup member_groupname groupname e))).

(** The last [try] statement of the loop body of [sync_memberships].  The
    loops run over the members of a set difference, in the order of the
    run. *)
Definition reconcile_members (dry_run : bool) (groupname : string)
  (ad_usernames ad_groupnames : gset string) : prog unit :=
  try_except
    (ipa_group ← ipa_group_show groupname ;
     ipa_user_members ← lift_prog (reply_members ipa_group "member_user") ;
     ipa_group_members ← lift_prog (reply_members ipa_group "member_group") ;
     for_each (iterate order (ad_usernames ∖ ipa_user_members))
              (add_user_member dry_run groupname) ;;
     for_each (iterate order (ad_groupnames ∖ ipa_group_members))
              (add_group_member dry_run groupname))
    (λ e, Some (logger (LogFailedSyncMemberships groupname e))).

(** The body of [for ad_group in groups] in [sync_memberships]. *)
Definition sync_membership (dry_run : bool) (ad_group : ad_object) : prog unit :=
  match sAMAccountName ad_group with
  | Some groupname =>
      if is_empty_string groupname || negb (should_sync_group groupname) then
        mret tt
      else
        let sanitized_groupname := sanitize groupname in
        when (negb (String.eqb sanitized_groupname groupname))
             (logger (LogUsingSanitizedGroupName groupname sanitized_groupname)) ;;
        let groupname :=
          if negb (String.eqb sanitized_groupname groupname)
          then sanitized_groupname else groupname in
        let members := group_members ad_group in
        names ← resolve_members members (∅, ∅) ;
        let '(ad_usernames, ad_groupnames) := names in
        reconcile_members dry_run groupname ad_usernames ad_groupnames
  | None => mret tt
  end.

(** [sync_memberships]. *)
Definition sync_memberships (dry_run : bool) : prog unit :=
  logger LogStartingMembershipSync ;;
  groups ← get_ad_groups ;
  for_each groups (sync_membership dry_run).

(** The three phases and the summary: the [try] block of [sync]. *)
Definition sync_phases (dry_run force_users force_groups : bool) : prog bool :=
  when (cfg_sync_users cfg) (sync_users dry_run force_users) ;;
  when (cfg_sync_groups cfg) (sync_groups dry_run force_groups) ;;
  when (cfg_sync_group_memberships cfg) (sync_memberships dry_run) ;;
  st ← get_stats ;
  logger (LogSummary st) ;;
  mret true.

(** [sync]. *)
Definition sync (dry_run force_users force_groups : bool) : prog bool :=
  when dry_run (logger LogDryRunMode) ;;
  ad_ok ← connect_ad ;
  if negb ad_ok then mret false
  else
    ipa_ok ← connect_ipa ;
    if negb ipa_ok then mret false
    else
      ensure_id_range ;;
      try_finally
        (sync_phases dry_run force_users force_groups)
        (logger LogDisconnected).

End ADSync.

(** The projections of a run. *)
Definition result_of {A} (r : outcome A * world) : outcome A := fst r.
Definition world_of {A} (r : outcome A * world) : world := snd r.

(** The world in which a fresh [ADSync] object starts on directory [d]. *)
Definition initial_world (d : directory) : world :=
  {| ipa := d; stats := initial_stats; log := []; calls := [] |}.

(** ** The statements about the identifier mapper, as the specification
    words them *)

(** The sub-authority count a buffer declares (byte 1). *)
Definition declared_count (b : list byte) : nat :=
  match nth_error b 1 with
  | Some c => N.to_nat (Byte.to_N c)
  | None => 0
  end.

(** The sub-authority stored at index [j] of a buffer. *)
Definition sub_authority_at (b : list byte) (j : nat) : Z :=
  Py.le_value (Py.slice (8 + j * 4) (8 + j * 4 + 4) b).

(** The RID of a valid identifier: the last dash-separated component of an
    ['S-']-prefixed text with at least 8 components, read as an integer; or
    the last of the declared little-endian 32-bit sub-authorities of a
    buffer of at least 12 bytes that holds all of them, at least one.
    [None] when the identifier is not valid. *)
Definition spec_rid (v : sid_value) : option Z :=
  match v with
  | SidNone => None
  | SidStr s =>
      if String.prefix "S-" s && (8 <=? length (Py.split "-" s))%nat then
        match Py.int (List.last (Py.split "-" s) EmptyString) with
        | Ok rid => Some rid
        | Raise _ => None
        end
      else None
  | SidBytes b =>
      let n := declared_count b in
      if (12 <=? length b)%nat && (1 <=? n)%nat && (8 + 4 * n <=? length b)%nat
      then Some (sub_authority_at b (n - 1))
      else None
  end.

(** The malformed identifiers that the mapper turns down: a text with
    fewer than 8 components or whose RID component, the last one, is not
    an integer, a buffer shorter than 12 bytes, or one that is shorter
    than its declared sub-authorities need. *)
Definition malformed (v : sid_value) : bool :=
  match v with
  | SidNone => false
  | SidStr s =>
      String.prefix "S-" s &&
      ((length (Py.split "-" s) <? 8)%nat
       || match Py.int (List.last (Py.split "-" s) EmptyString) with
          | Ok _ => false
          | Raise _ => true
          end)
  | SidBytes b =>
      (length b <? 12)%nat || (length b <? 8 + 4 * declared_count b)%nat
  end.

(** The malformed identifiers as the specification lists them: for a
    text, fewer than 8 components or any component after the leading "S"
    that is not an integer. *)
Definition unparsable (component : string) : bool :=
  match Py.int component with
  | Ok _ => false
  | Raise _ => true
  end.

Definition malformed_as_stated (v : sid_value) : bool :=
  match v with
  | SidNone => false
  | SidStr s =>
      String.prefix "S-" s &&
      ((length (Py.split "-" s) <? 8)%nat
       || existsb unparsable (tail (Py.split "-" s)))
  | SidBytes b =>
      (length b <? 12)%nat || (length b <? 8 + 4 * declared_count b)%nat
  end.

(** ** The statements about a run *)

(** Every group of [d] is still a group of [d'], with at least the user
    members and the group members it had. *)
Definition memberships_kept (d d' : directory) : Prop :=
  ∀ cn g, groups d !! cn = Some g →
    ∃ g', groups d' !! cn = Some g'
          ∧ member_user g ⊆ member_user g'
          ∧ member_group g ⊆ member_group g'.

(** From [w] to [w'] the directory moved along [Q] and the calls issued
    all satisfy [P]. *)
Definition run_extends (Q : directory → directory → Prop)
  (P : ipa_call → Prop) (w w' : world) : Prop :=
  Q (ipa w) (ipa w') ∧ ∃ cs, calls w' = (calls w ++ cs)%list ∧ Forall P cs.

(** A program that does so from every world. *)
Definition keeps (Q : directory → directory → Prop) (P : ipa_call → Prop)
  {A} (m : prog A) : Prop :=
  ∀ w, run_extends Q P w (world_of (m w)).

(** The calls of the membership reconciler. *)
Definition is_membership_call (c : ipa_call) : Prop :=
  match c with
  | group_show _ | group_add_member_user _ _ | group_add_member_group _ _ => True
  | _ => False
  end.

(** The status call the principal reconciler owes a user that exists:
    enable iff the source is enabled and the target locked, disable iff the
    source is disabled and the target unlocked, none otherwise. *)
Definition status_calls (username : string) (disabled locked : bool)
  : list ipa_call :=
  if disabled && negb locked then [user_disable username]
  else if negb disabled && locked then [user_enable username]
  else [].

(** The attribute update issued under [force]. *)
Definition update_calls (username : string) (force : bool)
  (params : gmap string pyval) : list ipa_call :=
  if force && negb (bool_decide (params = ∅)) then [user_mod username params]
  else [].

(** The decisions a run logs, dry-run intent and applied action alike:
    create, update, enable, disable, add-member, per entity. *)
Inductive decision : Type :=
| CreateUser (username : string)
| UpdateUser (username : string)
| EnableUser (username : string)
| DisableUser (username : string)
| CreateGroup (groupname : string)
| UpdateGroup (groupname : string)
| AddMember (groupname member : string).

Definition decisions_of (e : log_event) : list decision :=
  match e with
  | LogWouldUpdateUser u _ | LogUpdatedUser u _ => [UpdateUser u]
  | LogDisabledUser u => [DisableUser u]
  | LogEnabledUser u => [EnableUser u]
  | LogWouldCreateUser u status =>
      if String.eqb status "disabled" then [CreateUser u; DisableUser u]
      else [CreateUser u]
  | LogCreatedUserDisabled u => [CreateUser u; DisableUser u]
  | LogCreatedUser u => [CreateUser u]
  | LogWouldUpdateGroup g | LogUpdatedGroup g => [UpdateGroup g]
  | LogWouldCreateGroup g | LogCreatedGroup g => [CreateGroup g]
  | LogWouldAddUser u g | LogAddedUser u g => [AddMember g u]
  | LogWouldAddGroup m g => [AddMember g (sanitize m)]
  | LogAddedGroup m g => [AddMember g m]
  | _ => []
  end.

Definition decisions (l : list log_event) : list decision :=
  concat (map decisions_of l).

(** ** Example data *)

Module Example.

(** A configuration that maps the login name and nothing else. *)
Definition cfg : config :=
  {| cfg_id_range_base := None;
     user_attribute_mapping := [("sAMAccountName", "uid")];
     default_email_domain := None;
     user_include_filter := []; user_exclude_filter := [];
     group_include_filter := []; group_exclude_filter := [];
     cfg_sync_users := true; cfg_sync_groups := true;
     cfg_sync_group_memberships := true |}.

(** The disabled user "jdoe": account-control value 514 has bit 0x0002
    set. *)
Definition jdoe : ad_object :=
  {| entry_dn := "CN=jdoe,OU=Users";
     sAMAccountName := Some "jdoe";
     other_attributes :=
       {[ "_is_disabled" := PAtom (ABool (uac_is_disabled (Some 514))) ]} |}.

(** A group with one user member and one nested group whose name needs
    sanitizing. *)
Definition staff : ad_object :=
  {| entry_dn := "CN=staff,OU=Groups";
     sAMAccountName := Some "staff";
     other_attributes :=
       {[ "member" := PList [AStr "CN=jdoe,OU=Users";
                             AStr "CN=Dev Team,OU=Groups"] ]} |}.

Definition search (dn : string) : outcome (list member_entry) :=
  if String.eqb dn "CN=jdoe,OU=Users" then
    Ok [ {| member_sAMAccountName := Some "jdoe";
            member_objectClass := ["top"; "person"; "user"] |} ]
  else if String.eqb dn "CN=Dev Team,OU=Groups" then
    Ok [ {| member_sAMAccountName := Some "Dev Team";
            member_objectClass := ["top"; "group"] |} ]
  else Ok [].

Definition ad : source :=
  {| ad_connect_ok := true; ad_users := [jdoe]; ad_groups := [staff];
     ad_search_dn := search |}.

(** A target that refuses nothing. *)
Definition tgt : target :=
  {| ipa_connect_ok := true; ipa_rejects := λ _ _, false |}.

(** A run that visits sets in the order [elements] lists them. *)
Definition order : set_order :=
  {| iterate := elements; iterate_permutation := λ s, Permutation_refl _ |}.

Definition empty_directory : directory :=
  {| users := ∅; groups := ∅; idranges := ∅ |}.

Definition no_members : ipa_group :=
  {| group_attrs := ∅; member_user := ∅; member_group := ∅ |}.

(** A target that already has "jdoe", unlocked, and the two groups, with
    "Dev-Team" a member of "staff". *)
Definition populated_directory : directory :=
  {| users := {[ "jdoe" := {[ "uid" := PAtom (AStr "jdoe");
                              "nsaccountlock" := PAtom (ABool false) ]} ]};
     groups := {[ "Dev-Team" := no_members;
                  "staff" := {| group_attrs := ∅;
                                member_user := {[ "jdoe" ]};
                                member_group := {[ "Dev-Team" ]} |} ]};
     idranges := {[ "AD_SYNC_RANGE" ]} |}.

(** The enabled user "asmith" (account-control value 512), and a target
    on which that account is locked. *)
Definition asmith : ad_object :=
  {| entry_dn := "CN=asmith,OU=Users";
     sAMAccountName := Some "asmith";
     other_attributes :=
       {[ "_is_disabled" := PAtom (ABool (uac_is_disabled (Some 512))) ]} |}.

Definition asmith_locked : gmap string pyval :=
  {[ "uid" := PAtom (AStr "asmith"); "nsaccountlock" := PAtom (ABool true) ]}.

Definition locked_directory : directory :=
  {| users := {[ "asmith" := asmith_locked ]}; groups := ∅;
     idranges := {[ "AD_SYNC_RANGE" ]} |}.

End Example.

(** ** Auxiliary definitions of the proofs *)

Definition digits_value (ds : list N) (acc : N) : N :=
  fold_left (λ a d, (10 * a + d)%N) ds acc.

Definition digits_string (ds : list N) : string :=
  string_of_list_ascii (map Py.digit_char ds).

Fixpoint no_dash (s : string) : bool :=
  match s with
  | EmptyString => true
  | String c r => negb (Ascii.eqb c "-") && no_dash r
  end.

(** The text [sid_to_string] builds: its prefix and its components. *)
Definition sid_text (b : list byte) (n : nat) (head : string) : string :=
  fold_left (λ acc j, acc ++ "-" ++ Py.str_of_Z (sub_authority_at b j))
            (seq 0 n) head.

(** The SID S-1-5-21-1-2-3-1105 in binary form round-trips. *)
Definition sid_1105 : list byte :=
  [x01; x05; x00; x00; x00; x00; x00; x05;
   x15; x00; x00; x00; x01; x00; x00; x00; x02; x00; x00; x00;
   x03; x00; x00; x00; x51; x04; x00; x00].

(** The well-known SID S-1-5-32-544 (two sub-authorities) in binary
    form. *)
Definition sid_builtin_admins : list byte :=
  [x01; x02; x00; x00; x00; x00; x00; x05;
   x20; x00; x00; x00; x20; x02; x00; x00].

Definition any_call : ipa_call → Prop := λ _, True.

Definition only_lookups : ipa_call → Prop := λ c, is_lookup c = true.

(** * The rest of the script

    The parts of [ad_sync.py] that the statements above do not reach, and
    the vocabulary of the properties proved about them. *)

(** ** The fields of a binary SID *)

(** The bytes that the binary path of [sid_to_uid] and [sid_to_string]
    reads from its argument. *)
Definition sid_buffer (v : sid_value) : list byte :=
  match v with
  | SidNone => []
  | SidStr s => Py.encode_latin1 s
  | SidBytes b => b
  end.

(** Byte 0, and the six bytes 2..7 read big-endian. *)
Definition sid_revision (b : list byte) : Z :=
  match b with
  | b0 :: _ => Py.byte_val b0
  | [] => 0
  end.

Definition sid_authority (b : list byte) : Z := Py.be_value (Py.slice 2 8 b).

(** A buffer of at least 12 bytes that holds every sub-authority it
    declares. *)
Definition sid_complete (b : list byte) : bool :=
  (12 <=? length b)%nat && (8 + 4 * declared_count b <=? length b)%nat.

(** Whether an entry of the target is locked: the truth value of its
    ['nsaccountlock'] attribute. *)
Definition entry_locked (entry : gmap string pyval) : bool :=
  match entry !! "nsaccountlock" with
  | Some v => truthy v
  | None => false
  end.

(** ** Frames of the phases *)

(** The calls of [ensure_id_range]. *)
Definition is_idrange_call (c : ipa_call) : Prop :=
  match c with
  | idrange_show _ | idrange_add _ _ => True
  | _ => False
  end.

(** Users and groups are as they were; ID ranges were at most added. *)
Definition only_ranges_grow (d d' : directory) : Prop :=
  users d' = users d ∧ groups d' = groups d ∧ idranges d ⊆ idranges d'.

(** The calls of [sync_users]. *)
Definition is_user_call (c : ipa_call) : Prop :=
  match c with
  | user_show _ | user_add _ _ _ _ _ | user_mod _ _
  | user_disable _ | user_enable _ => True
  | _ => False
  end.

(** Groups and ID ranges are as they were; every user is still there. *)
Definition users_remain (d d' : directory) : Prop :=
  groups d' = groups d ∧ idranges d' = idranges d
  ∧ ∀ uid, is_Some (users d !! uid) → is_Some (users d' !! uid).

(** A name without the characters that [sync_groups] replaces. *)
Fixpoint clean_name (s : string) : bool :=
  match s with
  | EmptyString => true
  | String c r =>
      negb (Ascii.eqb c " ") && negb (Ascii.eqb c "(")
      && negb (Ascii.eqb c ")") && clean_name r
  end.

(** The calls of [sync_groups]: a lookup or an addition of a group under a
    clean name. *)
Definition is_group_sync_call (c : ipa_call) : Prop :=
  match c with
  | group_show cn | group_add cn _ => clean_name cn = true
  | _ => False
  end.

(** Users and ID ranges are as they were; every group is still there,
    unchanged. *)
Definition groups_remain (d d' : directory) : Prop :=
  users d' = users d ∧ idranges d' = idranges d
  ∧ ∀ cn g, groups d !! cn = Some g → groups d' !! cn = Some g.

(** ** Programs that return *)

(** From every world the program returns, and what it returns is in [R]. *)
Definition yields {A} (R : A → Prop) (m : prog A) : Prop :=
  ∀ w, ∃ a, result_of (m w) = Ok a ∧ R a.

Definition anything {A} : A → Prop := λ _, True.

(** ** Attribute mapping *)

(** The dictionary [map_user_attributes] has built when its loop over the
    mapping ends. *)
Definition mapped_attributes (cfg : config) (ad_user : ad_object)
  : gmap string atom :=
  fold_left (map_attribute (attributes ad_user)) (user_attribute_mapping cfg) ∅.

(** The value the loop takes from a source attribute: the value itself, or
    the first element of a list. *)
Definition first_value (v : option pyval) : option atom :=
  match v with
  | Some (PAtom a) => Some a
  | Some (PList (a :: _)) => Some a
  | _ => None
  end.

(** An entry [k ↦ v] that the loop took from the source under one of the
    pairs of [mapping]. *)
Definition from_source (ad_user : ad_object) (mapping : list (string * string))
  (k : string) (v : atom) : Prop :=
  atom_truthy v = true
  ∧ ∃ ad_attr, (ad_attr, k) ∈ mapping
               ∧ first_value (attributes ad_user !! ad_attr) = Some v.

(** ** Members of a group *)

(** An entry that the membership loop takes for a group: one of its
    object classes is "group", in any letter case. *)
Definition is_group_entry (e : member_entry) : bool :=
  str_in "group" (map lower (member_objectClass e)).

(** [name] is the login name of the first entry that the search returns
    for one of [members], and that entry is a group, or is not, as
    [as_group] says. *)
Definition resolves_to (ad : source) (members : list atom) (as_group : bool)
  (name : string) : Prop :=
  ∃ member_dn entry rest,
    member_dn ∈ members
    ∧ ad_search_dn ad (str_of_atom member_dn) = Ok (entry :: rest)
    ∧ member_sAMAccountName entry = Some name
    ∧ name ≠ ""
    ∧ is_group_entry entry = as_group.

(** The world after logging the lines [l]. *)
Definition add_logs (l : list log_event) (w : world) : world :=
  {| ipa := ipa w; stats := stats w; log := log w ++ l; calls := calls w |}.

(** ** Reading the source directory

    [get_ad_users] and [get_ad_groups]: what they make of the entries that
    the search returns.  An entry carries its login name and its SID as
    the values of those two attributes, and the other requested attributes
    as a dictionary; an attribute the entry does not have ([hasattr] is
    false) is absent. *)

Module Ldap.

(** An element of [self.ad_conn.entries].  [ldap_sAMAccountName] is [None]
    when the entry has no such attribute or no value for it;
    [ldap_objectSid] is [None] when the entry has no such attribute. *)
Record ldap_entry : Type := {
  ldap_entry_dn : string;
  ldap_sAMAccountName : option string;
  ldap_objectSid : option sid_value;
  ldap_attributes : gmap string pyval
}.

(** The dictionary built for an entry: ['dn'] and ['attributes'], the
    latter with its ['sAMAccountName'] and ['objectSid'] apart. *)
Record ad_dict : Type := {
  dict_dn : string;
  dict_sAMAccountName : string;
  dict_objectSid : option sid_value;
  dict_attributes : gmap string pyval
}.

(** The lines the two functions log. *)
Inductive read_event : Type :=
| DebugCalculatedUID (uid : Z) (name : string) (sid_string : option string)
| DebugCalculatedGID (gid : Z) (name : string)
| DebugCalculatedGroupGID (gid : Z) (name : string) (sid_string : option string)
| InfoRetrievedUsers (n : nat)
| InfoRetrievedGroups (n : nat)
| ErrorFailedUsers (e : pyexn)
| ErrorFailedGroups (e : pyexn).

(** Computations that log and may raise. *)
Definition reading (A : Type) : Type :=
  list read_event → outcome A * list read_event.

Global Instance reading_ret : MRet reading := λ A a l, (Ok a, l).

Global Instance reading_bind : MBind reading := λ A B k m l,
  match m l with
  | (Ok a, l') => k a l'
  | (Raise e, l') => (Raise e, l')
  end.

Definition emit (e : read_event) : reading unit :=
  λ l, (Ok tt, (l ++ [e])%list).

Definition lift {A} (o : outcome A) : reading A := λ l, (o, l).

(** [try: body / except Exception as e: handler]. *)
Definition try_reading {A} (body : reading A) (handler : pyexn → reading A)
  : reading A := λ l,
  match body l with
  | (Ok a, l') => (Ok a, l')
  | (Raise e, l') => handler e l'
  end.

(** The attributes requested for a user and for a group, other than the
    login name and the SID. *)
Definition user_attribute_names : list string :=
  ["givenName"; "sn"; "mail"; "displayName"; "telephoneNumber"; "title";
   "department"; "userAccountControl"; "uidNumber"; "gidNumber"; "loginShell";
   "unixHomeDirectory"; "primaryGroupID"].

Definition group_attribute_names : list string :=
  ["cn"; "description"; "member"; "gidNumber"].

(** [for attr in attributes: if hasattr(entry, attr): ...]. *)
Definition requested (names : list string) (entry : ldap_entry)
  : gmap string pyval :=
  filter (λ kv, kv.1 ∈ names) (ldap_attributes entry).

(** [uac = entry.userAccountControl.value if hasattr(...) else 0] and
    [bool(uac and (uac & 0x0002))]: the operator [&] is defined on
    integers and booleans. *)
Definition account_disabled (entry : ldap_entry) : outcome bool :=
  match ldap_attributes entry !! "userAccountControl" with
  | None => Ok false
  | Some uac =>
      if truthy uac then
        match uac with
        | PAtom (AInt z) => Ok (negb (Z.land z 2 =? 0))
        | PAtom (ABool b) => Ok (negb (Z.land (Z.b2z b) 2 =? 0))
        | _ => Raise TypeError
        end
      else Ok false
  end.

(** [id_range_base + v]. *)
Definition add_int (id_range_base : Z) (v : pyval) : outcome Z :=
  match v with
  | PAtom (AInt z) => Ok (id_range_base + z)
  | PAtom (ABool b) => Ok (id_range_base + Z.b2z b)
  | _ => Raise TypeError
  end.

(** [k not in attrs or not attrs[k]]. *)
Definition not_set (attrs : gmap string pyval) (k : string) : bool :=
  match attrs !! k with
  | Some v => negb (truthy v)
  | None => true
  end.

(** The body of the loop of [get_ad_users] for an entry with login name
    [name]. *)
Definition user_dict (id_range_base : Z) (entry : ldap_entry) (name : string)
  : reading ad_dict :=
  is_disabled ← lift (account_disabled entry);
  let attrs := requested user_attribute_names entry in
  let attrs := <["_is_disabled" := PAtom (ABool is_disabled)]> attrs in
  attrs ←
    match ldap_objectSid entry with
    | Some sid_bytes =>
        if sid_falsy sid_bytes then mret attrs
        else
          sid_string ← lift (sid_to_string sid_bytes);
          attrs ←
            (if not_set attrs "uidNumber" then
               calculated_uid ← lift (sid_to_uid sid_bytes id_range_base);
               match calculated_uid with
               | Some uid =>
                   if uid =? 0 then mret attrs
                   else
                     emit (DebugCalculatedUID uid name sid_string) ;;
                     mret (<["_calculated_uid" := PAtom (ABool true)]>
                             (<["uidNumber" := PAtom (AInt uid)]> attrs))
               | None => mret attrs
               end
             else mret attrs);
          match attrs !! "primaryGroupID" with
          | Some v =>
              if truthy v then
                primary_gid ← lift (add_int id_range_base v);
                if not_set attrs "gidNumber" then
                  emit (DebugCalculatedGID primary_gid name) ;;
                  mret (<["_calculated_gid" := PAtom (ABool true)]>
                          (<["gidNumber" := PAtom (AInt primary_gid)]> attrs))
                else mret attrs
              else mret attrs
          | None => mret attrs
          end
    | None => mret attrs
    end;
  mret {| dict_dn := ldap_entry_dn entry;
          dict_sAMAccountName := name;
          dict_objectSid := ldap_objectSid entry;
          dict_attributes := attrs |}.

(** The body of the loop of [get_ad_groups]. *)
Definition group_dict (id_range_base : Z) (entry : ldap_entry) (name : string)
  : reading ad_dict :=
  let attrs := requested group_attribute_names entry in
  attrs ←
    match ldap_objectSid entry with
    | Some sid_bytes =>
        if sid_falsy sid_bytes then mret attrs
        else
          sid_string ← lift (sid_to_string sid_bytes);
          if not_set attrs "gidNumber" then
            calculated_gid ← lift (sid_to_uid sid_bytes id_range_base);
            match calculated_gid with
            | Some gid =>
                if gid =? 0 then mret attrs
                else
                  emit (DebugCalculatedGroupGID gid name sid_string) ;;
                  mret (<["_calculated_gid" := PAtom (ABool true)]>
                          (<["gidNumber" := PAtom (AInt gid)]> attrs))
            | None => mret attrs
            end
          else mret attrs
    | None => mret attrs
    end;
  mret {| dict_dn := ldap_entry_dn entry;
          dict_sAMAccountName := name;
          dict_objectSid := ldap_objectSid entry;
          dict_attributes := attrs |}.

(** [for entry in self.ad_conn.entries], appending to the list built so
    far; entries without a login name are passed over. *)
Fixpoint read_entries (body : ldap_entry → string → reading ad_dict)
  (entries : list ldap_entry) (acc : list ad_dict) : reading (list ad_dict) :=
  match entries with
  | [] => mret acc
  | entry :: rest =>
      match ldap_sAMAccountName entry with
      | Some name =>
          if is_empty_string name then read_entries body rest acc
          else
            item ← body entry name;
            read_entries body rest (acc ++ [item])%list
      | None => read_entries body rest acc
      end
  end.

(** [get_ad_users] and [get_ad_groups], given what the search returns or
    raises. *)
Definition get_ad_users (id_range_base : Z)
  (search : outcome (list ldap_entry)) : reading (list ad_dict) :=
  try_reading
    (entries ← lift search;
     users ← read_entries (user_dict id_range_base) entries [];
     emit (InfoRetrievedUsers (length users)) ;;
     mret users)
    (λ e, emit (ErrorFailedUsers e) ;; mret []).

Definition get_ad_groups (id_range_base : Z)
  (search : outcome (list ldap_entry)) : reading (list ad_dict) :=
  try_reading
    (entries ← lift search;
     groups ← read_entries (group_dict id_range_base) entries [];
     emit (InfoRetrievedGroups (length groups)) ;;
     mret groups)
    (λ e, emit (ErrorFailedGroups e) ;; mret []).

(** The dictionary as the reconcilers read it. *)
Definition as_ad_object (d : ad_dict) : ad_object :=
  {| entry_dn := dict_dn d;
     sAMAccountName := Some (dict_sAMAccountName d);
     other_attributes := dict_attributes d |}.

(** An attribute that is missing, [None] or an integer. *)
Definition integer_or_missing (v : option pyval) : bool :=
  match v with
  | None | Some (PAtom ANone) | Some (PAtom (AInt _)) => true
  | _ => false
  end.

(** An entry whose account-control value and primary group are integers
    where present, as the directory schema has them. *)
Definition well_typed (entry : ldap_entry) : bool :=
  integer_or_missing (ldap_attributes entry !! "userAccountControl")
  && integer_or_missing (ldap_attributes entry !! "primaryGroupID").

(** The account-control value of a well-typed entry. *)
Definition account_control (entry : ldap_entry) : option Z :=
  match ldap_attributes entry !! "userAccountControl" with
  | Some (PAtom (AInt z)) => Some z
  | _ => None
  end.

(** What the step that may calculate the user ID makes of [attrs]. *)
Definition uid_step_spec (id_range_base : Z) (sid : sid_value)
  (attrs attrs' : gmap string pyval) : Prop :=
  (∀ k, k ≠ "uidNumber" → k ≠ "_calculated_uid" → attrs' !! k = attrs !! k)
  ∧ (not_set attrs "uidNumber" = false → attrs' = attrs)
  ∧ (not_set attrs "uidNumber" = true →
     match sid_to_uid sid id_range_base with
     | Ok (Some uid) =>
         if uid =? 0 then attrs' = attrs
         else attrs' !! "uidNumber" = Some (PAtom (AInt uid))
              ∧ attrs' !! "_calculated_uid" = Some (PAtom (ABool true))
     | _ => attrs' = attrs
     end).

(** What the step that may calculate the group ID makes of [attrs]. *)
Definition gid_step_spec (id_range_base : Z)
  (attrs attrs' : gmap string pyval) : Prop :=
  (∀ k, k ≠ "gidNumber" → k ≠ "_calculated_gid" → attrs' !! k = attrs !! k)
  ∧ (not_set attrs "gidNumber" = false → attrs' = attrs)
  ∧ (not_set attrs "gidNumber" = true →
     match attrs !! "primaryGroupID" with
     | Some (PAtom (AInt p)) =>
         if p =? 0 then attrs' = attrs
         else attrs' !! "gidNumber" = Some (PAtom (AInt (id_range_base + p)))
              ∧ attrs' !! "_calculated_gid" = Some (PAtom (ABool true))
     | _ => attrs' = attrs
     end).

(** The login names of the entries that have one, in order. *)
Definition login_names (entries : list ldap_entry) : list string :=
  omap (λ entry, match ldap_sAMAccountName entry with
                 | Some name => if is_empty_string name then None else Some name
                 | None => None
                 end) entries.

End Ldap.

(** Example entries. *)
Module LdapExample.

(** A disabled account with a textual SID and no Unix attributes. *)
Definition jtong : Ldap.ldap_entry :=
  {| Ldap.ldap_entry_dn := "CN=jtong,OU=Users";
     Ldap.ldap_sAMAccountName := Some "jtong";
     Ldap.ldap_objectSid := Some (SidStr "S-1-5-21-1-2-3-1105");
     Ldap.ldap_attributes :=
       {[ "userAccountControl" := PAtom (AInt 514);
          "primaryGroupID" := PAtom (AInt 513) ]} |}.

(** An account with Unix attributes set in the directory. *)
Definition alice : Ldap.ldap_entry :=
  {| Ldap.ldap_entry_dn := "CN=alice,OU=Users";
     Ldap.ldap_sAMAccountName := Some "alice";
     Ldap.ldap_objectSid := Some (SidStr "S-1-5-21-1-2-3-1106");
     Ldap.ldap_attributes :=
       {[ "uidNumber" := PAtom (AInt 5000);
          "gidNumber" := PAtom (AInt 5000);
          "primaryGroupID" := PAtom (AInt 513) ]} |}.

(** An entry whose account-control value came back as text. *)
Definition raw : Ldap.ldap_entry :=
  {| Ldap.ldap_entry_dn := "CN=raw,OU=Users";
     Ldap.ldap_sAMAccountName := Some "raw";
     Ldap.ldap_objectSid := None;
     Ldap.ldap_attributes := {[ "userAccountControl" := PAtom (AStr "512") ]} |}.

(** A group with a textual SID and no [gidNumber]. *)
Definition devs : Ldap.ldap_entry :=
  {| Ldap.ldap_entry_dn := "CN=devs,OU=Groups";
     Ldap.ldap_sAMAccountName := Some "devs";
     Ldap.ldap_objectSid := Some (SidStr "S-1-5-21-1-2-3-2001");
     Ldap.ldap_attributes := {[ "cn" := PAtom (AStr "devs") ]} |}.

End LdapExample.

(** ** The diagnostic command

    [show_user_ids]: what it logs for the first entry found for a user,
    and what it returns. *)

Module ShowId.

Import Ldap.

(** The lines [show_user_ids] logs; [Connection] wraps the line of
    [connect_ad]. *)
Inductive show_line : Type :=
| Connection (e : log_event)
| ErrorUserNotFound (username : string)
| InfoRuleOpen
| InfoRule
| InfoUser (username : string)
| DebugRawSidType (is_str : bool)
| InfoSid (sid_string : option string)
| InfoRid (rid : Z)
| InfoBlank
| InfoCurrentBase (id_range_base : Z)
| InfoCalculatedUid (uid : Z)
| InfoAdUidNumber (v : pyval)
| InfoAdUidNumberNotSet
| InfoAdGidNumber (v : pyval)
| InfoAdGidNumberNotSet
| InfoPrimaryGroupId (v : pyval)
| InfoCalculatedGid (gid : Z)
| InfoToMatch
| InfoFormula (rid : Z)
| InfoExample
| InfoExampleFormula (rid result : Z)
| InfoUpdateHint
| ErrorUnexpectedSidFormat (sid_string : string)
| DebugSubAuthCount (n : Z)
| DebugReadOffset (offset : Z) (len : nat)
| ErrorFailed (e : pyexn)
| DebugTraceback.

Definition showing (A : Type) : Type :=
  list show_line → outcome A * list show_line.

Global Instance showing_ret : MRet showing := λ A a l, (Ok a, l).

Global Instance showing_bind : MBind showing := λ A B k m l,
  match m l with
  | (Ok a, l') => k a l'
  | (Raise e, l') => (Raise e, l')
  end.

Definition say (x : show_line) : showing unit :=
  λ l, (Ok tt, (l ++ [x])%list).

Definition lift {A} (o : outcome A) : showing A := λ l, (o, l).

Definition try_showing {A} (body : showing A) (handler : pyexn → showing A)
  : showing A := λ l,
  match body l with
  | (Ok a, l') => (Ok a, l')
  | (Raise e, l') => handler e l'
  end.

(** [hasattr(entry, k) and entry.k.value]. *)
Definition present (entry : ldap_entry) (k : string) : option pyval :=
  match ldap_attributes entry !! k with
  | Some v => if truthy v then Some v else None
  | None => None
  end.

(** The lines logged once the RID is known; the text branch and the
    binary branch of [show_user_ids] carry the same block. *)
Definition report (id_range_base : Z) (entry : ldap_entry)
  (sid_string : option string) (rid : Z) : showing unit :=
  say (InfoSid sid_string) ;;
  say (InfoRid rid) ;;
  say InfoBlank ;;
  let calculated_uid := id_range_base + rid in
  say (InfoCurrentBase id_range_base) ;;
  say (InfoCalculatedUid calculated_uid) ;;
  say InfoBlank ;;
  match present entry "uidNumber" with
  | Some v => say (InfoAdUidNumber v)
  | None => say InfoAdUidNumberNotSet
  end ;;
  match present entry "gidNumber" with
  | Some v => say (InfoAdGidNumber v)
  | None =>
      match present entry "primaryGroupID" with
      | Some p =>
          primary_gid ← lift (add_int id_range_base p);
          say InfoAdGidNumberNotSet ;;
          say (InfoPrimaryGroupId p) ;;
          say (InfoCalculatedGid primary_gid)
      | None => mret tt
      end
  end ;;
  say InfoBlank ;;
  say InfoToMatch ;;
  say (InfoFormula rid) ;;
  say InfoBlank ;;
  say InfoExample ;;
  let example_result := 1668601105 - rid in
  say (InfoExampleFormula rid example_result) ;;
  say InfoBlank ;;
  say InfoUpdateHint.

(** The part of the [try] block that deals with the SID of the entry. *)
Definition show_sid (id_range_base : Z) (entry : ldap_entry) : showing unit :=
  match ldap_objectSid entry with
  | Some sid_value =>
      if sid_falsy sid_value then mret tt
      else
        say (DebugRawSidType
               match sid_value with SidStr _ => true | _ => false end) ;;
        match is_sid_string sid_value with
        | Some sid_string =>
            let parts := Py.split "-" sid_string in
            if (8 <=? length parts)%nat then
              rid ← lift (Py.int (List.last parts EmptyString));
              report id_range_base entry (Some sid_string) rid
            else say (ErrorUnexpectedSidFormat sid_string)
        | None =>
            let sid_bytes := sid_buffer sid_value in
            sid_string ← lift (sid_to_string (SidBytes sid_bytes));
            if (12 <=? length sid_bytes)%nat then
              c ← lift (Py.index sid_bytes 1);
              let sub_auth_count := Py.byte_val c in
              say (DebugSubAuthCount sub_auth_count) ;;
              let offset := 8 + (sub_auth_count - 1) * 4 in
              say (DebugReadOffset offset (length sid_bytes)) ;;
              rid ← lift (Py.unpack_I_le
                            (Py.slice (Z.to_nat offset) (Z.to_nat (offset + 4))
                                      sid_bytes));
              report id_range_base entry sid_string rid
            else mret tt
        end
  | None => mret tt
  end.

(** The [try] block of [show_user_ids]. *)
Definition show_user_ids_try (id_range_base : Z) (username : string)
  (search : outcome (list ldap_entry)) : showing bool :=
  entries ← lift search;
  match entries with
  | [] => say (ErrorUserNotFound username) ;; mret false
  | entry :: _ =>
      say InfoRuleOpen ;;
      say (InfoUser username) ;;
      say InfoRule ;;
      show_sid id_range_base entry ;;
      say InfoRule ;;
      mret true
  end.

(** [show_user_ids(username)], given whether the connection succeeds and
    what the search returns or raises. *)
Definition show_user_ids (ad_connect_ok : bool) (id_range_base : Z)
  (username : string) (search : outcome (list ldap_entry)) : showing bool :=
  if ad_connect_ok then
    say (Connection LogConnectedAD) ;;
    try_showing
      (show_user_ids_try id_range_base username search)
      (λ e, say (ErrorFailed e) ;; say DebugTraceback ;; mret false)
  else say (Connection LogFailedConnectAD) ;; mret false.

End ShowId.

(** ** The temporary password of the Azure script

    [AzureFreeIPASync._generate_temp_password] of
    [azure-sync/azure_freeipa_sync.py].  A password is the list of its
    characters; the draws of [secrets.choice] are given by [rand], the
    k-th draw picking the element at index [rand k] modulo the length of
    the sequence. *)

Module Azure.

(** [c.islower()], [c.isupper()] and [c.isdigit()] for a character with a
    code point below 256. *)
Definition islower (c : ascii) : bool :=
  let n := N_of_ascii c in
  ((97 <=? n) && (n <=? 122) || (n =? 170) || (n =? 181) || (n =? 186)
   || (223 <=? n) && (n <=? 246) || (248 <=? n) && (n <=? 255))%N.

Definition isupper (c : ascii) : bool :=
  let n := N_of_ascii c in
  ((65 <=? n) && (n <=? 90) || (192 <=? n) && (n <=? 214)
   || (216 <=? n) && (n <=? 222))%N.

Definition isdigit (c : ascii) : bool :=
  let n := N_of_ascii c in
  ((48 <=? n) && (n <=? 57) || (178 <=? n) && (n <=? 179) || (n =? 185))%N.

(** [string.ascii_lowercase], [string.ascii_uppercase],
    [string.ascii_letters] and [string.digits]. *)
Definition ascii_lowercase : list ascii :=
  list_ascii_of_string "abcdefghijklmnopqrstuvwxyz".

Definition ascii_uppercase : list ascii :=
  list_ascii_of_string "ABCDEFGHIJKLMNOPQRSTUVWXYZ".

Definition ascii_letters : list ascii :=
  (ascii_lowercase ++ ascii_uppercase)%list.

Definition digits : list ascii := list_ascii_of_string "0123456789".

(** [string.ascii_letters + string.digits + "!@#$%&*-+=_"]. *)
Definition alphabet : list ascii :=
  (ascii_letters ++ digits ++ list_ascii_of_string "!@#$%&*-+=_")%list.

(** [secrets.choice(seq)] on a non-empty sequence, for the draw [r]. *)
Definition choice (seq : list ascii) (r : nat) : ascii :=
  nth (r mod length seq) seq "000"%char.

(** [if not any(is_class(c) for c in password):
       password = password[:-1] + secrets.choice(pool)],
    with the number of draws made so far. *)
Definition ensure (is_class : ascii → bool) (pool : list ascii)
  (rand : nat → nat) (st : list ascii * nat) : list ascii * nat :=
  let '(password, k) := st in
  if existsb is_class password then (password, k)
  else ((removelast password ++ [choice pool (rand k)])%list, S k).

(** The characters drawn by the generator expression. *)
Definition drawn (rand : nat → nat) (n : nat) : list ascii :=
  map (λ k, choice alphabet (rand k)) (seq 0 n).

(** [_generate_temp_password], given the configured
    [temp_password_length], if any. *)
Definition _generate_temp_password (temp_password_length : option string)
  (rand : nat → nat) : outcome (list ascii) :=
  length ← Py.int (default "12" temp_password_length);
  let n := Z.to_nat length in
  let password := drawn rand n in
  let st := ensure islower ascii_lowercase rand (password, n) in
  let st := ensure isupper ascii_uppercase rand st in
  let st := ensure isdigit digits rand st in
  Ok (fst st).

End Azure.

(** * Properties *)

(** ** Facts about the Python primitives *)

Section PyFacts.

Lemma slice_length {A} (i j : nat) (l : list A) :
  length (Py.slice i j l) = Nat.min (j - i) (length l - i).
Proof. unfold Py.slice. rewrite length_take, length_drop. reflexivity. Qed.

Lemma unpack_I_le_full (b : list byte) (o : nat) :
  (o + 4 ≤ length b)%nat →
  Py.unpack_I_le (Py.slice o (o + 4) b) = Ok (Py.le_value (Py.slice o (o + 4) b)).
Proof.
  intros H. unfold Py.unpack_I_le. rewrite slice_length.
  replace (Nat.min (o + 4 - o) (length b - o)) with 4%nat by lia.
  reflexivity.
Qed.

Lemma unpack_I_le_short (b : list byte) (o : nat) :
  (length b < o + 4)%nat →
  Py.unpack_I_le (Py.slice o (o + 4) b) = Raise StructError.
Proof.
  intros H. unfold Py.unpack_I_le. rewrite slice_length.
  destruct (Nat.eqb_spec (Nat.min (o + 4 - o) (length b - o)) 4); [lia | reflexivity].
Qed.

Lemma byte_val_range (x : byte) : 0 ≤ Py.byte_val x < 256.
Proof.
  unfold Py.byte_val. pose proof (Byte.to_N_bounded x) as H.
  lia.
Qed.

Lemma le_value_range (bs : list byte) :
  0 ≤ Py.le_value bs < 256 ^ Z.of_nat (length bs).
Proof.
  induction bs as [|x bs IH]; simpl Py.le_value.
  - simpl. lia.
  - pose proof (byte_val_range x).
    replace (Z.of_nat (length (x :: bs))) with (Z.succ (Z.of_nat (length bs)))
      by (simpl length; lia).
    rewrite Z.pow_succ_r by lia. lia.
Qed.

End PyFacts.

(** ** The loops over the sub-authorities *)

Section SubAuthorities.

Variable b : list byte.

Lemma read_sub_authorities_full (n i : nat) (acc : list Z) :
  (8 + 4 * (i + n) ≤ length b)%nat →
  read_sub_authorities b (seq i n) acc = Ok (acc ++ map (sub_authority_at b) (seq i n))%list.
Proof.
  revert i acc. induction n as [|n IH]; intros i acc H; simpl.
  - by rewrite app_nil_r.
  - rewrite unpack_I_le_full by lia. simpl.
    unfold mbind, outcome_bind. rewrite IH by lia.
    by rewrite <- app_assoc.
Qed.

Lemma read_sub_authorities_short (n i : nat) (acc : list Z) :
  (0 < n)%nat → (length b < 8 + 4 * (i + n))%nat →
  read_sub_authorities b (seq i n) acc = Raise StructError.
Proof.
  revert i acc. induction n as [|n IH]; intros i acc Hn H; [lia|]. simpl.
  destruct (Nat.lt_ge_cases (length b) (8 + i * 4 + 4)) as [Hs|Hs].
  - by rewrite unpack_I_le_short.
  - rewrite unpack_I_le_full by lia. unfold mbind, outcome_bind.
    apply IH; lia.
Qed.

Lemma append_sub_authorities_full (n i : nat) (s : string) :
  (8 + 4 * (i + n) ≤ length b)%nat →
  append_sub_authorities b (seq i n) s =
  Ok (fold_left (λ acc j, acc ++ "-" ++ Py.str_of_Z (sub_authority_at b j)) (seq i n) s).
Proof.
  revert i s. induction n as [|n IH]; intros i s H; simpl; [done|].
  rewrite unpack_I_le_full by lia. unfold mbind, outcome_bind.
  by rewrite IH by lia.
Qed.

Lemma append_sub_authorities_short (n i : nat) (s : string) :
  (0 < n)%nat → (length b < 8 + 4 * (i + n))%nat →
  append_sub_authorities b (seq i n) s = Raise StructError.
Proof.
  revert i s. induction n as [|n IH]; intros i s Hn H; [lia|]. simpl.
  destruct (Nat.lt_ge_cases (length b) (8 + i * 4 + 4)) as [Hs|Hs].
  - by rewrite unpack_I_le_short.
  - rewrite unpack_I_le_full by lia. unfold mbind, outcome_bind.
    apply IH; lia.
Qed.

Lemma sid_header_ok :
  (8 ≤ length b)%nat →
  ∃ revision authority,
    sid_header b = Ok (revision, declared_count b, authority)
    ∧ 0 ≤ revision ∧ 0 ≤ authority.
Proof.
  intros H. unfold sid_header, declared_count, Py.index.
  destruct b as [|b0 [|b1 r]]; simpl in H; try lia.
  simpl nth_error. unfold mbind, outcome_bind.
  unfold Py.unpack_Q_be.
  assert (length ([x00; x00] ++ Py.slice 2 8 (b0 :: b1 :: r)) = 8%nat) as ->.
  { rewrite length_app, slice_length. cbn [length]. cbn [length] in H. lia. }
  simpl Nat.eqb. cbv iota.
  eexists _, _. split; [reflexivity|]. split.
  - apply byte_val_range.
  - unfold Py.be_value. apply le_value_range.
Qed.

End SubAuthorities.

(** ** What the identifier mapper computes *)

Lemma last_map_seq {A} (f : nat → A) (n : nat) (d : A) :
  List.last (map f (seq 0 (S n))) d = f n.
Proof. rewrite seq_S, map_app. simpl. apply last_last. Qed.

(** [sid_to_uid] on a [bytes] object, case by case. *)
Lemma sid_to_uid_bytes (b : list byte) (base : Z) :
  sid_to_uid (SidBytes b) base =
  if (length b <? 12)%nat then Ok None
  else if (declared_count b =? 0)%nat then Ok None
  else if (8 + 4 * declared_count b <=? length b)%nat
       then Ok (Some (base + sub_authority_at b (declared_count b - 1)))
       else Ok None.
Proof.
  unfold sid_to_uid. destruct b as [|b0 r]; [reflexivity|].
  cbn [sid_falsy]. unfold sid_to_uid_try. cbn [is_sid_string sid_len].
  unfold mbind at 1, outcome_bind at 1.
  destruct (Nat.ltb_spec (length (b0 :: r)) 12) as [Hlen|Hlen]; [reflexivity|].
  cbn [sid_as_bytes]. unfold mbind at 1, outcome_bind at 1.
  destruct (sid_header_ok (b0 :: r)) as (rev & auth & Hh & _ & _); [lia|].
  rewrite Hh. unfold mbind at 1, outcome_bind at 1.
  set (n := declared_count (b0 :: r)).
  destruct (Nat.eqb_spec n 0) as [Hn|Hn].
  - rewrite Hn. reflexivity.
  - destruct (Nat.leb_spec (8 + 4 * n) (length (b0 :: r))) as [Hf|Hf].
    + rewrite read_sub_authorities_full by lia.
      unfold mbind, outcome_bind. cbn [app].
      destruct n as [|m]; [done|].
      rewrite length_map, length_seq. cbn [Nat.eqb].
      rewrite last_map_seq. cbn [try_except_all].
      by replace (S m - 1)%nat with m by lia.
    + rewrite read_sub_authorities_short by lia. reflexivity.
Qed.

(** [sid_to_uid] on an ['S-']-prefixed string, case by case. *)
Lemma sid_to_uid_text (s : string) (base : Z) :
  String.prefix "S-" s = true →
  sid_to_uid (SidStr s) base =
  if (8 <=? length (Py.split "-" s))%nat then
    match Py.int (List.last (Py.split "-" s) EmptyString) with
    | Ok rid => Ok (Some (base + rid))
    | Raise _ => Ok None
    end
  else Ok None.
Proof.
  intros Hp. unfold sid_to_uid.
  destruct s as [|c s']; [discriminate Hp|].
  cbn [sid_falsy]. unfold sid_to_uid_try. cbn [is_sid_string]. rewrite Hp.
  destruct (8 <=? length (Py.split "-" (String c s')))%nat; [|reflexivity].
  unfold mbind, outcome_bind.
  by destruct (Py.int _).
Qed.

(** C1. For every valid identifier — an ['S-']-prefixed text with at
    least 8 dash-separated components whose last component is an integer,
    or a buffer of at least 12 bytes that holds its declared sub-authorities,
    at least one — and every base, [sid_to_uid] returns the base plus the
    RID, the RID being the last component or the last sub-authority. *)
Theorem sid_to_uid_valid (v : sid_value) (base rid : Z) :
  spec_rid v = Some rid →
  sid_to_uid v base = Ok (Some (base + rid)).
Proof.
  destruct v as [|s|b]; cbn [spec_rid]; intros H.
  - discriminate.
  - destruct (String.prefix "S-" s) eqn:Hp; [|discriminate].
    rewrite sid_to_uid_text by done.
    destruct (8 <=? length (Py.split "-" s))%nat; [|discriminate].
    cbn [andb] in H. destruct (Py.int _); by inversion H.
  - rewrite sid_to_uid_bytes.
    destruct (Nat.leb_spec 12 (length b)) as [H12|]; [|discriminate].
    destruct (Nat.leb_spec 1 (declared_count b)) as [H1|]; [|discriminate].
    destruct (Nat.leb_spec (8 + 4 * declared_count b) (length b)) as [Hf|];
      [|discriminate].
    cbn [andb] in H. inversion H; subst rid.
    destruct (Nat.ltb_spec (length b) 12); [lia|].
    destruct (Nat.eqb_spec (declared_count b) 0); [lia|]. reflexivity.
Qed.

(** The example of the specification: SID S-1-5-21-1-2-3-1105 with base
    1668600000 maps to 1668601105. *)
Lemma sid_to_uid_valid_witness :
  sid_to_uid (SidStr "S-1-5-21-1-2-3-1105") 1668600000 = Ok (Some 1668601105).
Proof.
  apply (sid_to_uid_valid (SidStr "S-1-5-21-1-2-3-1105") 1668600000 1105).
  reflexivity.
Defined.

(** C4, as amended. A malformed identifier — a text with fewer than 8
    components or with a RID component, the last one, that is not an
    integer, a buffer shorter than 12 bytes or shorter than its declared
    sub-authorities need — makes [sid_to_uid] return [None], for every
    base; it returns and does not raise. *)
Theorem sid_to_uid_malformed (v : sid_value) (base : Z) :
  malformed v = true →
  sid_to_uid v base = Ok None.
Proof.
  destruct v as [|s|b]; cbn [malformed]; intros H.
  - discriminate.
  - apply andb_true_iff in H as [Hp H]. rewrite sid_to_uid_text by done.
    destruct (Nat.leb_spec 8 (length (Py.split "-" s))) as [H8|H8];
      [|reflexivity].
    destruct (Nat.ltb_spec (length (Py.split "-" s)) 8); [lia|].
    cbn [orb] in H. by destruct (Py.int _).
  - rewrite sid_to_uid_bytes.
    destruct (Nat.ltb_spec (length b) 12) as [|H12]; [reflexivity|].
    cbn [orb] in H. apply Nat.ltb_lt in H.
    destruct (Nat.eqb_spec (declared_count b) 0); [reflexivity|].
    destruct (Nat.leb_spec (8 + 4 * declared_count b) (length b)); [lia|].
    reflexivity.
Qed.

Lemma sid_to_uid_malformed_witness :
  sid_to_uid (SidStr "S-1-5-21-1-2-3-abc") 200000 = Ok None
  ∧ sid_to_uid (SidStr "S-1-5-32-544") 200000 = Ok None
  ∧ sid_to_uid (SidBytes [x01; x05; x00; x00; x00; x00; x00; x05]) 200000
    = Ok None
  ∧ sid_to_uid
      (SidBytes [x01; x02; x00; x00; x00; x00; x00; x05;
                 x15; x00; x00; x00; x51; x04]) 200000 = Ok None.
Proof.
  split; [|split; [|split]]; apply sid_to_uid_malformed; reflexivity.
Defined.

(** The identifiers of the amended statement are among those the
    specification lists. *)
Lemma last_in_tail {A} (l : list A) (d : A) :
  (2 ≤ length l)%nat → In (List.last l d) (tail l).
Proof.
  destruct l as [|a l]; cbn [length tail]; [lia|]. intros H.
  assert (l ≠ []) as Hne by (destruct l; [cbn in H; lia | done]).
  clear H. revert a. induction l as [|b l IH]; [done|]. intros a.
  destruct l as [|c l]; [by left|].
  right. apply (IH ltac:(done) b).
Qed.

Lemma malformed_as_stated_of_malformed (v : sid_value) :
  malformed v = true → malformed_as_stated v = true.
Proof.
  destruct v as [|s|b]; cbn [malformed malformed_as_stated]; [done| |done].
  intros [Hp H]%andb_true_iff. rewrite Hp. cbn [andb].
  destruct (Nat.ltb_spec (length (Py.split "-" s)) 8) as [|H8]; [done|].
  cbn [orb] in H |- *. apply existsb_exists.
  exists (List.last (Py.split "-" s) EmptyString). split.
  - apply last_in_tail. lia.
  - unfold unparsable. by destruct (Py.int _).
Qed.

(** C4 fails as stated: the text "S-1-5-21-abc-2-3-1105" has a component
    that is not an integer, but only the last component is read as one,
    and the result is the base plus 1105. *)
Lemma sid_to_uid_malformed_counterexample :
  malformed_as_stated (SidStr "S-1-5-21-abc-2-3-1105") = true
  ∧ unparsable "abc" = true
  ∧ malformed (SidStr "S-1-5-21-abc-2-3-1105") = false
  ∧ sid_to_uid (SidStr "S-1-5-21-abc-2-3-1105") 1668600000
    = Ok (Some 1668601105).
Proof. repeat split; vm_compute; reflexivity. Qed.

(** C10. A buffer of at least 12 bytes that declares no sub-authority
    makes [sid_to_uid] return [None], for every base. *)
Theorem sid_to_uid_no_sub_authority (b : list byte) (base : Z) :
  (12 ≤ length b)%nat →
  nth_error b 1 = Some x00 →
  sid_to_uid (SidBytes b) base = Ok None.
Proof.
  intros H12 H1. rewrite sid_to_uid_bytes.
  destruct (Nat.ltb_spec (length b) 12); [lia|].
  unfold declared_count. rewrite H1. reflexivity.
Qed.

Lemma sid_to_uid_no_sub_authority_witness :
  sid_to_uid
    (SidBytes [x01; x00; x00; x00; x00; x00; x00; x05;
               x15; x00; x00; x00]) 200000 = Ok None.
Proof.
  apply sid_to_uid_no_sub_authority; [simpl; lia | reflexivity].
Defined.

(** ** Decimal rendering and parsing *)

Section Decimal.

Local Open Scope N_scope.

Lemma pos_size_nat_gt (p : positive) : Npos p < 2 ^ N.of_nat (Pos.size_nat p).
Proof.
  induction p as [p IH|p IH|]; cbn [Pos.size_nat].
  - rewrite Nat2N.inj_succ, N.pow_succ_r'. lia.
  - rewrite Nat2N.inj_succ, N.pow_succ_r'. lia.
  - reflexivity.
Qed.

Lemma size_nat_gt (n : N) : n < 2 ^ N.of_nat (S (N.size_nat n)).
Proof.
  destruct n as [|p]; [reflexivity|].
  cbn [N.size_nat]. rewrite Nat2N.inj_succ, N.pow_succ_r'.
  pose proof (pos_size_nat_gt p). lia.
Qed.

Lemma digits_of_spec (fuel : nat) (n : N) :
  (0 < fuel)%nat →
  n < 2 ^ N.of_nat fuel →
  Forall (λ d, d < 10) (Py.digits_of fuel n)
  ∧ Py.digits_of fuel n ≠ []
  ∧ (length (Py.digits_of fuel n) ≤ fuel)%nat
  ∧ digits_value (Py.digits_of fuel n) 0 = n.
Proof.
  revert n. induction fuel as [|f IH]; intros n Hf Hn.
  - lia.
  - cbn [Py.digits_of]. destruct (N.ltb_spec n 10) as [Hlt|Hge].
    + split; [constructor; [exact Hlt | constructor]|].
      split; [done|]. split; [simpl; lia|].
      unfold digits_value. simpl. lia.
    + assert (n / 10 < 2 ^ N.of_nat f) as Hdiv.
      { rewrite Nat2N.inj_succ, N.pow_succ_r' in Hn.
        apply N.Div0.div_lt_upper_bound. lia. }
      assert (0 < f)%nat as Hf'.
      { destruct f; [simpl in Hn; lia | lia]. }
      destruct (IH _ Hf' Hdiv) as (Hall & Hne & Hlen & Hval).
      split; [|split; [|split]].
      * apply Forall_app. split; [done|]. constructor; [|constructor].
        apply N.mod_upper_bound. lia.
      * intros Heq. apply app_eq_nil in Heq as [_ Heq]. discriminate.
      * rewrite length_app. simpl. lia.
      * unfold digits_value in *. rewrite fold_left_app. simpl.
        rewrite Hval. pose proof (N.div_mod n 10). lia.
Qed.

Lemma digit_cases (d : N) :
  d < 10 →
  d = 0 ∨ d = 1 ∨ d = 2 ∨ d = 3 ∨ d = 4 ∨ d = 5 ∨ d = 6 ∨ d = 7 ∨ d = 8 ∨ d = 9.
Proof. lia. Qed.

Ltac each_digit H :=
  apply digit_cases in H;
  repeat (destruct H as [H|H]; [subst|]); try subst.

Lemma digit_value_char (d : N) :
  d < 10 → Py.digit_value (Py.digit_char d) = Some d.
Proof. intros H. each_digit H; reflexivity. Qed.

Lemma digit_char_not_underscore (d : N) :
  d < 10 → Ascii.eqb (Py.digit_char d) "_" = false.
Proof. intros H. each_digit H; reflexivity. Qed.

Lemma digit_char_not_dash (d : N) :
  d < 10 → Ascii.eqb (Py.digit_char d) "-" = false.
Proof. intros H. each_digit H; reflexivity. Qed.

Lemma digit_char_not_space (d : N) :
  d < 10 → Py.is_space (Py.digit_char d) = false.
Proof. intros H. each_digit H; reflexivity. Qed.

Lemma scan_digits_string (ds : list N) (p : Py.prev_char) (acc : N) (nd : nat) :
  Forall (λ d, d < 10) ds →
  ds ≠ [] ∨ p = Py.AfterDigit →
  Py.scan_digits (digits_string ds) p acc nd
  = Some (digits_value ds acc, (nd + length ds)%nat, EmptyString).
Proof.
  revert p acc nd. induction ds as [|d r IH]; intros p acc nd Hall Hp.
  - destruct Hp as [Hp | Hp]; [done | subst p]. simpl. by rewrite Nat.add_0_r.
  - inversion Hall as [|? ? Hd Hr]; subst.
    unfold digits_string. cbn [map string_of_list_ascii Py.scan_digits].
    rewrite digit_char_not_underscore, digit_value_char by done.
    fold (digits_string r). rewrite IH by auto.
    cbn [length]. unfold digits_value. simpl. do 3 f_equal. lia.
Qed.

Lemma int_digits_string (ds : list N) :
  Forall (λ d, d < 10) ds → ds ≠ [] →
  (length ds ≤ Py.int_max_str_digits)%nat →
  Py.int (digits_string ds) = Ok (Z.of_N (digits_value ds 0)).
Proof.
  intros Hall Hne Hlen. unfold Py.int.
  destruct ds as [|d r]; [done|].
  assert (Py.lstrip (digits_string (d :: r)) = digits_string (d :: r)) as ->.
  { unfold digits_string. cbn [map string_of_list_ascii Py.lstrip].
    inversion Hall; subst. by rewrite digit_char_not_space. }
  assert (match digits_string (d :: r) with
          | String "+" r' => (false, r')
          | String "-" r' => (true, r')
          | _ => (false, digits_string (d :: r))
          end = (false, digits_string (d :: r))) as ->.
  { unfold digits_string. cbn [map string_of_list_ascii].
    inversion Hall as [|? ? Hd Hr]; subst. each_digit Hd; reflexivity. }
  rewrite scan_digits_string by auto.
  destruct (Nat.ltb_spec Py.int_max_str_digits (0 + length (d :: r)));
    [simpl in *; lia|].
  reflexivity.
Qed.

Lemma str_of_N_digits (n : N) :
  Py.str_of_N n = digits_string (Py.digits_of (S (N.size_nat n)) n).
Proof. reflexivity. Qed.

End Decimal.

Lemma int_str_of_Z (z : Z) :
  0 ≤ z < 2 ^ 4299 →
  Py.int (Py.str_of_Z z) = Ok z.
Proof.
  intros Hz.
  assert (Py.str_of_Z z = Py.str_of_N (Z.to_N z)) as ->.
  { destruct z; try reflexivity. lia. }
  rewrite str_of_N_digits.
  destruct (digits_of_spec (S (N.size_nat (Z.to_N z))) (Z.to_N z)
              ltac:(lia) (size_nat_gt _)) as (Hall & Hne & Hlen & Hval).
  rewrite int_digits_string; [rewrite Hval; f_equal; lia | done | done |].
  etrans; [exact Hlen|]. unfold Py.int_max_str_digits.
  assert (N.size_nat (Z.to_N z) ≤ 4299)%nat; [|lia].
  destruct (Z.to_N z) as [|p] eqn:Hp; [simpl; lia|]. cbn [N.size_nat].
  destruct (Nat.le_gt_cases (Pos.size_nat p) 4299) as [|Hgt]; [done|].
  exfalso.
  assert (2 ^ 4299 ≤ Z.pos p); [|lia].
  clear -Hgt.
  assert (∀ q k, (k < Pos.size_nat q)%nat → 2 ^ Z.of_nat k ≤ Z.pos q) as Hsz.
  { induction q as [q IH|q IH|]; intros k Hk; cbn [Pos.size_nat] in Hk.
    - destruct k as [|k]; [simpl; lia|].
      rewrite Nat2Z.inj_succ, Z.pow_succ_r by lia.
      specialize (IH k ltac:(lia)). lia.
    - destruct k as [|k]; [simpl; lia|].
      rewrite Nat2Z.inj_succ, Z.pow_succ_r by lia.
      specialize (IH k ltac:(lia)). lia.
    - assert (k = 0)%nat as -> by lia. simpl. lia. }
  specialize (Hsz p 4299%nat Hgt).
  exact Hsz.
Qed.

(** ** Splitting the canonical text of a SID *)

Lemma str_app_cons (x : ascii) (a b : string) :
  String x a ++ b = String x (a ++ b).
Proof. reflexivity. Qed.

Lemma str_app_nil (b : string) : "" ++ b = b.
Proof. reflexivity. Qed.

Lemma str_app_assoc (a b c : string) : (a ++ b) ++ c = a ++ (b ++ c).
Proof.
  induction a as [|x a IH]; [done|]. by rewrite !str_app_cons, IH.
Qed.

Lemma split_no_dash (s : string) : no_dash s = true → Py.split "-" s = [s].
Proof.
  induction s as [|c r IH]; [done|]. cbn [no_dash Py.split].
  intros [Hc Hr]%andb_true_iff. apply negb_true_iff in Hc.
  rewrite Hc, IH by done. reflexivity.
Qed.

Lemma split_nonempty (s : string) : Py.split "-" s ≠ [].
Proof.
  induction s as [|c r IH]; [done|]. cbn [Py.split].
  destruct (Ascii.eqb c "-"); [done|]. by destruct (Py.split "-" r).
Qed.

Lemma split_snoc (u x : string) :
  no_dash x = true →
  Py.split "-" (u ++ String "-" x) = (Py.split "-" u ++ [x])%list.
Proof.
  intros Hx. induction u as [|c u IH].
  - rewrite str_app_nil. cbn [Py.split Ascii.eqb Bool.eqb].
    by rewrite split_no_dash.
  - rewrite str_app_cons. cbn [Py.split]. rewrite IH.
    destruct (Ascii.eqb c "-"); [done|].
    pose proof (split_nonempty u). by destruct (Py.split "-" u).
Qed.

Lemma prefix_app (p a b : string) :
  String.prefix p a = true → String.prefix p (a ++ b) = true.
Proof.
  revert a. induction p as [|c p IH]; intros a H.
  - by destruct (a ++ b).
  - destruct a as [|x a]; [discriminate H|]. rewrite str_app_cons.
    cbn [String.prefix] in *.
    destruct (ascii_dec c x); [auto | discriminate H].
Qed.

Lemma no_dash_digits (ds : list N) :
  Forall (λ d, (d < 10)%N) ds → no_dash (digits_string ds) = true.
Proof.
  induction 1 as [|d r Hd Hr IH]; [done|].
  unfold digits_string. cbn [map string_of_list_ascii no_dash].
  rewrite digit_char_not_dash by done. exact IH.
Qed.

Lemma no_dash_str_of_Z (z : Z) : 0 ≤ z → no_dash (Py.str_of_Z z) = true.
Proof.
  intros Hz.
  assert (Py.str_of_Z z = Py.str_of_N (Z.to_N z)) as ->.
  { destruct z; try reflexivity. lia. }
  rewrite str_of_N_digits. apply no_dash_digits.
  apply (digits_of_spec _ _ (Nat.lt_0_succ _) (size_nat_gt _)).
Qed.

Lemma sub_authority_at_range (b : list byte) (j : nat) :
  0 ≤ sub_authority_at b j < 2 ^ 32.
Proof.
  unfold sub_authority_at.
  pose proof (le_value_range (Py.slice (8 + j * 4) (8 + j * 4 + 4) b)) as H.
  rewrite slice_length in H.
  assert (256 ^ Z.of_nat (Nat.min (8 + j * 4 + 4 - (8 + j * 4))
                            (length b - (8 + j * 4))) ≤ 256 ^ 4).
  { apply Z.pow_le_mono_r; lia. }
  change (2 ^ 32) with (256 ^ 4). lia.
Qed.

Lemma prefix_S_dash (x : string) : String.prefix "S-" ("S-" ++ x) = true.
Proof.
  change ("S-" ++ x) with (String "S" (String "-" x)).
  cbn [String.prefix].
  destruct (ascii_dec "S" "S") as [_|Hn]; [|by elim Hn].
  destruct (ascii_dec "-" "-") as [_|Hn]; [by destruct x | by elim Hn].
Qed.

Lemma sid_text_prefix (b : list byte) (n : nat) (head : string) :
  String.prefix "S-" head = true →
  String.prefix "S-" (sid_text b n head) = true.
Proof.
  intros H. unfold sid_text. induction n as [|n IH]; [done|].
  rewrite seq_S, fold_left_app. cbn [fold_left]. by apply prefix_app.
Qed.

Lemma sid_text_split (b : list byte) (n : nat) (head : string) :
  Py.split "-" (sid_text b n head)
  = (Py.split "-" head
     ++ map (λ j, Py.str_of_Z (sub_authority_at b j)) (seq 0 n))%list.
Proof.
  unfold sid_text. induction n as [|n IH]; [by rewrite app_nil_r|].
  rewrite seq_S, fold_left_app, map_app.
  set (t := fold_left _ (seq 0 n) head) in *.
  cbn [fold_left map Nat.add].
  change (t ++ "-" ++ ?x) with (t ++ String "-" x).
  rewrite split_snoc by (apply no_dash_str_of_Z, sub_authority_at_range).
  by rewrite IH, <- app_assoc.
Qed.

Lemma sid_head_split (revision authority : Z) :
  0 ≤ revision → 0 ≤ authority →
  Py.split "-" ("S-" ++ Py.str_of_Z revision ++ "-" ++ Py.str_of_Z authority)
  = ["S"; Py.str_of_Z revision; Py.str_of_Z authority].
Proof.
  intros Hr Ha.
  transitivity
    (Py.split "-" (("S" ++ String "-" (Py.str_of_Z revision))
                   ++ String "-" (Py.str_of_Z authority))).
  { reflexivity. }
  rewrite split_snoc by by apply no_dash_str_of_Z.
  rewrite split_snoc by by apply no_dash_str_of_Z.
  reflexivity.
Qed.

(** [sid_to_string] on a [bytes] object, case by case. *)
Lemma sid_to_string_bytes (b : list byte) :
  sid_to_string (SidBytes b) = Ok None
  ∧ ((length b < 12)%nat ∨ (length b < 8 + 4 * declared_count b)%nat)
  ∨ (12 ≤ length b)%nat ∧ (8 + 4 * declared_count b ≤ length b)%nat
    ∧ ∃ revision authority,
        0 ≤ revision ∧ 0 ≤ authority
        ∧ sid_to_string (SidBytes b)
          = Ok (Some (sid_text b (declared_count b)
                        ("S-" ++ Py.str_of_Z revision ++ "-"
                         ++ Py.str_of_Z authority))).
Proof.
  unfold sid_to_string. destruct b as [|b0 r].
  { left. split; [reflexivity | left; simpl; lia]. }
  cbn [sid_falsy is_sid_string]. unfold sid_to_string_try.
  unfold mbind, outcome_bind. cbn [sid_len sid_as_bytes].
  destruct (Nat.ltb_spec (length (b0 :: r)) 12) as [Hlen|Hlen].
  { left. split; [reflexivity | by left]. }
  destruct (sid_header_ok (b0 :: r)) as (rev & auth & Hh & Hrev & Hauth); [lia|].
  rewrite Hh. cbv beta iota zeta.
  set (n := declared_count (b0 :: r)).
  destruct (Nat.le_gt_cases (8 + 4 * n) (length (b0 :: r))) as [Hf|Hf].
  - right. split; [done|]. split; [done|]. exists rev, auth.
    split; [done|]. split; [done|].
    rewrite append_sub_authorities_full by lia. reflexivity.
  - left. split; [|by right].
    rewrite append_sub_authorities_short by lia. reflexivity.
Qed.

(** C5, as amended.  For every buffer that declares at least five
    sub-authorities, converting it with [sid_to_string] and deriving the
    identity from the result gives what [sid_to_uid] gives on the buffer
    itself: base plus the last sub-authority when the buffer is well
    formed, [None] on both paths when it is not. *)
Theorem sid_round_trip_five (b : list byte) (base : Z) :
  (5 ≤ declared_count b)%nat →
  ∃ r, sid_to_string (SidBytes b) = Ok r
       ∧ sid_to_uid (sid_of_result r) base = sid_to_uid (SidBytes b) base.
Proof.
  intros H5. rewrite sid_to_uid_bytes.
  destruct (sid_to_string_bytes b)
    as [[Hs Hbad] | (H12 & Hfull & rev & auth & Hrev & Hauth & Hs)].
  - exists None. split; [done|]. cbn [sid_of_result].
    destruct (Nat.ltb_spec (length b) 12); [reflexivity|].
    destruct (Nat.eqb_spec (declared_count b) 0); [reflexivity|].
    destruct (Nat.leb_spec (8 + 4 * declared_count b) (length b)); [lia|].
    reflexivity.
  - eexists. split; [exact Hs|]. cbn [sid_of_result].
    destruct (Nat.ltb_spec (length b) 12); [lia|].
    destruct (Nat.eqb_spec (declared_count b) 0); [lia|].
    destruct (Nat.leb_spec (8 + 4 * declared_count b) (length b)); [|lia].
    rewrite sid_to_uid_text by (apply sid_text_prefix, prefix_S_dash).
    rewrite sid_text_split, sid_head_split by done.
    destruct (declared_count b) as [|m] eqn:Hn; [lia|].
    rewrite length_app, length_map, length_seq. cbn [length].
    destruct (Nat.leb_spec 8 (3 + S m)); [|lia].
    rewrite seq_S, map_app, app_assoc. cbn [map Nat.add].
    rewrite last_last.
    rewrite int_str_of_Z.
    + by replace (S m - 1)%nat with m by lia.
    + pose proof (sub_authority_at_range b m) as Hr.
      assert (2 ^ 32 ≤ 2 ^ 4299) by (apply Z.pow_le_mono_r; lia). lia.
Qed.

Lemma sid_round_trip_five_witness :
  ∃ r, sid_to_string (SidBytes sid_1105) = Ok r
       ∧ sid_to_uid (sid_of_result r) 1668600000
         = sid_to_uid (SidBytes sid_1105) 1668600000.
Proof.
  apply (sid_round_trip_five sid_1105 1668600000).
  unfold declared_count, sid_1105. simpl. lia.
Defined.

(** C5 fails as stated: the buffer of S-1-5-32-544 is well formed and maps
    to base + 544, but its text has five components and maps to [None]. *)
Lemma sid_round_trip_counterexample :
  spec_rid (SidBytes sid_builtin_admins) = Some 544
  ∧ sid_to_string (SidBytes sid_builtin_admins) = Ok (Some "S-1-5-32-544")
  ∧ sid_to_uid (SidBytes sid_builtin_admins) 200000 = Ok (Some 200544)
  ∧ sid_to_uid (sid_of_result (Some "S-1-5-32-544")) 200000 = Ok None.
Proof. repeat split; vm_compute; reflexivity. Qed.

(** ** Reasoning about programs *)

Section Keeps.

Context (Q : directory → directory → Prop) `{!PreOrder Q}.
Context (P : ipa_call → Prop).

Lemma run_extends_refl (w : world) : run_extends Q P w w.
Proof.
  split; [reflexivity|]. exists []. by rewrite app_nil_r.
Qed.

Lemma run_extends_trans (w1 w2 w3 : world) :
  run_extends Q P w1 w2 → run_extends Q P w2 w3 → run_extends Q P w1 w3.
Proof.
  intros [HQ1 (cs1 & Hc1 & HP1)] [HQ2 (cs2 & Hc2 & HP2)].
  split; [by etrans|].
  exists (cs1 ++ cs2)%list. split; [by rewrite Hc2, Hc1, app_assoc|].
  by apply Forall_app.
Qed.

Lemma run_extends_same (w w' : world) :
  ipa w' = ipa w → calls w' = calls w → run_extends Q P w w'.
Proof.
  intros Hi Hc. split; [by rewrite Hi|]. exists []. by rewrite Hc, app_nil_r.
Qed.

Lemma keeps_ret {A} (a : A) : keeps Q P (mret a).
Proof. intros w. apply run_extends_refl. Qed.

Lemma keeps_raise {A} (e : pyexn) : keeps Q P (raise (A:=A) e).
Proof. intros w. apply run_extends_refl. Qed.

Lemma keeps_lift_prog {A} (r : outcome A) : keeps Q P (lift_prog r).
Proof. intros w. apply run_extends_refl. Qed.

Lemma keeps_bind {A B} (m : prog A) (k : A → prog B) :
  keeps Q P m → (∀ a, keeps Q P (k a)) → keeps Q P (m ≫= k).
Proof.
  intros Hm Hk w. unfold mbind, prog_bind. specialize (Hm w).
  destruct (m w) as [[a|e] w1]; [|exact Hm].
  eapply run_extends_trans; [exact Hm | apply Hk].
Qed.

Lemma keeps_try_except {A} (body : prog A) (handler : pyexn → option (prog A)) :
  keeps Q P body →
  (∀ e h, handler e = Some h → keeps Q P h) →
  keeps Q P (try_except body handler).
Proof.
  intros Hb Hh w. unfold try_except. specialize (Hb w).
  destruct (body w) as [[a|e] w1]; [exact Hb|].
  destruct (handler e) as [h|] eqn:He; [|exact Hb].
  eapply run_extends_trans; [exact Hb | by eapply Hh].
Qed.

Lemma keeps_try_finally {A} (body : prog A) (final : prog unit) :
  keeps Q P body → keeps Q P final → keeps Q P (try_finally body final).
Proof.
  intros Hb Hf w. unfold try_finally. specialize (Hb w).
  destruct (body w) as [r w1]. specialize (Hf w1).
  destruct (final w1) as [[[]|e] w2];
    eapply run_extends_trans; eauto.
Qed.

Lemma keeps_for_each {X} (l : list X) (body : X → prog unit) :
  (∀ x, keeps Q P (body x)) → keeps Q P (for_each l body).
Proof.
  intros Hb. induction l as [|x l IH]; [apply keeps_ret|].
  cbn [for_each]. apply keeps_bind; [apply Hb | intros _; exact IH].
Qed.

Lemma keeps_when (b : bool) (m : prog unit) :
  keeps Q P m → keeps Q P (when b m).
Proof. intros Hm. destruct b; [exact Hm | apply keeps_ret]. Qed.

Lemma keeps_logger (e : log_event) : keeps Q P (logger e).
Proof. intros w. by apply run_extends_same. Qed.

Lemma keeps_incr (k : stat_key) : keeps Q P (incr k).
Proof. intros w. by apply run_extends_same. Qed.

Lemma keeps_get_stats : keeps Q P get_stats.
Proof. intros w. apply run_extends_refl. Qed.

Lemma keeps_invoke (tgt : target) {A} (c : ipa_call)
  (sem : directory → outcome A * directory) :
  P c → (∀ d, Q d (snd (sem d))) → keeps Q P (invoke tgt c sem).
Proof.
  intros Hc Hsem w. unfold invoke.
  destruct (ipa_rejects tgt (ipa w) c).
  - split; [reflexivity|]. exists [c]. split; [done|]. by constructor.
  - specialize (Hsem (ipa w)). destruct (sem (ipa w)) as [r d].
    split; [exact Hsem|]. exists [c]. split; [done|]. by constructor.
Qed.

End Keeps.

(** ** The target only grows *)

Global Instance memberships_kept_preorder : PreOrder memberships_kept.
Proof.
  split.
  - intros d cn g H. exists g. by split.
  - intros d1 d2 d3 H12 H23 cn g H.
    destruct (H12 _ _ H) as (g2 & H2 & Hu2 & Hg2).
    destruct (H23 _ _ H2) as (g3 & H3 & Hu3 & Hg3).
    exists g3. split; [done|]. split; set_solver.
Qed.

Lemma memberships_kept_same_groups (d d' : directory) :
  groups d' = groups d → memberships_kept d d'.
Proof. intros Hg cn g H. exists g. rewrite Hg. by split. Qed.

Section TargetSteps.

Variable d : directory.

Lemma do_user_show_kept uid : memberships_kept d (snd (Ipa.do_user_show uid d)).
Proof. unfold Ipa.do_user_show. by destruct (users d !! uid). Qed.

Lemma do_user_add_kept uid gn sn cn params :
  memberships_kept d (snd (Ipa.do_user_add uid gn sn cn params d)).
Proof.
  unfold Ipa.do_user_add. destruct uid; try done.
  destruct (users d !! s); [done|]. by apply memberships_kept_same_groups.
Qed.

Lemma do_user_mod_kept uid params :
  memberships_kept d (snd (Ipa.do_user_mod uid params d)).
Proof.
  unfold Ipa.do_user_mod.
  destruct (users d !! uid); [|done]. by apply memberships_kept_same_groups.
Qed.

Lemma do_user_lock_kept b uid :
  memberships_kept d (snd (Ipa.do_user_lock b uid d)).
Proof.
  unfold Ipa.do_user_lock.
  destruct (users d !! uid); [|done]. by apply memberships_kept_same_groups.
Qed.

Lemma do_group_show_kept cn : memberships_kept d (snd (Ipa.do_group_show cn d)).
Proof. unfold Ipa.do_group_show. by destruct (groups d !! cn). Qed.

Lemma do_group_add_kept cn params :
  memberships_kept d (snd (Ipa.do_group_add cn params d)).
Proof.
  unfold Ipa.do_group_add. destruct (groups d !! cn) as [g0|] eqn:Hcn; [done|].
  intros cn' g H. exists g. split; [|done]. cbn.
  rewrite lookup_insert_ne; [done|]. intros ->. congruence.
Qed.

Lemma do_group_add_member_user_kept cn user :
  memberships_kept d (snd (Ipa.do_group_add_member_user cn user d)).
Proof.
  unfold Ipa.do_group_add_member_user.
  destruct (groups d !! cn) as [g0|] eqn:Hcn; [|done].
  destruct (users d !! user) as [u0|]; [|done].
  intros cn' g H. cbn. destruct (decide (cn = cn')) as [Heq|Hne]; [subst cn'|].
  - rewrite lookup_insert_eq. eexists. split; [done|].
    assert (g = g0) as -> by congruence. cbn. split; set_solver.
  - rewrite lookup_insert_ne by done. exists g. by split.
Qed.

Lemma do_group_add_member_group_kept cn group :
  memberships_kept d (snd (Ipa.do_group_add_member_group cn group d)).
Proof.
  unfold Ipa.do_group_add_member_group.
  destruct (groups d !! cn) as [g0|] eqn:Hcn; [|done].
  destruct (groups d !! group) as [g1|]; [|done].
  intros cn' g H. cbn. destruct (decide (cn = cn')) as [Heq|Hne]; [subst cn'|].
  - rewrite lookup_insert_eq. eexists. split; [done|].
    assert (g = g0) as -> by congruence. cbn. split; set_solver.
  - rewrite lookup_insert_ne by done. exists g. by split.
Qed.

Lemma do_idrange_show_kept name :
  memberships_kept d (snd (Ipa.do_idrange_show name d)).
Proof. unfold Ipa.do_idrange_show. by case_bool_decide. Qed.

Lemma do_idrange_add_kept name :
  memberships_kept d (snd (Ipa.do_idrange_add name d)).
Proof.
  unfold Ipa.do_idrange_add. case_bool_decide; [done|].
  by apply memberships_kept_same_groups.
Qed.

End TargetSteps.

Lemma do_user_show_same d uid : d = snd (Ipa.do_user_show uid d).
Proof. unfold Ipa.do_user_show. by destruct (users d !! uid). Qed.

Lemma do_group_show_same d cn : d = snd (Ipa.do_group_show cn d).
Proof. unfold Ipa.do_group_show. by destruct (groups d !! cn). Qed.

Create HintDb target_step discriminated.
#[export] Hint Resolve do_user_show_kept do_user_add_kept do_user_mod_kept
  do_user_lock_kept do_group_show_kept do_group_add_kept
  do_group_add_member_user_kept do_group_add_member_group_kept
  do_idrange_show_kept do_idrange_add_kept
  do_user_show_same do_group_show_same : target_step.

(** One structural step of a proof that a program [keeps] a frame. *)
Ltac keeps_step :=
  match goal with
  | |- PreOrder _ => exact _
  | |- ∀ e h, _ = Some h → keeps _ _ h =>
      let e := fresh "e" in let h := fresh "h" in let Hh := fresh "Hh" in
      intros e h Hh; destruct e; inversion Hh; subst h; clear Hh
  | |- ∀ d : directory, _ => intros ?; solve [auto with target_step]
  | |- ∀ _, keeps _ _ _ => intros ?
  | |- keeps _ _ (mret _) => apply keeps_ret
  | |- keeps _ _ (raise _) => apply keeps_raise
  | |- keeps _ _ (lift_prog _) => apply keeps_lift_prog
  | |- keeps _ _ (logger _) => apply keeps_logger
  | |- keeps _ _ (incr _) => apply keeps_incr
  | |- keeps _ _ get_stats => apply keeps_get_stats
  | |- keeps _ _ (when _ _) => apply keeps_when
  | |- keeps _ _ (for_each _ _) => apply keeps_for_each
  | |- keeps _ _ (try_finally _ _) => apply keeps_try_finally
  | |- keeps _ _ (try_except _ _) => apply keeps_try_except
  | |- keeps _ _ (invoke _ _ _) => apply keeps_invoke
  | |- keeps _ _ (_ ≫= _) => apply keeps_bind
  | |- keeps ?Q ?P (if true then ?a else _) => change (keeps Q P a)
  | |- keeps _ _ (if ?b then _ else _) => destruct b
  | |- keeps _ _ (match ?x with _ => _ end) => destruct x
  | |- True => exact I
  | |- is_membership_call _ => exact I
  | |- is_lookup _ = true => reflexivity
  | |- ?P ?c =>
      match type of c with ipa_call => first [exact I | reflexivity] end
  end.

Ltac keeps_prog := repeat keeps_step.

Section KeepsSync.

Context (Q : directory → directory → Prop) `{!PreOrder Q}.
Context (P : ipa_call → Prop).
Variables (cfg : config) (ad : source) (tgt : target).

Lemma keeps_map_user_attributes ad_user :
  keeps Q P (map_user_attributes cfg ad_user).
Proof. unfold map_user_attributes. keeps_prog. Qed.

Lemma keeps_search_member member_dn : keeps Q P (search_member ad member_dn).
Proof. intros w. by apply run_extends_same. Qed.

Lemma keeps_resolve_member names member_dn :
  keeps Q P (resolve_member ad names member_dn).
Proof.
  unfold resolve_member. destruct names as [us gs].
  apply keeps_try_except; [exact _ | |].
  - apply keeps_bind; [exact _ | apply keeps_search_member | intros entries].
    keeps_prog.
  - intros e h [= <-]. keeps_prog.
Qed.

Lemma keeps_resolve_members members names :
  keeps Q P (resolve_members ad members names).
Proof.
  revert names. induction members as [|m r IH]; intros names; cbn [resolve_members].
  - keeps_prog.
  - apply keeps_bind; [exact _ | apply keeps_resolve_member | intros ?; apply IH].
Qed.

Lemma keeps_get_ad_users : keeps Q P (get_ad_users ad).
Proof. unfold get_ad_users. keeps_prog. Qed.

Lemma keeps_get_ad_groups : keeps Q P (get_ad_groups ad).
Proof. unfold get_ad_groups. keeps_prog. Qed.

Lemma keeps_connect_ad : keeps Q P (connect_ad ad).
Proof. unfold connect_ad. keeps_prog. Qed.

Lemma keeps_connect_ipa : keeps Q P (connect_ipa tgt).
Proof. unfold connect_ipa. keeps_prog. Qed.

End KeepsSync.

(** ** Every run keeps the memberships of the target *)

Section KeptSync.

Variables (cfg : config) (ad : source) (tgt : target) (order : set_order).

Lemma kept_sync_user dry_run force ad_user :
  keeps memberships_kept any_call (sync_user cfg tgt dry_run force ad_user).
Proof.
  unfold sync_user.
  destruct (sAMAccountName ad_user) as [username|]; [|keeps_prog].
  destruct (_ || _); [keeps_prog|].
  apply keeps_bind; [exact _ | apply keeps_map_user_attributes; exact _ |].
  intros ipa_user.
  unfold sync_user_handlers, sync_existing_user, create_user, ipa_user_show,
    ipa_user_mod, ipa_user_disable, ipa_user_enable, ipa_user_add.
  keeps_prog.
Qed.

Lemma kept_sync_users dry_run force :
  keeps memberships_kept any_call (sync_users cfg ad tgt dry_run force).
Proof.
  unfold sync_users.
  apply keeps_bind; [exact _ | keeps_prog | intros _].
  apply keeps_bind; [exact _ | apply keeps_get_ad_users; exact _ | intros users].
  apply keeps_for_each; [exact _ | intros ad_user; apply kept_sync_user].
Qed.

Lemma kept_sync_group dry_run force ad_group :
  keeps memberships_kept any_call (sync_group cfg tgt dry_run force ad_group).
Proof.
  unfold sync_group, reconcile_group, ipa_group_show, ipa_group_add.
  keeps_prog.
Qed.

Lemma kept_sync_groups dry_run force :
  keeps memberships_kept any_call (sync_groups cfg ad tgt dry_run force).
Proof.
  unfold sync_groups.
  apply keeps_bind; [exact _ | keeps_prog | intros _].
  apply keeps_bind; [exact _ | apply keeps_get_ad_groups; exact _ | intros gs].
  apply keeps_for_each; [exact _ | intros ad_group; apply kept_sync_group].
Qed.

Lemma kept_sync_membership dry_run ad_group :
  keeps memberships_kept is_membership_call
        (sync_membership cfg ad tgt order dry_run ad_group).
Proof.
  unfold sync_membership.
  destruct (sAMAccountName ad_group) as [groupname|]; [|keeps_prog].
  destruct (_ || _); [keeps_prog|].
  apply keeps_bind; [exact _ | keeps_prog | intros _].
  apply keeps_bind; [exact _ | apply keeps_resolve_members; exact _ |].
  intros [ad_usernames ad_groupnames].
  unfold reconcile_members, add_user_member, add_group_member, ipa_group_show,
    ipa_group_add_member_user, ipa_group_add_member_group.
  keeps_prog.
Qed.

Lemma kept_sync_memberships dry_run :
  keeps memberships_kept is_membership_call
        (sync_memberships cfg ad tgt order dry_run).
Proof.
  unfold sync_memberships.
  apply keeps_bind; [exact _ | keeps_prog | intros _].
  apply keeps_bind; [exact _ | apply keeps_get_ad_groups; exact _ | intros gs].
  apply keeps_for_each; [exact _ | intros ad_group; apply kept_sync_membership].
Qed.

Lemma keeps_weaken (Q : directory → directory → Prop) (P P' : ipa_call → Prop)
  {A} (m : prog A) :
  (∀ c, P c → P' c) → keeps Q P m → keeps Q P' m.
Proof.
  intros HP Hm w. destruct (Hm w) as [HQ (cs & Hcs & Hall)].
  split; [done|]. exists cs. split; [done|].
  eapply Forall_impl; [exact Hall | exact HP].
Qed.

Lemma kept_ensure_id_range :
  keeps memberships_kept any_call (ensure_id_range cfg tgt).
Proof.
  unfold ensure_id_range, ipa_idrange_show, ipa_idrange_add. keeps_prog.
Qed.

Lemma kept_sync dry_run force_users force_groups :
  keeps memberships_kept any_call
        (sync cfg ad tgt order dry_run force_users force_groups).
Proof.
  unfold sync.
  apply keeps_bind; [exact _ | keeps_prog | intros _].
  apply keeps_bind; [exact _ | apply keeps_connect_ad; exact _ | intros ad_ok].
  destruct (negb ad_ok); [keeps_prog|].
  apply keeps_bind; [exact _ | apply keeps_connect_ipa; exact _ | intros ipa_ok].
  destruct (negb ipa_ok); [keeps_prog|].
  apply keeps_bind; [exact _ | apply kept_ensure_id_range | intros _].
  apply keeps_try_finally; [exact _ | | keeps_prog].
  unfold sync_phases.
  apply keeps_bind; [exact _ | apply keeps_when, kept_sync_users; exact _ |].
  intros _.
  apply keeps_bind; [exact _ | apply keeps_when, kept_sync_groups; exact _ |].
  intros _.
  apply keeps_bind; [exact _ | | intros _; keeps_prog].
  apply keeps_when; [exact _|].
  eapply keeps_weaken; [|apply kept_sync_memberships]. done.
Qed.

End KeptSync.

(** C3. The membership reconciler issues only lookups of a group and
    additions of a member, never a removal; after it, and after a whole
    run of [sync] with any flags, every group of the target still has all
    the user members and group members it had before. *)
Theorem memberships_only_grow (cfg : config) (ad : source) (tgt : target)
  (order : set_order) (dry_run force_users force_groups : bool) (w : world) :
  run_extends memberships_kept is_membership_call
    w (world_of (sync_memberships cfg ad tgt order dry_run w))
  ∧ memberships_kept
      (ipa w)
      (ipa (world_of (sync cfg ad tgt order dry_run force_users force_groups w))).
Proof.
  split.
  - apply kept_sync_memberships.
  - apply (kept_sync cfg ad tgt order dry_run force_users force_groups w).
Qed.

(** ** Running single calls *)

Lemma invoke_accepted (tgt : target) {A} (c : ipa_call)
  (sem : directory → outcome A * directory) (w : world) r d :
  ipa_rejects tgt (ipa w) c = false →
  sem (ipa w) = (r, d) →
  invoke tgt c sem w = (r, set_ipa d (add_call c w)).
Proof. intros Hr Hs. unfold invoke. by rewrite Hr, Hs. Qed.

Lemma invoke_rejected (tgt : target) {A} (c : ipa_call)
  (sem : directory → outcome A * directory) (w : world) :
  ipa_rejects tgt (ipa w) c = true →
  invoke tgt c sem w = (Raise FreeIPAError, add_call c w).
Proof. intros Hr. unfold invoke. by rewrite Hr. Qed.

Lemma sanitized_name (groupname : string) :
  (if negb (String.eqb (sanitize groupname) groupname)
   then sanitize groupname else groupname) = sanitize groupname.
Proof.
  destruct (String.eqb_spec (sanitize groupname) groupname) as [->|]; cbn; done.
Qed.

Lemma is_empty_string_false (s : string) : s ≠ "" → is_empty_string s = false.
Proof. by destruct s. Qed.

(** C9. A source group in scope that the target already has, with [force]
    off: the group reconciler looks the group up under its sanitized
    name, issues no other call, leaves the target as it was, and adds
    exactly one to [groups_updated]; in a dry run and in a live run
    alike. *)
Theorem existing_group_counted_updated (cfg : config) (tgt : target)
  (dry_run : bool) (ad_group : ad_object) (groupname : string)
  (g : ipa_group) (w : world) :
  sAMAccountName ad_group = Some groupname →
  groupname ≠ "" →
  should_sync_group cfg groupname = true →
  groups (ipa w) !! sanitize groupname = Some g →
  ipa_rejects tgt (ipa w) (group_show (sanitize groupname)) = false →
  let r := sync_group cfg tgt dry_run false ad_group w in
  result_of r = Ok tt
  ∧ ipa (world_of r) = ipa w
  ∧ calls (world_of r) = (calls w ++ [group_show (sanitize groupname)])%list
  ∧ groups_updated (stats (world_of r)) = groups_updated (stats w) + 1
  ∧ groups_created (stats (world_of r)) = groups_created (stats w).
Proof.
  intros Hname Hne Hscope Hg Hacc. cbv zeta.
  unfold sync_group. rewrite Hname, (is_empty_string_false _ Hne), Hscope.
  cbn [orb negb]. rewrite sanitized_name.
  unfold reconcile_group, ipa_group_show.
  unfold mbind, prog_bind, try_except, when.
  destruct (negb (String.eqb (sanitize groupname) groupname)).
  - cbn [logger].
    erewrite invoke_accepted;
      [| exact Hacc | unfold Ipa.do_group_show; cbn [ipa add_log]; by rewrite Hg].
    cbn. by destruct (stats w).
  - cbn [mret prog_ret].
    erewrite invoke_accepted;
      [| exact Hacc | unfold Ipa.do_group_show; by rewrite Hg].
    cbn. by destruct (stats w).
Qed.

(** ** The principal reconciler *)

Lemma map_user_attributes_frame (cfg : config) (ad_user : ad_object) (w : world) :
  ∃ m w1, map_user_attributes cfg ad_user w = (Ok m, w1)
          ∧ ipa w1 = ipa w ∧ calls w1 = calls w ∧ stats w1 = stats w.
Proof.
  unfold map_user_attributes.
  destruct (mail_missing _); [|by eexists _, _].
  destruct (default_email_domain cfg) as [dom|]; [|by eexists _, _].
  destruct (_ !! "uid") as [uid|]; [|by eexists _, _].
  destruct (is_empty_string dom); by eexists _, _.
Qed.

Lemma sync_user_in_scope (cfg : config) (tgt : target) (dry_run force : bool)
  (ad_user : ad_object) (username : string) (ipa_user : gmap string atom)
  (w : world) :
  sAMAccountName ad_user = Some username →
  username ≠ "" →
  should_sync_user cfg username = true →
  result_of (map_user_attributes cfg ad_user w) = Ok ipa_user →
  ∃ w1, ipa w1 = ipa w ∧ calls w1 = calls w ∧ stats w1 = stats w
    ∧ sync_user cfg tgt dry_run force ad_user w
      = try_except
          (sync_existing_user tgt dry_run force username ipa_user
                              (source_is_disabled ad_user))
          (sync_user_handlers tgt dry_run username ipa_user
                              (source_is_disabled ad_user)) w1.
Proof.
  intros Hname Hne Hscope Hmap.
  destruct (map_user_attributes_frame cfg ad_user w)
    as (m & w1 & Hrun & Hi & Hc & Hs).
  rewrite Hrun in Hmap. cbn in Hmap. inversion Hmap; subst m.
  exists w1. repeat (split; [done|]).
  unfold sync_user. rewrite Hname, (is_empty_string_false _ Hne), Hscope.
  cbn [orb negb]. unfold mbind at 1, prog_bind at 1. rewrite Hrun.
  reflexivity.
Qed.

(** How programs run. *)
Lemma bind_ok {A B} (m : prog A) (k : A → prog B) (w w' : world) (a : A) :
  m w = (Ok a, w') → (m ≫= k) w = k a w'.
Proof. intros H. unfold mbind, prog_bind. by rewrite H. Qed.

Lemma bind_raise {A B} (m : prog A) (k : A → prog B) (w w' : world) (e : pyexn) :
  m w = (Raise e, w') → (m ≫= k) w = (Raise e, w').
Proof. intros H. unfold mbind, prog_bind. by rewrite H. Qed.

Lemma try_except_ok {A} (body : prog A) handler (w w' : world) (a : A) :
  body w = (Ok a, w') → try_except body handler w = (Ok a, w').
Proof. intros H. unfold try_except. by rewrite H. Qed.

Lemma try_except_raise {A} (body : prog A) handler (w w' : world) e h :
  body w = (Raise e, w') → handler e = Some h →
  try_except body handler w = h w'.
Proof. intros H Hh. unfold try_except. by rewrite H, Hh. Qed.

Lemma bump_created (s : stats_dict) :
  users_created (bump UsersCreated s) = users_created s + 1.
Proof. by destruct s. Qed.

(** C6, as amended.  A source principal in scope whose lookup returns
    NotFound.  In a live run in which the target accepts the calls, the
    reconciler issues [user_add] with the mapped login, given name and
    surname, each replaced by the login name when absent, and the mapped
    common name, replaced by "<given name> <surname>" when absent; then
    [user_disable] when the source record is disabled; and it adds exactly
    one to [users_created].  In a dry run it issues the lookup only and
    adds one to [users_created] as well. *)
Theorem absent_user_created (cfg : config) (tgt : target) (force : bool)
  (ad_user : ad_object) (username : string) (ipa_user : gmap string atom)
  (w : world) (d1 : directory) :
  let create :=
    user_add (create_uid ipa_user username)
             (create_givenname ipa_user username)
             (create_sn ipa_user username)
             (create_cn ipa_user username)
             (user_add_params ipa_user) in
  sAMAccountName ad_user = Some username →
  username ≠ "" →
  should_sync_user cfg username = true →
  result_of (map_user_attributes cfg ad_user w) = Ok ipa_user →
  users (ipa w) !! username = None →
  ipa_rejects tgt (ipa w) (user_show username) = false →
  ipa_rejects tgt (ipa w) create = false →
  Ipa.do_user_add (create_uid ipa_user username)
    (create_givenname ipa_user username) (create_sn ipa_user username)
    (create_cn ipa_user username) (user_add_params ipa_user) (ipa w)
  = (Ok tt, d1) →
  (source_is_disabled ad_user = true →
   ipa_rejects tgt d1 (user_disable username) = false
   ∧ is_Some (users d1 !! username)) →
  let live := sync_user cfg tgt false force ad_user w in
  let dry := sync_user cfg tgt true force ad_user w in
  (result_of live = Ok tt
   ∧ calls (world_of live)
     = (calls w ++ [user_show username; create]
        ++ if source_is_disabled ad_user then [user_disable username] else [])%list
   ∧ users_created (stats (world_of live)) = users_created (stats w) + 1)
  ∧ (result_of dry = Ok tt
     ∧ calls (world_of dry) = (calls w ++ [user_show username])%list
     ∧ ipa (world_of dry) = ipa w
     ∧ users_created (stats (world_of dry)) = users_created (stats w) + 1)
  ∧ (ipa_user !! "uid" = None → create_uid ipa_user username = AStr username)
  ∧ (ipa_user !! "givenname" = None
     → create_givenname ipa_user username = AStr username)
  ∧ (ipa_user !! "sn" = None → create_sn ipa_user username = AStr username)
  ∧ (ipa_user !! "cn" = None
     → create_cn ipa_user username
       = AStr (str_of_atom (create_givenname ipa_user username) ++ " "
               ++ str_of_atom (create_sn ipa_user username))).
Proof.
  intros create Hname Hne Hscope Hmap Habsent Hshow Hadd Hadded Hdis live dry.
  assert (∀ dry_run w1, ipa w1 = ipa w →
            sync_existing_user tgt dry_run force username ipa_user
              (source_is_disabled ad_user) w1
            = (Raise NotFound, add_call (user_show username) w1)) as Hlookup.
  { intros dry_run w1 Hi. unfold sync_existing_user.
    apply bind_raise. unfold ipa_user_show.
    rewrite (invoke_accepted tgt _ _ w1 (Raise NotFound) (ipa w1)); [done| |].
    - by rewrite Hi.
    - unfold Ipa.do_user_show. by rewrite Hi, Habsent. }
  split; [|split; [|repeat split]].
  - subst live.
    destruct (sync_user_in_scope cfg tgt false force ad_user username ipa_user w)
      as (w1 & Hi & Hc & Hs & ->); try done.
    erewrite try_except_raise; [| by apply Hlookup | reflexivity].
    unfold create_user.
    set (w2 := add_call (user_show username) w1).
    assert (ipa_user_add tgt (create_uid ipa_user username)
              (create_givenname ipa_user username) (create_sn ipa_user username)
              (create_cn ipa_user username) (user_add_params ipa_user) w2
            = (Ok tt, set_ipa d1 (add_call create w2))) as Hrun.
    { unfold ipa_user_add. apply invoke_accepted; cbn; by rewrite Hi. }
    destruct (source_is_disabled ad_user) eqn:Hd.
    + destruct (Hdis eq_refl) as [Hrej [entry Hentry]].
      erewrite bind_ok.
      2:{ erewrite bind_ok; [|exact Hrun].
          erewrite bind_ok; [reflexivity|].
          unfold ipa_user_disable. apply invoke_accepted; [exact Hrej|].
          cbn. unfold Ipa.do_user_lock. by rewrite Hentry. }
      cbn. rewrite Hc, Hs, bump_created. repeat split; by rewrite <- ?app_assoc.
    + erewrite bind_ok.
      2:{ erewrite bind_ok; [|exact Hrun]. reflexivity. }
      cbn. rewrite Hc, Hs, bump_created. repeat split; by rewrite <- ?app_assoc.
  - subst dry.
    destruct (sync_user_in_scope cfg tgt true force ad_user username ipa_user w)
      as (w1 & Hi & Hc & Hs & ->); try done.
    erewrite try_except_raise; [| by apply Hlookup | reflexivity].
    unfold create_user. erewrite bind_ok; [|reflexivity].
    cbn. rewrite Hc, Hs, Hi, bump_created. done.
  - intros H. unfold create_uid. by rewrite H.
  - intros H. unfold create_givenname. by rewrite H.
  - intros H. unfold create_sn. by rewrite H.
  - intros H. unfold create_cn. by rewrite H.
Qed.

Lemma reply_of_lookup {A} (value : string) (entry : A) (k : string) :
  k ≠ "result" → k ≠ "value" → k ≠ "summary" →
  reply_of value entry !! k = None.
Proof.
  intros H1 H2 H3. unfold reply_of.
  rewrite !lookup_insert_ne by done. by apply lookup_singleton_ne.
Qed.

Lemma ipa_is_disabled_reply (uid : string) (entry : gmap string pyval) :
  ipa_is_disabled (reply_of uid entry) = false.
Proof. unfold ipa_is_disabled. by rewrite reply_of_lookup. Qed.

Lemma bump_enabled_other (k : stat_key) (s : stats_dict) :
  k ≠ UsersEnabled → users_enabled (bump k s) = users_enabled s.
Proof. by destruct s, k. Qed.

(** C7.  The status reconciliation does not do what the claim says.  For
    a source principal in scope that the target has, in a live run, the
    lock state that is compared with the source flag is read from what
    [user_show] returned, the reply object of the client, which has no key
    ['nsaccountlock'] (the entry is under ['result']): the target always
    counts as unlocked.  So whatever the entry [existing] of the target
    holds, the calls are the lookup, the attribute update that [force]
    adds, and [user_disable] iff the source is disabled; [user_enable] is
    never issued and [users_enabled] never moves, where the claim asks for
    an enable when the source is enabled and the target locked. *)
Theorem existing_user_lock_ignored (cfg : config) (tgt : target) (force : bool)
  (ad_user : ad_object) (username : string) (ipa_user : gmap string atom)
  (existing : gmap string pyval) (w : world) :
  sAMAccountName ad_user = Some username →
  username ≠ "" →
  should_sync_user cfg username = true →
  result_of (map_user_attributes cfg ad_user w) = Ok ipa_user →
  users (ipa w) !! username = Some existing →
  ipa_rejects tgt (ipa w) (user_show username) = false →
  (force = true →
   ipa_rejects tgt (ipa w) (user_mod username (user_mod_params ipa_user))
   = false) →
  let r := sync_user cfg tgt false force ad_user w in
  result_of r = Ok tt
  ∧ calls (world_of r)
    = (calls w ++ [user_show username]
       ++ update_calls username force (user_mod_params ipa_user)
       ++ status_calls username (source_is_disabled ad_user) false)%list
  ∧ users_enabled (stats (world_of r)) = users_enabled (stats w).
Proof.
  intros Hname Hne Hscope Hmap Hfound Hshow Hmod r. subst r.
  destruct (sync_user_in_scope cfg tgt false force ad_user username ipa_user w)
    as (w1 & Hi & Hc & Hs & ->); try done.
  unfold status_calls, update_calls.
  unfold try_except, sync_existing_user, ipa_user_show, ipa_user_mod,
    ipa_user_disable, ipa_user_enable, when, mbind, prog_bind, invoke,
    Ipa.do_user_show, Ipa.do_user_mod, Ipa.do_user_lock.
  cbn [ipa add_call set_ipa]. rewrite Hi, Hshow, Hfound.
  cbn [ipa add_call set_ipa]. rewrite ipa_is_disabled_reply.
  destruct force; cbn [andb];
    [specialize (Hmod eq_refl);
     destruct (bool_decide (user_mod_params ipa_user = ∅)); cbn [negb]
    |clear Hmod];
    cbn [mret prog_ret ipa add_call set_ipa]; rewrite ?Hi, ?Hmod, ?Hfound;
    cbn [ipa add_call set_ipa Ipa.set_users users];
    rewrite ?lookup_insert_eq;
    destruct (source_is_disabled ad_user);
    cbn [andb negb];
    repeat match goal with
      | |- context [ipa_rejects ?t ?d ?c] => destruct (ipa_rejects t d c)
      end;
    cbn [ipa add_call set_ipa Ipa.set_users users];
    rewrite ?Hfound, ?lookup_insert_eq;
    cbn; rewrite ?Hc, ?Hs, <- ?app_assoc;
    (split; [done|]); (split; [done|]);
    rewrite ?bump_enabled_other by done; done.
Qed.

(** ** Dry runs *)

Section DryRun.

Variables (cfg : config) (ad : source) (tgt : target) (order : set_order).

Lemma dry_sync_user force ad_user :
  keeps eq only_lookups (sync_user cfg tgt true force ad_user).
Proof.
  unfold sync_user.
  destruct (sAMAccountName ad_user) as [username|]; [|keeps_prog].
  destruct (_ || _); [keeps_prog|].
  apply keeps_bind; [exact _ | apply keeps_map_user_attributes; exact _ |].
  intros ipa_user.
  unfold sync_user_handlers, sync_existing_user, create_user, ipa_user_show.
  keeps_prog.
Qed.

Lemma dry_sync_group force ad_group :
  keeps eq only_lookups (sync_group cfg tgt true force ad_group).
Proof.
  unfold sync_group, reconcile_group, ipa_group_show. keeps_prog.
Qed.

Lemma dry_sync_membership ad_group :
  keeps eq only_lookups (sync_membership cfg ad tgt order true ad_group).
Proof.
  unfold sync_membership.
  destruct (sAMAccountName ad_group) as [groupname|]; [|keeps_prog].
  destruct (_ || _); [keeps_prog|].
  apply keeps_bind; [exact _ | keeps_prog | intros _].
  apply keeps_bind; [exact _ | apply keeps_resolve_members; exact _ |].
  intros [ad_usernames ad_groupnames].
  unfold reconcile_members, add_user_member, add_group_member, ipa_group_show.
  keeps_prog.
Qed.

End DryRun.

(** C2, as amended.  With [dry_run] set, the three phases of a run —
    users, groups, memberships — issue only lookups and leave the target
    directory as it was, whatever the source, the target and the force
    flags. *)
Theorem dry_run_phases_read_only (cfg : config) (ad : source) (tgt : target)
  (order : set_order) (force_users force_groups : bool) (w : world) :
  run_extends eq only_lookups
    w (world_of (sync_phases cfg ad tgt order true force_users force_groups w)).
Proof.
  revert w. change (keeps eq only_lookups
                      (sync_phases cfg ad tgt order true force_users force_groups)).
  unfold sync_phases, sync_users, sync_groups, sync_memberships.
  apply keeps_bind; [exact _ | | intros _].
  { apply keeps_when; [exact _|].
    apply keeps_bind; [exact _ | keeps_prog | intros _].
    apply keeps_bind; [exact _ | apply keeps_get_ad_users; exact _ | intros us].
    apply keeps_for_each; [exact _ | intros u; apply dry_sync_user]. }
  apply keeps_bind; [exact _ | | intros _].
  { apply keeps_when; [exact _|].
    apply keeps_bind; [exact _ | keeps_prog | intros _].
    apply keeps_bind; [exact _ | apply keeps_get_ad_groups; exact _ | intros gs].
    apply keeps_for_each; [exact _ | intros g; apply dry_sync_group]. }
  apply keeps_bind; [exact _ | | intros _; keeps_prog].
  apply keeps_when; [exact _|].
  apply keeps_bind; [exact _ | keeps_prog | intros _].
  apply keeps_bind; [exact _ | apply keeps_get_ad_groups; exact _ | intros gs].
  apply keeps_for_each; [exact _ | intros g; apply dry_sync_membership].
Qed.

(** ** The statements on the example data *)

Import Example.

Lemma existing_group_counted_updated_witness :
  let r := sync_group cfg tgt true false staff (initial_world populated_directory) in
  result_of r = Ok tt
  ∧ ipa (world_of r) = populated_directory
  ∧ calls (world_of r) = [group_show "staff"]
  ∧ groups_updated (stats (world_of r)) = 1
  ∧ groups_created (stats (world_of r)) = 0.
Proof.
  apply (existing_group_counted_updated cfg tgt true staff "staff"
           {| group_attrs := ∅; member_user := {[ "jdoe" ]};
              member_group := {[ "Dev-Team" ]} |}
           (initial_world populated_directory));
    first [reflexivity | discriminate].
Defined.

(** The scenario of the specification: the disabled user "jdoe", absent
    from the target, is created and then disabled, and counted once. *)
Lemma absent_user_created_witness :
  let live := sync_user cfg tgt false false jdoe (initial_world empty_directory) in
  result_of live = Ok tt
  ∧ calls (world_of live)
    = [user_show "jdoe";
       user_add (AStr "jdoe") (AStr "jdoe") (AStr "jdoe") (AStr "jdoe jdoe") ∅;
       user_disable "jdoe"]
  ∧ users_created (stats (world_of live)) = 1.
Proof.
  pose (ipa_user := ({[ "uid" := AStr "jdoe" ]} : gmap string atom)).
  pose (d1 := snd (Ipa.do_user_add (create_uid ipa_user "jdoe")
                     (create_givenname ipa_user "jdoe") (create_sn ipa_user "jdoe")
                     (create_cn ipa_user "jdoe") (user_add_params ipa_user)
                     empty_directory)).
  refine (proj1 (absent_user_created cfg tgt false jdoe "jdoe" ipa_user
                   (initial_world empty_directory) d1 _ _ _ _ _ _ _ _ _));
    try (vm_compute; reflexivity); try discriminate.
  intros _. split; [reflexivity|]. vm_compute. by eexists.
Defined.

(** C6 fails as stated: "jdoe" has no common name in the source, and the
    common name passed to [user_add] is "jdoe jdoe", not the login name. *)
Lemma absent_user_cn_counterexample :
  let live := sync_user cfg tgt false false jdoe (initial_world empty_directory) in
  attributes jdoe !! "cn" = None
  ∧ calls (world_of live)
    = [user_show "jdoe";
       user_add (AStr "jdoe") (AStr "jdoe") (AStr "jdoe") (AStr "jdoe jdoe") ∅;
       user_disable "jdoe"]
  ∧ AStr "jdoe jdoe" ≠ AStr "jdoe".
Proof. repeat split; try (vm_compute; reflexivity). discriminate. Qed.

(** C7 on the example: "asmith" is enabled in the source and locked on
    the target, so the claim asks for an enable.  The live run issues the
    lookup only: the account stays locked and [users_enabled] stays 0. *)
Lemma existing_user_lock_ignored_witness :
  let w := initial_world locked_directory in
  let r := sync_user cfg tgt false false asmith w in
  source_is_disabled asmith = false
  ∧ users (ipa w) !! "asmith" = Some asmith_locked
  ∧ asmith_locked !! "nsaccountlock" = Some (PAtom (ABool true))
  ∧ status_calls "asmith" false true = [user_enable "asmith"]
  ∧ result_of r = Ok tt
  ∧ calls (world_of r) = [user_show "asmith"]
  ∧ users_enabled (stats (world_of r)) = 0
  ∧ users (ipa (world_of r)) !! "asmith" = Some asmith_locked.
Proof.
  destruct (existing_user_lock_ignored cfg tgt false asmith "asmith"
              {[ "uid" := AStr "asmith" ]} asmith_locked
              (initial_world locked_directory)) as (Hr & Hc & He);
    try (vm_compute; reflexivity); try discriminate.
  cbv zeta. rewrite Hc, He.
  repeat split; try exact Hr; vm_compute; reflexivity.
Defined.

(** In a dry run no comparison is made at all: the disabled source user
    "jdoe" draws no disable, and the run logs the same intent whether the
    target is locked or not. *)
Lemma dry_run_status_not_compared :
  let unlocked := initial_world populated_directory in
  let locked :=
    initial_world
      (Ipa.set_users {[ "jdoe" := {[ "nsaccountlock" := PAtom (ABool true) ]} ]}
                     populated_directory) in
  source_is_disabled jdoe = true
  ∧ calls (world_of (sync_user cfg tgt true false jdoe unlocked))
    = [user_show "jdoe"]
  ∧ log (world_of (sync_user cfg tgt true false jdoe unlocked))
    = [LogWouldUpdateUser "jdoe" "disabled"]
  ∧ log (world_of (sync_user cfg tgt true false jdoe locked))
    = [LogWouldUpdateUser "jdoe" "disabled"].
Proof. repeat split; vm_compute; reflexivity. Qed.

(** C8 on the example: on the target "jdoe" and the nested group "Dev
    Team", under its sanitized name "Dev-Team", are members of "staff"
    already, so both differences of the claim are empty.  The reconciler
    reads the current members from the reply of [group_show], where they
    never are, and subtracts them from the raw names: it adds both
    members again. *)
Lemma member_group_added_again :
  let w := initial_world populated_directory in
  let r := sync_membership cfg ad tgt order false staff w in
  ({[ "jdoe" ]} : gset string) ∖ {[ "jdoe" ]} = ∅
  ∧ (set_map sanitize ({[ "Dev Team" ]} : gset string) : gset string)
      ∖ {[ "Dev-Team" ]} = ∅
  ∧ calls (world_of r)
    = [group_show "staff"; group_add_member_user "staff" "jdoe";
       group_add_member_group "staff" "Dev-Team"]
  ∧ memberships_added (stats (world_of r)) = 2
  ∧ log (world_of (sync_membership cfg ad tgt order true staff w))
    = [LogWouldAddUser "jdoe" "staff"; LogWouldAddGroup "Dev Team" "staff"].
Proof. repeat split; vm_compute; reflexivity. Qed.

(** C2 fails as stated: on an empty target the live run adds "jdoe" to the
    group it has just created, while the dry run, which finds no such
    group, takes no add-member decision.  The calls of the dry run are
    lookups: the identity-range setup runs unguarded and logs that it
    creates the range, but its [idrange_add] raises before a request is
    sent. *)
Lemma dry_run_parity_counterexample :
  let w := initial_world empty_directory in
  let dry := world_of (sync cfg ad tgt order true false false w) in
  let live := world_of (sync cfg ad tgt order false false false w) in
  decisions (log live)
  = [CreateUser "jdoe"; DisableUser "jdoe"; CreateGroup "staff";
     AddMember "staff" "jdoe"]
  ∧ decisions (log dry)
    = [CreateUser "jdoe"; DisableUser "jdoe"; CreateGroup "staff"]
  ∧ decisions (log dry) ≠ decisions (log live)
  ∧ calls dry
    = [idrange_show "AD_SYNC_RANGE"; user_show "jdoe"; group_show "staff";
       group_show "staff"]
  ∧ LogCreatingRange "AD_SYNC_RANGE" 200000 ∈ log dry
  ∧ LogCouldNotEnsureRange TypeError ∈ log dry.
Proof.
  repeat split; try (vm_compute; reflexivity).
  - vm_compute. discriminate.
  - vm_compute. do 3 right. left.
  - vm_compute. do 4 right. left.
Qed.

(** ** The textual form of a binary SID *)

Lemma le_value_app (a b : list byte) :
  Py.le_value (a ++ b) = Py.le_value a + 256 ^ Z.of_nat (length a) * Py.le_value b.
Proof.
  induction a as [|x a IH]; cbn [app Py.le_value length].
  - change (256 ^ Z.of_nat 0) with 1. lia.
  - rewrite IH, Nat2Z.inj_succ, Z.pow_succ_r by lia. lia.
Qed.

Lemma be_value_zero_padded (l : list byte) :
  Py.be_value ([x00; x00] ++ l) = Py.be_value l.
Proof.
  unfold Py.be_value. rewrite rev_app_distr, le_value_app.
  change (Py.le_value (rev [x00; x00])) with 0. lia.
Qed.

Lemma encode_latin1_length (s : string) :
  length (Py.encode_latin1 s) = String.length s.
Proof.
  unfold Py.encode_latin1. rewrite length_map.
  induction s as [|c s IH]; cbn; [done | by rewrite IH].
Qed.

Lemma sid_header_fields (b : list byte) :
  (8 ≤ length b)%nat →
  sid_header b = Ok (sid_revision b, declared_count b, sid_authority b).
Proof.
  intros H. unfold sid_header, declared_count, Py.index, sid_authority.
  destruct b as [|b0 [|b1 r]]; simpl in H; try lia.
  simpl nth_error. unfold mbind, outcome_bind, Py.unpack_Q_be.
  assert (length ([x00; x00] ++ Py.slice 2 8 (b0 :: b1 :: r)) = 8%nat) as ->.
  { rewrite length_app, slice_length. cbn [length]. cbn [length] in H. lia. }
  simpl Nat.eqb. cbv iota. by rewrite be_value_zero_padded.
Qed.

Lemma sid_fields_range (b : list byte) :
  0 ≤ sid_revision b < 256 ∧ 0 ≤ sid_authority b < 256 ^ 6.
Proof.
  split.
  - unfold sid_revision. destruct b; [lia | apply byte_val_range].
  - unfold sid_authority, Py.be_value.
    pose proof (le_value_range (rev (Py.slice 2 8 b))) as H.
    rewrite length_rev, slice_length in H.
    split; [lia|]. eapply Z.lt_le_trans; [apply H|].
    apply Z.pow_le_mono_r; lia.
Qed.

(** The text built for a complete buffer. *)
Lemma sid_to_string_complete (b : list byte) :
  sid_complete b = true →
  sid_to_string (SidBytes b)
  = Ok (Some (sid_text b (declared_count b)
                ("S-" ++ Py.str_of_Z (sid_revision b) ++ "-"
                 ++ Py.str_of_Z (sid_authority b)))).
Proof.
  unfold sid_complete. intros [H12 Hall]%andb_true_iff.
  apply Nat.leb_le in H12. apply Nat.leb_le in Hall.
  unfold sid_to_string. destruct b as [|b0 r]; [simpl in H12; lia|].
  cbn [sid_falsy is_sid_string]. unfold sid_to_string_try.
  unfold mbind, outcome_bind. cbn [sid_len sid_as_bytes].
  destruct (Nat.ltb_spec (length (b0 :: r)) 12) as [Hlen|Hlen]; [lia|].
  rewrite sid_header_fields by lia. cbv beta iota zeta.
  rewrite append_sub_authorities_full by lia. reflexivity.
Qed.

Lemma sid_to_string_incomplete (b : list byte) :
  sid_complete b = false → sid_to_string (SidBytes b) = Ok None.
Proof.
  intros Hc. destruct (sid_to_string_bytes b) as [[H _]|(H12 & Hall & _)]; [done|].
  unfold sid_complete in Hc. apply andb_false_iff in Hc.
  destruct Hc as [Hc|Hc]; apply Nat.leb_gt in Hc; lia.
Qed.

(** A [str] that does not start with ['S-'] is read as its Latin-1
    bytes. *)
Lemma sid_to_string_buffer (v : sid_value) :
  is_sid_string v = None →
  sid_to_string v = sid_to_string (SidBytes (sid_buffer v)).
Proof.
  destruct v as [|s|b]; [done| |done].
  intros Hs. unfold sid_to_string. rewrite Hs.
  destruct s as [|c s]; [done|].
  cbn [sid_falsy sid_buffer is_sid_string].
  unfold Py.encode_latin1 at 1. cbn [list_ascii_of_string map].
  unfold sid_to_string_try, mbind, outcome_bind. cbn [sid_len sid_as_bytes].
  by rewrite encode_latin1_length.
Qed.

Lemma sid_falsy_buffer (v : sid_value) :
  sid_falsy v = true → sid_complete (sid_buffer v) = false.
Proof. by destruct v as [|[|]|[|]]. Qed.

(** X1.  [sid_to_string] never raises, and it returns [None] exactly when
    its argument is empty or [None], or is not an ['S-'] text and its
    bytes are fewer than 12 or fewer than the declared sub-authorities
    need. *)
Theorem sid_to_string_none_iff (v : sid_value) :
  ∃ r, sid_to_string v = Ok r
       ∧ (r = None ↔
          sid_falsy v = true
          ∨ is_sid_string v = None ∧ sid_complete (sid_buffer v) = false).
Proof.
  destruct (sid_falsy v) eqn:Hf.
  { exists None. split; [|by intuition]. unfold sid_to_string. by rewrite Hf. }
  destruct (is_sid_string v) as [s|] eqn:Hs.
  { exists (Some s). split.
    - unfold sid_to_string. by rewrite Hf, Hs.
    - split; [done|]. by intros [|[]]. }
  rewrite sid_to_string_buffer by done.
  destruct (sid_complete (sid_buffer v)) eqn:Hc.
  - rewrite sid_to_string_complete by done. eexists. split; [done|].
    split; [done|]. by intros [|[]].
  - rewrite sid_to_string_incomplete by done. exists None. by intuition.
Qed.

(** X2.  For a complete buffer the text starts with ['S-'], and its
    dash-separated components after the ['S'] read back, with [int], as
    the revision byte, the 48-bit big-endian authority and the declared
    little-endian sub-authorities, in order. *)
Theorem sid_to_string_components (v : sid_value) :
  is_sid_string v = None →
  sid_complete (sid_buffer v) = true →
  ∃ s parts,
    sid_to_string v = Ok (Some s)
    ∧ String.prefix "S-" s = true
    ∧ Py.split "-" s = "S" :: parts
    ∧ Forall2 (λ part z, Py.int part = Ok z) parts
        (sid_revision (sid_buffer v) :: sid_authority (sid_buffer v)
         :: map (sub_authority_at (sid_buffer v))
                (seq 0 (declared_count (sid_buffer v)))).
Proof.
  intros Hs Hc. rewrite sid_to_string_buffer by done.
  set (b := sid_buffer v) in *.
  rewrite sid_to_string_complete by done.
  destruct (sid_fields_range b) as [Hrev Hauth].
  eexists _, _. split; [reflexivity|]. split.
  { apply sid_text_prefix, prefix_S_dash. }
  split.
  { rewrite sid_text_split, sid_head_split by lia. reflexivity. }
  assert (256 ^ 6 < 2 ^ 4299) as Hbig.
  { change (256 ^ 6) with (2 ^ 48). apply Z.pow_lt_mono_r; lia. }
  constructor; [apply int_str_of_Z; lia|].
  constructor; [apply int_str_of_Z; lia|].
  apply Forall2_fmap, Forall_Forall2_diag, Forall_forall. intros j _.
  apply int_str_of_Z. pose proof (sub_authority_at_range b j).
  assert (2 ^ 32 < 2 ^ 4299) by (apply Z.pow_lt_mono_r; lia). lia.
Qed.

Lemma sid_to_string_components_witness :
  ∃ s parts,
    sid_to_string (SidBytes sid_1105) = Ok (Some s)
    ∧ String.prefix "S-" s = true
    ∧ Py.split "-" s = "S" :: parts
    ∧ Forall2 (λ part z, Py.int part = Ok z) parts
        (sid_revision sid_1105 :: sid_authority sid_1105
         :: map (sub_authority_at sid_1105) (seq 0 (declared_count sid_1105))).
Proof. apply (sid_to_string_components (SidBytes sid_1105)); reflexivity. Defined.

(** ** The identity range *)

Global Instance only_ranges_grow_preorder : PreOrder only_ranges_grow.
Proof.
  split.
  - intros d. by repeat split.
  - intros d1 d2 d3 (Hu1 & Hg1 & Hr1) (Hu2 & Hg2 & Hr2).
    repeat split; [congruence | congruence | set_solver].
Qed.

Lemma do_idrange_show_ranges d name :
  only_ranges_grow d (snd (Ipa.do_idrange_show name d)).
Proof. unfold Ipa.do_idrange_show. case_bool_decide; by repeat split. Qed.

Lemma do_idrange_add_ranges d name :
  only_ranges_grow d (snd (Ipa.do_idrange_add name d)).
Proof.
  unfold Ipa.do_idrange_add. case_bool_decide; repeat split; cbn; set_solver.
Qed.

#[export] Hint Resolve do_idrange_show_ranges do_idrange_add_ranges : target_step.

(** The keywords the script passes are not the options of the client's
    method: the call raises before anything is sent. *)
Lemma ipa_idrange_add_unbound (tgt : target) (name : string) (a b c d : Z) :
  ipa_idrange_add tgt name
    {[ "ipabaseid" := a; "ipaidrangesize" := b; "ipabaserid" := c;
       "ipasecondarybaserid" := d ]}
  = raise TypeError.
Proof.
  unfold ipa_idrange_add.
  assert (({[ "ipabaseid" := a; "ipaidrangesize" := b; "ipabaserid" := c;
              "ipasecondarybaserid" := d ]} : gmap string Z) !! "o_ipabaseid"
          = None) as ->; [|done].
  rewrite !lookup_insert_ne by done. by apply lookup_singleton_ne.
Qed.

Lemma keeps_ensure_id_range (cfg : config) (tgt : target) :
  keeps only_ranges_grow is_idrange_call (ensure_id_range cfg tgt).
Proof.
  unfold ensure_id_range, ipa_idrange_show, ipa_idrange_add. keeps_prog.
Qed.

(** A program that touches neither the result channel nor the
    counters. *)
Lemma ensure_id_range_result (cfg : config) (tgt : target) (w : world) :
  result_of (ensure_id_range cfg tgt w) = Ok true
  ∧ stats (world_of (ensure_id_range cfg tgt w)) = stats w.
Proof.
  unfold ensure_id_range. rewrite ipa_idrange_add_unbound.
  unfold ipa_idrange_show, try_except, raise,
    invoke, mbind, prog_bind, logger, mret, prog_ret, Ipa.do_idrange_show.
  cbn [ipa add_call add_log set_ipa].
  destruct (ipa_rejects tgt (ipa w) (idrange_show "AD_SYNC_RANGE")); [done|].
  case_bool_decide; done.
Qed.

(** X3.  [ensure_id_range] returns [True] whatever the service answers:
    it never raises, issues only [idrange_show] and [idrange_add], leaves
    users, groups and the counters as they were, and removes no range. *)
Theorem ensure_id_range_never_fails (cfg : config) (tgt : target) (w : world) :
  result_of (ensure_id_range cfg tgt w) = Ok true
  ∧ stats (world_of (ensure_id_range cfg tgt w)) = stats w
  ∧ run_extends only_ranges_grow is_idrange_call
      w (world_of (ensure_id_range cfg tgt w)).
Proof.
  destruct (ensure_id_range_result cfg tgt w) as [Hr Hs].
  repeat split; [done | done | apply keeps_ensure_id_range..].
Qed.

(** What [ensure_id_range] sends and changes, for every target. *)
Lemma ensure_id_range_lookup_only (cfg : config) (tgt : target) (w : world) :
  calls (world_of (ensure_id_range cfg tgt w))
  = (calls w ++ [idrange_show "AD_SYNC_RANGE"])%list
  ∧ ipa (world_of (ensure_id_range cfg tgt w)) = ipa w.
Proof.
  unfold ensure_id_range. rewrite ipa_idrange_add_unbound.
  unfold ipa_idrange_show, try_except, raise,
    invoke, mbind, prog_bind, logger, mret, prog_ret, Ipa.do_idrange_show.
  cbn [ipa add_call add_log set_ipa].
  destruct (ipa_rejects tgt (ipa w) (idrange_show "AD_SYNC_RANGE"));
    [split; reflexivity|].
  case_bool_decide; split; reflexivity.
Qed.

Lemma ensure_id_range_absent (cfg : config) (tgt : target) (w : world) :
  ipa_rejects tgt (ipa w) (idrange_show "AD_SYNC_RANGE") = false →
  "AD_SYNC_RANGE" ∉ idranges (ipa w) →
  log (world_of (ensure_id_range cfg tgt w))
  = (log w ++ [LogCreatingRange "AD_SYNC_RANGE" (id_range_base cfg);
               LogCouldNotEnsureRange TypeError;
               LogManualRangeHint;
               LogManualRangeCommand (id_range_base cfg)])%list.
Proof.
  intros Hacc Habs.
  unfold ensure_id_range. rewrite ipa_idrange_add_unbound.
  unfold ipa_idrange_show, try_except, raise,
    invoke, mbind, prog_bind, logger, mret, prog_ret, Ipa.do_idrange_show.
  cbn [ipa add_call add_log set_ipa]. rewrite Hacc.
  rewrite bool_decide_eq_false_2 by done. cbn.
  by rewrite <- !app_assoc.
Qed.

(** X4.  [ensure_id_range] never creates the range.  For every target it
    sends the lookup of ['AD_SYNC_RANGE'] and nothing else, and leaves the
    directory as it was.  When the lookup finds no range it logs that it
    creates one, but its [idrange_add] passes keywords that are not the
    options of the client's method and raises [TypeError] before a
    request is sent; the handler logs the warning with the manual
    command, and the function returns [True]. *)
Theorem ensure_id_range_never_creates (cfg : config) (tgt : target)
  (w : world) :
  let r := ensure_id_range cfg tgt w in
  result_of r = Ok true
  ∧ calls (world_of r) = (calls w ++ [idrange_show "AD_SYNC_RANGE"])%list
  ∧ ipa (world_of r) = ipa w
  ∧ (ipa_rejects tgt (ipa w) (idrange_show "AD_SYNC_RANGE") = false →
     "AD_SYNC_RANGE" ∉ idranges (ipa w) →
     log (world_of r)
     = (log w ++ [LogCreatingRange "AD_SYNC_RANGE" (id_range_base cfg);
                  LogCouldNotEnsureRange TypeError;
                  LogManualRangeHint;
                  LogManualRangeCommand (id_range_base cfg)])%list).
Proof.
  cbv zeta.
  destruct (ensure_id_range_result cfg tgt w) as [Hr _].
  destruct (ensure_id_range_lookup_only cfg tgt w) as [Hc Hi].
  split; [exact Hr|]. split; [exact Hc|]. split; [exact Hi|].
  apply ensure_id_range_absent.
Qed.

Lemma ensure_id_range_never_creates_witness :
  let w := initial_world Example.empty_directory in
  let r := ensure_id_range Example.cfg Example.tgt w in
  result_of r = Ok true
  ∧ calls (world_of r) = [idrange_show "AD_SYNC_RANGE"]
  ∧ idranges (ipa (world_of r)) = ∅
  ∧ log (world_of r)
    = [LogCreatingRange "AD_SYNC_RANGE" 200000;
       LogCouldNotEnsureRange TypeError;
       LogManualRangeHint;
       LogManualRangeCommand 200000].
Proof.
  cbv zeta.
  destruct (ensure_id_range_never_creates Example.cfg Example.tgt
              (initial_world Example.empty_directory))
    as (Hr & Hc & Hi & Hl).
  split; [exact Hr|]. split; [exact Hc|]. split; [by rewrite Hi|].
  apply Hl; [reflexivity | set_solver].
Defined.

(** ** What the user phase and the group phase touch *)

Global Instance users_remain_preorder : PreOrder users_remain.
Proof.
  split.
  - intros d. by repeat split.
  - intros d1 d2 d3 (Hg1 & Hr1 & Hu1) (Hg2 & Hr2 & Hu2).
    repeat split; [congruence | congruence | auto].
Qed.

Global Instance groups_remain_preorder : PreOrder groups_remain.
Proof.
  split.
  - intros d. by repeat split.
  - intros d1 d2 d3 (Hu1 & Hr1 & Hg1) (Hu2 & Hr2 & Hg2).
    repeat split; [congruence | congruence | auto].
Qed.

Lemma users_remain_insert (d : directory) (uid : string) (entry : gmap string pyval) :
  users_remain d (Ipa.set_users (<[uid := entry]> (users d)) d).
Proof.
  repeat split. intros u Hu. cbn.
  destruct (decide (uid = u)) as [->|Hne].
  - rewrite lookup_insert_eq. by eexists.
  - by rewrite lookup_insert_ne.
Qed.

Lemma do_user_show_users d uid : users_remain d (snd (Ipa.do_user_show uid d)).
Proof. unfold Ipa.do_user_show. by destruct (users d !! uid). Qed.

Lemma do_user_add_users d uid gn sn cn params :
  users_remain d (snd (Ipa.do_user_add uid gn sn cn params d)).
Proof.
  unfold Ipa.do_user_add. destruct uid; try done.
  destruct (users d !! s); [done|]. apply users_remain_insert.
Qed.

Lemma do_user_mod_users d uid params :
  users_remain d (snd (Ipa.do_user_mod uid params d)).
Proof.
  unfold Ipa.do_user_mod.
  destruct (users d !! uid); [|done]. apply users_remain_insert.
Qed.

Lemma do_user_lock_users d b uid :
  users_remain d (snd (Ipa.do_user_lock b uid d)).
Proof.
  unfold Ipa.do_user_lock.
  destruct (users d !! uid); [|done]. apply users_remain_insert.
Qed.

Lemma do_group_show_groups d cn : groups_remain d (snd (Ipa.do_group_show cn d)).
Proof. unfold Ipa.do_group_show. by destruct (groups d !! cn). Qed.

Lemma do_group_add_groups d cn params :
  groups_remain d (snd (Ipa.do_group_add cn params d)).
Proof.
  unfold Ipa.do_group_add. destruct (groups d !! cn) as [g0|] eqn:Hcn; [done|].
  repeat split. intros cn' g H. cbn.
  rewrite lookup_insert_ne; [done|]. intros ->. congruence.
Qed.

#[export] Hint Resolve do_user_show_users do_user_add_users do_user_mod_users
  do_user_lock_users do_group_show_groups do_group_add_groups : target_step.

(** [sanitize], one character at a time. *)
Lemma sanitize_cons (c : ascii) (r : string) :
  sanitize (String c r)
  = if Ascii.eqb c " " then String "-" (sanitize r)
    else if Ascii.eqb c "(" then sanitize r
    else if Ascii.eqb c ")" then sanitize r
    else String c (sanitize r).
Proof.
  unfold sanitize. cbn [Py.replace].
  destruct (Ascii.eqb_spec c " ") as [->|H1]; [reflexivity|].
  cbn [Py.replace].
  destruct (Ascii.eqb_spec c "(") as [->|H2]; [reflexivity|].
  cbn [Py.replace].
  destruct (Ascii.eqb_spec c ")") as [->|H3]; reflexivity.
Qed.

Lemma clean_sanitize (s : string) : clean_name (sanitize s) = true.
Proof.
  induction s as [|c r IH]; [reflexivity|].
  rewrite sanitize_cons.
  destruct (Ascii.eqb c " ") eqn:H1; [exact IH|].
  destruct (Ascii.eqb c "(") eqn:H2; [exact IH|].
  destruct (Ascii.eqb c ")") eqn:H3; [exact IH|].
  cbn [clean_name]. by rewrite H1, H2, H3, IH.
Qed.

Lemma sanitize_clean (s : string) : clean_name s = true → sanitize s = s.
Proof.
  induction s as [|c r IH]; [reflexivity|].
  cbn [clean_name]. rewrite !andb_true_iff, !negb_true_iff.
  intros [[[H1 H2] H3] Hr]. rewrite sanitize_cons, H1, H2, H3, IH; done.
Qed.

Section Frames.

Variables (cfg : config) (ad : source) (tgt : target).

Lemma users_sync_user dry_run force ad_user :
  keeps users_remain is_user_call (sync_user cfg tgt dry_run force ad_user).
Proof.
  unfold sync_user.
  destruct (sAMAccountName ad_user) as [username|]; [|keeps_prog].
  destruct (_ || _); [keeps_prog|].
  apply keeps_bind; [exact _ | apply keeps_map_user_attributes; exact _ |].
  intros ipa_user.
  unfold sync_user_handlers, sync_existing_user, create_user, ipa_user_show,
    ipa_user_mod, ipa_user_disable, ipa_user_enable, ipa_user_add.
  keeps_prog.
Qed.

Lemma groups_sync_group dry_run force ad_group :
  keeps groups_remain is_group_sync_call (sync_group cfg tgt dry_run force ad_group).
Proof.
  unfold sync_group.
  destruct (sAMAccountName ad_group) as [groupname|]; [|keeps_prog].
  destruct (_ || _); [keeps_prog|].
  apply keeps_bind; [exact _ | keeps_prog | intros _].
  cbv zeta. rewrite sanitized_name.
  unfold reconcile_group, ipa_group_show, ipa_group_add.
  keeps_prog; apply clean_sanitize.
Qed.

End Frames.

(** X5.  The user phase, dry or live, forced or not, issues only
    [user_show], [user_add], [user_mod], [user_disable] and [user_enable];
    it leaves groups and ID ranges as they were and deletes no user. *)
Theorem sync_users_frame (cfg : config) (ad : source) (tgt : target)
  (dry_run force : bool) (w : world) :
  run_extends users_remain is_user_call
    w (world_of (sync_users cfg ad tgt dry_run force w)).
Proof.
  revert w. change (keeps users_remain is_user_call
                      (sync_users cfg ad tgt dry_run force)).
  unfold sync_users.
  apply keeps_bind; [exact _ | keeps_prog | intros _].
  apply keeps_bind; [exact _ | apply keeps_get_ad_users; exact _ | intros us].
  apply keeps_for_each; [exact _ | intros u; apply users_sync_user].
Qed.

(** X6.  The group phase, dry or live, forced or not, issues only
    [group_show] and [group_add], always under a name without spaces and
    parentheses; it leaves users and ID ranges as they were and every
    group the target had exactly as it was: with [force] set it still
    modifies no existing group. *)
Theorem sync_groups_frame (cfg : config) (ad : source) (tgt : target)
  (dry_run force : bool) (w : world) :
  run_extends groups_remain is_group_sync_call
    w (world_of (sync_groups cfg ad tgt dry_run force w)).
Proof.
  revert w. change (keeps groups_remain is_group_sync_call
                      (sync_groups cfg ad tgt dry_run force)).
  unfold sync_groups.
  apply keeps_bind; [exact _ | keeps_prog | intros _].
  apply keeps_bind; [exact _ | apply keeps_get_ad_groups; exact _ | intros gs].
  apply keeps_for_each; [exact _ | intros g; apply groups_sync_group].
Qed.

(** ** Filters *)

Lemma str_in_elem_of (x : string) (l : list string) : str_in x l = true ↔ x ∈ l.
Proof.
  unfold str_in. rewrite existsb_exists. split.
  - intros (y & Hy & Heq). apply String.eqb_eq in Heq. subst y.
    by apply list_elem_of_In.
  - intros H. exists x. split; [by apply list_elem_of_In | apply String.eqb_refl].
Qed.

Lemma list_truthy_false {A} (l : list A) : list_truthy l = false ↔ l = [].
Proof. by destruct l. Qed.

Lemma should_sync_elem_of (include_filter exclude_filter : list string)
  (name : string) :
  should_sync include_filter exclude_filter name = true
  ↔ (include_filter = [] ∨ name ∈ include_filter) ∧ name ∉ exclude_filter.
Proof.
  unfold should_sync.
  assert (list_truthy exclude_filter && str_in name exclude_filter
          = str_in name exclude_filter) as -> by by destruct exclude_filter.
  destruct (str_in name exclude_filter) eqn:He.
  - split; [destruct (_ && _); discriminate|].
    intros [_ Hn]. exfalso. apply Hn. by apply str_in_elem_of.
  - assert (name ∉ exclude_filter) as Hn.
    { intros H%str_in_elem_of. congruence. }
    destruct include_filter as [|i inc]; cbn [list_truthy andb].
    + split; [intros _; split; [by left | done] | done].
    + destruct (str_in name (i :: inc)) eqn:Hi; cbn [negb].
      * split; [|done]. intros _. split; [|done]. right. by apply str_in_elem_of.
      * split; [discriminate|]. intros [[?|Hin] _]; [discriminate|].
        apply str_in_elem_of in Hin. congruence.
Qed.

(** X7.  A name passes the filters of [should_sync_user] and
    [should_sync_group] exactly when the include list is empty or holds
    it, and the exclude list does not hold it: exclusion wins over
    inclusion. *)
Theorem should_sync_iff (cfg : config) (name : string) :
  (should_sync_user cfg name = true
   ↔ (user_include_filter cfg = [] ∨ name ∈ user_include_filter cfg)
     ∧ name ∉ user_exclude_filter cfg)
  ∧ (should_sync_group cfg name = true
     ↔ (group_include_filter cfg = [] ∨ name ∈ group_include_filter cfg)
       ∧ name ∉ group_exclude_filter cfg).
Proof. split; apply should_sync_elem_of. Qed.

Lemma bump_skipped (s : stats_dict) :
  users_skipped (bump UsersSkipped s) = users_skipped s + 1
  ∧ users_created (bump UsersSkipped s) = users_created s
  ∧ users_updated (bump UsersSkipped s) = users_updated s
  ∧ users_disabled (bump UsersSkipped s) = users_disabled s
  ∧ users_enabled (bump UsersSkipped s) = users_enabled s
  ∧ groups_created (bump UsersSkipped s) = groups_created s
  ∧ groups_updated (bump UsersSkipped s) = groups_updated s
  ∧ memberships_added (bump UsersSkipped s) = memberships_added s.
Proof. by destruct s. Qed.

(** X8.  A source user without a login name, or whose name the filters
    reject, is counted in [users_skipped] and nothing else happens: no
    call to the target, no log line, and each of the seven other counters
    is as it was. *)
Theorem filtered_user_skipped (cfg : config) (tgt : target)
  (dry_run force : bool) (ad_user : ad_object) (w : world) :
  match sAMAccountName ad_user with
  | None => True
  | Some username =>
      username = ""
      ∨ (user_include_filter cfg ≠ [] ∧ username ∉ user_include_filter cfg)
      ∨ username ∈ user_exclude_filter cfg
  end →
  let r := sync_user cfg tgt dry_run force ad_user w in
  result_of r = Ok tt
  ∧ ipa (world_of r) = ipa w ∧ calls (world_of r) = calls w
  ∧ log (world_of r) = log w
  ∧ users_skipped (stats (world_of r)) = users_skipped (stats w) + 1
  ∧ users_created (stats (world_of r)) = users_created (stats w)
  ∧ users_updated (stats (world_of r)) = users_updated (stats w)
  ∧ users_disabled (stats (world_of r)) = users_disabled (stats w)
  ∧ users_enabled (stats (world_of r)) = users_enabled (stats w)
  ∧ groups_created (stats (world_of r)) = groups_created (stats w)
  ∧ groups_updated (stats (world_of r)) = groups_updated (stats w)
  ∧ memberships_added (stats (world_of r)) = memberships_added (stats w).
Proof.
  intros H. cbv zeta. unfold sync_user.
  pose proof (bump_skipped (stats w)) as Hbump.
  destruct (sAMAccountName ad_user) as [username|]; [|by cbn].
  assert (is_empty_string username || negb (should_sync_user cfg username)
          = true) as ->; [|by cbn].
  destruct H as [->|H]; [done|]. apply orb_true_iff. right.
  apply negb_true_iff, not_true_is_false.
  unfold should_sync_user. rewrite should_sync_elem_of. tauto.
Qed.

Lemma filtered_user_skipped_witness :
  let cfg' := {| cfg_id_range_base := None;
                 user_attribute_mapping := [];
                 default_email_domain := None;
                 user_include_filter := ["jdoe"];
                 user_exclude_filter := ["jdoe"];
                 group_include_filter := []; group_exclude_filter := [];
                 cfg_sync_users := true; cfg_sync_groups := true;
                 cfg_sync_group_memberships := true |} in
  let w := initial_world Example.empty_directory in
  let r := sync_user cfg' Example.tgt false true Example.jdoe w in
  result_of r = Ok tt ∧ calls (world_of r) = []
  ∧ users_skipped (stats (world_of r)) = 1
  ∧ users_updated (stats (world_of r)) = 0
  ∧ users_disabled (stats (world_of r)) = 0.
Proof.
  cbv zeta.
  edestruct (filtered_user_skipped) as (Hr & _ & Hc & _ & Hs & _ & Hu & Hd & _);
    [|split; [exact Hr | split; [exact Hc | split; [exact Hs |
       split; [exact Hu | exact Hd]]]]].
  cbn. right. right. set_solver.
Defined.

(** X9.  A source group without a name, or whose name the filters reject,
    is passed over by the group phase and by the membership phase alike:
    the world is exactly as it was. *)
Theorem filtered_group_ignored (cfg : config) (ad : source) (tgt : target)
  (order : set_order) (dry_run force : bool) (ad_group : ad_object)
  (w : world) :
  match sAMAccountName ad_group with
  | None => True
  | Some groupname =>
      groupname = ""
      ∨ (group_include_filter cfg ≠ [] ∧ groupname ∉ group_include_filter cfg)
      ∨ groupname ∈ group_exclude_filter cfg
  end →
  sync_group cfg tgt dry_run force ad_group w = (Ok tt, w)
  ∧ sync_membership cfg ad tgt order dry_run ad_group w = (Ok tt, w).
Proof.
  intros H. unfold sync_group, sync_membership.
  destruct (sAMAccountName ad_group) as [groupname|]; [|done].
  assert (is_empty_string groupname || negb (should_sync_group cfg groupname)
          = true) as ->; [|done].
  destruct H as [->|H]; [done|]. apply orb_true_iff. right.
  apply negb_true_iff, not_true_is_false.
  unfold should_sync_group. rewrite should_sync_elem_of. tauto.
Qed.

Lemma filtered_group_ignored_witness :
  let cfg' := {| cfg_id_range_base := None;
                 user_attribute_mapping := [];
                 default_email_domain := None;
                 user_include_filter := []; user_exclude_filter := [];
                 group_include_filter := ["admins"];
                 group_exclude_filter := [];
                 cfg_sync_users := true; cfg_sync_groups := true;
                 cfg_sync_group_memberships := true |} in
  let w := initial_world Example.empty_directory in
  sync_group cfg' Example.tgt false true Example.staff w = (Ok tt, w)
  ∧ sync_membership cfg' Example.ad Example.tgt Example.order false
      Example.staff w
    = (Ok tt, w).
Proof.
  cbv zeta. apply filtered_group_ignored.
  cbn. right. left. split; [done | set_solver].
Defined.

(** ** Failures of the target in the user phase *)

(** The mapping of a user does not depend on the world it runs in. *)
Lemma map_user_attributes_indep (cfg : config) (ad_user : ad_object)
  (w w' : world) :
  result_of (map_user_attributes cfg ad_user w)
  = result_of (map_user_attributes cfg ad_user w').
Proof.
  unfold map_user_attributes.
  destruct (mail_missing _); [|done].
  destruct (default_email_domain cfg) as [dom|]; [|done].
  destruct (_ !! "uid") as [uid|]; [|done].
  by destruct (is_empty_string dom).
Qed.

(** X10.  When the lookup of a user in scope fails with anything but
    NotFound, the failure is logged and the loop goes on: the iteration
    returns, the target and every counter are as they were, and the lookup
    is the only call. *)
Theorem user_lookup_failure_contained (cfg : config) (tgt : target)
  (dry_run force : bool) (ad_user : ad_object) (username : string)
  (w : world) :
  sAMAccountName ad_user = Some username →
  username ≠ "" →
  should_sync_user cfg username = true →
  ipa_rejects tgt (ipa w) (user_show username) = true →
  let r := sync_user cfg tgt dry_run force ad_user w in
  result_of r = Ok tt
  ∧ ipa (world_of r) = ipa w
  ∧ stats (world_of r) = stats w
  ∧ calls (world_of r) = (calls w ++ [user_show username])%list
  ∧ last (log (world_of r)) = Some (LogFailedSyncUser username FreeIPAError).
Proof.
  intros Hname Hne Hscope Hrej. cbv zeta.
  destruct (map_user_attributes_frame cfg ad_user w)
    as (m & w0 & Hrun & _).
  destruct (sync_user_in_scope cfg tgt dry_run force ad_user username m w)
    as (w1 & Hi & Hc & Hs & ->); try done.
  { by rewrite Hrun. }
  erewrite try_except_raise;
    [| unfold sync_existing_user; apply bind_raise; unfold ipa_user_show;
       apply invoke_rejected; by rewrite Hi
     | reflexivity].
  cbn. rewrite Hi, Hc, Hs. repeat split. apply last_snoc.
Qed.

Lemma user_lookup_failure_contained_witness :
  let tgt := {| ipa_connect_ok := true; ipa_rejects := λ _ _, true |} in
  let w := initial_world Example.empty_directory in
  let r := sync_user Example.cfg tgt false false Example.jdoe w in
  result_of r = Ok tt ∧ stats (world_of r) = stats w
  ∧ calls (world_of r) = [user_show "jdoe"].
Proof.
  cbv zeta.
  edestruct (user_lookup_failure_contained Example.cfg
               {| ipa_connect_ok := true; ipa_rejects := λ _ _, true |}
               false false Example.jdoe "jdoe"
               (initial_world Example.empty_directory))
    as (Hr & _ & Hs & Hc & _); [reflexivity | done | reflexivity | reflexivity |].
  split; [exact Hr | split; [exact Hs | exact Hc]].
Defined.

(** X11.  When the target refuses to add a user that it does not have, the
    exception leaves [sync_users]: the [except Exception] clause beside
    the [except NotFound] clause does not catch what that clause raises.
    The phase stops at this user, the users after it are not looked up,
    and no counter moves. *)
Theorem user_add_failure_escapes (cfg : config) (ad : source) (tgt : target)
  (force : bool) (ad_user : ad_object) (rest : list ad_object)
  (username : string) (ipa_user : gmap string atom) (w : world) :
  let create :=
    user_add (create_uid ipa_user username)
             (create_givenname ipa_user username)
             (create_sn ipa_user username)
             (create_cn ipa_user username)
             (user_add_params ipa_user) in
  ad_users ad = ad_user :: rest →
  sAMAccountName ad_user = Some username →
  username ≠ "" →
  should_sync_user cfg username = true →
  result_of (map_user_attributes cfg ad_user w) = Ok ipa_user →
  users (ipa w) !! username = None →
  ipa_rejects tgt (ipa w) (user_show username) = false →
  ipa_rejects tgt (ipa w) create = true →
  let r := sync_users cfg ad tgt false force w in
  result_of r = Raise FreeIPAError
  ∧ ipa (world_of r) = ipa w
  ∧ stats (world_of r) = stats w
  ∧ calls (world_of r) = (calls w ++ [user_show username; create])%list.
Proof.
  intros create Hus Hname Hne Hscope Hmap Habsent Hshow Hadd. cbv zeta.
  unfold sync_users.
  erewrite bind_ok; [|reflexivity].
  erewrite bind_ok; [|reflexivity].
  rewrite Hus. cbn [for_each].
  set (w0 := add_log _ (add_log _ w)).
  assert (sync_user cfg tgt false force ad_user w0
          = (Raise FreeIPAError,
             add_call create (add_call (user_show username)
               (snd (map_user_attributes cfg ad_user w0))))) as Hrun.
  { destruct (map_user_attributes_frame cfg ad_user w0)
      as (m & w1' & Hrun & Hi' & Hc' & Hs').
    assert (m = ipa_user) as ->.
    { rewrite (map_user_attributes_indep cfg ad_user w w0), Hrun in Hmap.
      cbn in Hmap. congruence. }
    unfold sync_user. rewrite Hname, (is_empty_string_false _ Hne), Hscope.
    cbn [orb negb]. erewrite bind_ok; [|exact Hrun]. rewrite Hrun. cbn [snd].
    erewrite try_except_raise;
      [| unfold sync_existing_user; apply bind_raise; unfold ipa_user_show;
         apply (invoke_accepted tgt _ _ w1' (Raise NotFound) (ipa w1'));
         [by rewrite Hi'
         | unfold Ipa.do_user_show; rewrite Hi'; change (ipa w0) with (ipa w);
           by rewrite Habsent]
       | reflexivity].
    unfold create_user. apply bind_raise, bind_raise.
    unfold ipa_user_add.
    rewrite invoke_rejected; [|cbn; by rewrite Hi'].
    reflexivity. }
  erewrite bind_raise; [|exact Hrun].
  destruct (map_user_attributes_frame cfg ad_user w0)
    as (m & w1' & Hrun' & Hi' & Hc' & Hs').
  rewrite Hrun'. cbn. rewrite Hi', Hc', Hs'. cbn.
  repeat split. by rewrite <- app_assoc.
Qed.

Lemma user_add_failure_escapes_witness :
  let tgt := {| ipa_connect_ok := true;
                ipa_rejects := λ _ c, negb (is_lookup c) |} in
  let w := initial_world Example.empty_directory in
  let r := sync_users Example.cfg Example.ad tgt false false w in
  result_of r = Raise FreeIPAError ∧ stats (world_of r) = stats w.
Proof.
  cbv zeta.
  edestruct (user_add_failure_escapes Example.cfg Example.ad
               {| ipa_connect_ok := true;
                  ipa_rejects := λ _ c, negb (is_lookup c) |}
               false Example.jdoe [] "jdoe" {[ "uid" := AStr "jdoe" ]}
               (initial_world Example.empty_directory))
    as (Hr & _ & Hs & _);
    [reflexivity | reflexivity | done | reflexivity | reflexivity
    | reflexivity | reflexivity | reflexivity |].
  split; [exact Hr | exact Hs].
Defined.

(** ** Programs that return *)

Section Yields.

Context {A : Type} (R : A → Prop).

Lemma yields_ret (a : A) : R a → yields R (mret a).
Proof. intros H w. by exists a. Qed.

Lemma yields_bind {B} (R1 : B → Prop) (m : prog B) (k : B → prog A) :
  yields R1 m → (∀ b, R1 b → yields R (k b)) → yields R (m ≫= k).
Proof.
  intros Hm Hk w. destruct (Hm w) as (b & Hb & HR).
  unfold mbind, prog_bind. destruct (m w) as [r w1]. cbn in Hb. subst r.
  by apply Hk.
Qed.

Lemma yields_try_except_total (body : prog A) (handler : pyexn → option (prog A)) :
  (∀ w a, result_of (body w) = Ok a → R a) →
  (∀ e, ∃ h, handler e = Some h ∧ yields R h) →
  yields R (try_except body handler).
Proof.
  intros Hb Hh w. unfold try_except. destruct (body w) as [[a|e] w1] eqn:E.
  - exists a. split; [done|]. apply (Hb w). by rewrite E.
  - destruct (Hh e) as (h & -> & Hy). apply Hy.
Qed.

Lemma yields_try_finally (body : prog A) (final : prog unit) :
  yields R body → yields anything final → yields R (try_finally body final).
Proof.
  intros Hb Hf w. unfold try_finally. destruct (Hb w) as (a & Ha & HR).
  destruct (body w) as [r w1]. cbn in Ha. subst r.
  destruct (Hf w1) as (u & Hu & _).
  destruct (final w1) as [[?|?] w2]; cbn in Hu; [|discriminate]. by exists a.
Qed.

End Yields.

Lemma yields_logger (e : log_event) : yields anything (logger e).
Proof. intros w. by exists tt. Qed.

Lemma yields_incr (k : stat_key) : yields anything (incr k).
Proof. intros w. by exists tt. Qed.

Lemma yields_unit_bind {B} (m : prog B) (k : B → prog unit) :
  yields anything m → (∀ b, yields anything (k b)) → yields anything (m ≫= k).
Proof. intros Hm Hk. eapply yields_bind; [exact Hm | intros b _; apply Hk]. Qed.

Lemma yields_when (b : bool) (m : prog unit) :
  yields anything m → yields anything (when b m).
Proof. intros Hm. destruct b; [exact Hm | by apply yields_ret]. Qed.

Lemma yields_for_each {X} (l : list X) (body : X → prog unit) :
  (∀ x, yields anything (body x)) → yields anything (for_each l body).
Proof.
  intros Hb. induction l as [|x l IH]; [by apply yields_ret|].
  cbn [for_each]. apply yields_unit_bind; [apply Hb | intros _; exact IH].
Qed.

(** A [try] statement whose clauses catch everything and return. *)
Lemma yields_caught (body : prog unit) (handler : pyexn → option (prog unit)) :
  (∀ e, ∃ h, handler e = Some h ∧ yields anything h) →
  yields anything (try_except body handler).
Proof. intros H. by apply yields_try_except_total. Qed.

Section Returns.

Variables (cfg : config) (ad : source) (tgt : target) (order : set_order).

Lemma yields_map_user_attributes ad_user :
  yields anything (map_user_attributes cfg ad_user).
Proof.
  intros w. destruct (map_user_attributes_frame cfg ad_user w)
    as (m & w1 & Hrun & _).
  exists m. by rewrite Hrun.
Qed.

Lemma yields_get_ad_users : yields anything (get_ad_users ad).
Proof. intros w. by eexists. Qed.

Lemma yields_get_ad_groups : yields anything (get_ad_groups ad).
Proof. intros w. by eexists. Qed.

Lemma dry_sync_user_returns force ad_user :
  yields anything (sync_user cfg tgt true force ad_user).
Proof.
  unfold sync_user.
  destruct (sAMAccountName ad_user) as [username|]; [|apply yields_incr].
  destruct (_ || _); [apply yields_incr|].
  apply yields_unit_bind; [apply yields_map_user_attributes|].
  intros ipa_user. apply yields_caught. intros e.
  destruct e; (eexists; split; [reflexivity|]);
    try apply yields_logger.
  unfold create_user.
  apply yields_unit_bind; [apply yields_logger | intros _; apply yields_incr].
Qed.

Lemma dry_sync_group_returns force ad_group :
  yields anything (sync_group cfg tgt true force ad_group).
Proof.
  unfold sync_group.
  destruct (sAMAccountName ad_group) as [groupname|]; [|by apply yields_ret].
  destruct (_ || _); [by apply yields_ret|].
  apply yields_unit_bind; [apply yields_when, yields_logger | intros _].
  cbv zeta. unfold reconcile_group. apply yields_caught. intros e.
  destruct e; (eexists; split; [reflexivity|]);
    try apply yields_logger.
  apply yields_unit_bind; [apply yields_logger | intros _; apply yields_incr].
Qed.

Lemma yields_resolve_member names member_dn :
  yields anything (resolve_member ad names member_dn).
Proof.
  unfold resolve_member. destruct names as [us gs].
  apply yields_try_except_total; [done|].
  intros e. eexists. split; [reflexivity|].
  eapply yields_bind; [apply yields_logger | intros _ _; by apply yields_ret].
Qed.

Lemma yields_resolve_members members names :
  yields anything (resolve_members ad members names).
Proof.
  revert names. induction members as [|m r IH]; intros names;
    cbn [resolve_members]; [by apply yields_ret|].
  eapply yields_bind; [apply yields_resolve_member | intros ? _; apply IH].
Qed.

Lemma sync_membership_returns dry_run ad_group :
  yields anything (sync_membership cfg ad tgt order dry_run ad_group).
Proof.
  unfold sync_membership.
  destruct (sAMAccountName ad_group) as [groupname|]; [|by apply yields_ret].
  destruct (_ || _); [by apply yields_ret|].
  apply yields_unit_bind; [apply yields_when, yields_logger | intros _].
  cbv zeta. apply yields_unit_bind; [apply yields_resolve_members|].
  intros [us gs]. unfold reconcile_members. apply yields_caught.
  intros e. eexists. split; [reflexivity | apply yields_logger].
Qed.

Lemma sync_memberships_returns dry_run :
  yields anything (sync_memberships cfg ad tgt order dry_run).
Proof.
  unfold sync_memberships.
  apply yields_unit_bind; [apply yields_logger | intros _].
  apply yields_unit_bind; [apply yields_get_ad_groups | intros gs].
  apply yields_for_each. intros g. apply sync_membership_returns.
Qed.

Lemma dry_sync_phases_returns force_users force_groups :
  yields (eq true) (sync_phases cfg ad tgt order true force_users force_groups).
Proof.
  unfold sync_phases.
  eapply (yields_bind _ anything).
  { apply yields_when. unfold sync_users.
    apply yields_unit_bind; [apply yields_logger | intros _].
    apply yields_unit_bind; [apply yields_get_ad_users | intros us].
    apply yields_for_each. intros u. apply dry_sync_user_returns. }
  intros _ _. eapply (yields_bind _ anything).
  { apply yields_when. unfold sync_groups.
    apply yields_unit_bind; [apply yields_logger | intros _].
    apply yields_unit_bind; [apply yields_get_ad_groups | intros gs].
    apply yields_for_each. intros g. apply dry_sync_group_returns. }
  intros _ _. eapply (yields_bind _ anything).
  { apply yields_when, sync_memberships_returns. }
  intros _ _ w. by eexists.
Qed.

End Returns.

(** X12.  The membership phase never raises, dry or live: a member that
    cannot be resolved, a group that cannot be looked up and an addition
    that the target refuses are all logged and passed over. *)
Theorem sync_memberships_never_raises (cfg : config) (ad : source)
  (tgt : target) (order : set_order) (dry_run : bool) (w : world) :
  result_of (sync_memberships cfg ad tgt order dry_run w) = Ok tt.
Proof.
  destruct (sync_memberships_returns cfg ad tgt order dry_run w) as ([] & H & _).
  exact H.
Qed.

(** X13.  A dry run of [sync] never raises, whatever the source holds and
    whatever the target answers: it returns [True] when both connections
    succeed and [False] otherwise. *)
Theorem dry_run_sync_returns (cfg : config) (ad : source) (tgt : target)
  (order : set_order) (force_users force_groups : bool) (w : world) :
  result_of (sync cfg ad tgt order true force_users force_groups w)
  = Ok (ad_connect_ok ad && ipa_connect_ok tgt).
Proof.
  assert (yields (eq (ad_connect_ok ad && ipa_connect_ok tgt))
            (sync cfg ad tgt order true force_users force_groups)) as H.
  { unfold sync, connect_ad, connect_ipa.
    eapply (yields_bind _ anything); [apply yields_when, yields_logger|].
    intros _ _.
    destruct (ad_connect_ok ad); cbn [andb].
    2:{ eapply (yields_bind _ (eq false)).
        - eapply (yields_bind _ anything); [apply yields_logger|].
          intros _ _. by apply yields_ret.
        - intros ? <-. by apply yields_ret. }
    eapply (yields_bind _ (eq true)).
    { eapply (yields_bind _ anything); [apply yields_logger|].
      intros _ _. by apply yields_ret. }
    intros ? <-. cbn [negb].
    destruct (ipa_connect_ok tgt).
    2:{ eapply (yields_bind _ (eq false)).
        - eapply (yields_bind _ anything); [apply yields_logger|].
          intros _ _. by apply yields_ret.
        - intros ? <-. by apply yields_ret. }
    eapply (yields_bind _ (eq true)).
    { eapply (yields_bind _ anything); [apply yields_logger|].
      intros _ _. by apply yields_ret. }
    intros ? <-. cbn [negb].
    eapply (yields_bind _ anything).
    { intros w0. exists true. split; [|done].
      apply ensure_id_range_result. }
    intros _ _. apply yields_try_finally; [|apply yields_logger].
    apply dry_sync_phases_returns. }
  destruct (H w) as (b & Hb & <-). exact Hb.
Qed.

(** ** The orchestrator *)

Section Orchestrator.

Variables (cfg : config) (ad : source) (tgt : target) (order : set_order).
Variables (dry_run force_users force_groups : bool).

(** The world after the opening log lines of a run whose connections
    succeed. *)
Lemma sync_connected (w : world) :
  ad_connect_ok ad = true → ipa_connect_ok tgt = true →
  ∃ w0, ipa w0 = ipa w ∧ calls w0 = calls w ∧ stats w0 = stats w
    ∧ sync cfg ad tgt order dry_run force_users force_groups w
      = (ensure_id_range cfg tgt ;;
         try_finally (sync_phases cfg ad tgt order dry_run force_users force_groups)
                     (logger LogDisconnected)) w0.
Proof.
  intros Had Hipa. unfold sync, connect_ad, connect_ipa. rewrite Had, Hipa.
  destruct dry_run; eexists; (split; [|split; [|split; [|reflexivity]]]); done.
Qed.

Lemma sync_unconnected (w : world) :
  ad_connect_ok ad && ipa_connect_ok tgt = false →
  let r := sync cfg ad tgt order dry_run force_users force_groups w in
  result_of r = Ok false
  ∧ ipa (world_of r) = ipa w ∧ calls (world_of r) = calls w
  ∧ stats (world_of r) = stats w.
Proof.
  intros H. cbv zeta. unfold sync, connect_ad, connect_ipa.
  destruct (ad_connect_ok ad), (ipa_connect_ok tgt); try discriminate;
    by destruct dry_run.
Qed.

Lemma ensure_id_range_then {A} (k : prog A) (w : world) :
  (ensure_id_range cfg tgt ;; k) w = k (world_of (ensure_id_range cfg tgt w)).
Proof.
  destruct (ensure_id_range_result cfg tgt w) as [Hr _].
  unfold mbind, prog_bind. destruct (ensure_id_range cfg tgt w) as [r w1].
  cbn in Hr. by subst r.
Qed.

Lemma try_finally_logger {A} (body : prog A) (e : log_event) (w : world) :
  try_finally body (logger e) w
  = (result_of (body w), add_log e (world_of (body w))).
Proof. unfold try_finally. by destruct (body w). Qed.

(** The [try] block returns [True] or raises, and what it logs last when
    it returns is the summary of the counters. *)
Lemma sync_phases_result (w : world) (b : bool) :
  result_of (sync_phases cfg ad tgt order dry_run force_users force_groups w) = Ok b →
  b = true
  ∧ ∃ l, log (world_of (sync_phases cfg ad tgt order dry_run force_users
                                    force_groups w))
         = (l ++ [LogSummary
                    (stats (world_of (sync_phases cfg ad tgt order dry_run
                                        force_users force_groups w)))])%list.
Proof.
  unfold sync_phases, mbind, prog_bind.
  destruct (when (cfg_sync_users cfg) _ w) as [[u1|e1] w1]; [|discriminate].
  destruct (when (cfg_sync_groups cfg) _ w1) as [[u2|e2] w2]; [|discriminate].
  destruct (when (cfg_sync_group_memberships cfg) _ w2) as [[u3|e3] w3];
    [|discriminate].
  cbn. intros [= <-]. split; [done|]. by exists (log w3).
Qed.

End Orchestrator.

(** X14.  [sync] returns [False] exactly when one of the two connections
    fails, and then it has issued no call to the target and moved no
    counter. *)
Theorem sync_false_iff_unconnected (cfg : config) (ad : source) (tgt : target)
  (order : set_order) (dry_run force_users force_groups : bool) (w : world) :
  let r := sync cfg ad tgt order dry_run force_users force_groups w in
  (result_of r = Ok false ↔ ad_connect_ok ad && ipa_connect_ok tgt = false)
  ∧ (result_of r = Ok false →
     ipa (world_of r) = ipa w ∧ calls (world_of r) = calls w
     ∧ stats (world_of r) = stats w).
Proof.
  cbv zeta.
  assert (result_of (sync cfg ad tgt order dry_run force_users force_groups w)
          = Ok false → ad_connect_ok ad && ipa_connect_ok tgt = false) as Hun.
  { intros Hr. destruct (ad_connect_ok ad) eqn:Had; [|done].
    destruct (ipa_connect_ok tgt) eqn:Hipa; [|done]. exfalso.
    destruct (sync_connected cfg ad tgt order dry_run force_users force_groups w
                Had Hipa) as (w0 & _ & _ & _ & Heq).
    rewrite Heq, ensure_id_range_then, try_finally_logger in Hr. cbn in Hr.
    by apply sync_phases_result in Hr as [? _]. }
  split; [split; [exact Hun|] |].
  - intros H. by apply sync_unconnected.
  - intros Hr. by apply sync_unconnected, Hun.
Qed.

(** X15.  When both connections succeed, the last line [sync] logs is
    "Disconnected", whether the phases return or raise; and when [sync]
    returns [True], the line before it is the summary, which shows the
    counters as they are at the end of the run. *)
Theorem sync_always_disconnects (cfg : config) (ad : source) (tgt : target)
  (order : set_order) (dry_run force_users force_groups : bool) (w : world) :
  ad_connect_ok ad = true → ipa_connect_ok tgt = true →
  let r := sync cfg ad tgt order dry_run force_users force_groups w in
  last (log (world_of r)) = Some LogDisconnected
  ∧ (result_of r = Ok true →
     ∃ l, log (world_of r)
          = (l ++ [LogSummary (stats (world_of r)); LogDisconnected])%list).
Proof.
  intros Had Hipa. cbv zeta.
  destruct (sync_connected cfg ad tgt order dry_run force_users force_groups w
              Had Hipa) as (w0 & _ & _ & _ & ->).
  rewrite ensure_id_range_then, try_finally_logger. cbn.
  split; [apply last_snoc|].
  intros Hr. apply sync_phases_result in Hr as [_ [l ->]].
  exists l. by rewrite <- app_assoc.
Qed.

Lemma sync_always_disconnects_witness :
  let tgt := {| ipa_connect_ok := true;
                ipa_rejects := λ _ c, negb (is_lookup c) |} in
  let r := sync Example.cfg Example.ad tgt Example.order false false false
                (initial_world Example.empty_directory) in
  result_of r = Raise FreeIPAError
  ∧ last (log (world_of r)) = Some LogDisconnected.
Proof.
  cbv zeta. split; [reflexivity|].
  apply (sync_always_disconnects Example.cfg Example.ad
           {| ipa_connect_ok := true;
              ipa_rejects := λ _ c, negb (is_lookup c) |} Example.order);
    reflexivity.
Defined.

Section DryPhases.

Variables (cfg : config) (ad : source) (tgt : target) (order : set_order).

Lemma dry_sync_phases_keeps force_users force_groups :
  keeps eq only_lookups (sync_phases cfg ad tgt order true force_users force_groups).
Proof.
  unfold sync_phases, sync_users, sync_groups, sync_memberships.
  apply keeps_bind; [exact _ | | intros _].
  { apply keeps_when; [exact _|].
    apply keeps_bind; [exact _ | keeps_prog | intros _].
    apply keeps_bind; [exact _ | apply keeps_get_ad_users; exact _ | intros us].
    apply keeps_for_each; [exact _ | intros u; apply dry_sync_user]. }
  apply keeps_bind; [exact _ | | intros _].
  { apply keeps_when; [exact _|].
    apply keeps_bind; [exact _ | keeps_prog | intros _].
    apply keeps_bind; [exact _ | apply keeps_get_ad_groups; exact _ | intros gs].
    apply keeps_for_each; [exact _ | intros g; apply dry_sync_group]. }
  apply keeps_bind; [exact _ | | intros _; keeps_prog].
  apply keeps_when; [exact _|].
  apply keeps_bind; [exact _ | keeps_prog | intros _].
  apply keeps_bind; [exact _ | apply keeps_get_ad_groups; exact _ | intros gs].
  apply keeps_for_each; [exact _ | intros g; apply dry_sync_membership].
Qed.

End DryPhases.

Lemma do_idrange_show_same d name : d = snd (Ipa.do_idrange_show name d).
Proof. unfold Ipa.do_idrange_show. by case_bool_decide. Qed.

#[export] Hint Resolve do_idrange_show_same : target_step.

(** The range setup sends its lookup and nothing else. *)
Lemma ensure_id_range_read_only (cfg : config) (tgt : target) :
  keeps eq only_lookups (ensure_id_range cfg tgt).
Proof.
  unfold ensure_id_range. rewrite ipa_idrange_add_unbound.
  unfold ipa_idrange_show. keeps_prog.
Qed.

(** X16.  A dry run of [sync] leaves the target directory as it was and
    sends only lookups, for every source, every target and all flags.
    This holds although [sync] ensures the ID range before it looks at
    [dry_run]: of [ensure_id_range] only the lookup reaches the target,
    its [idrange_add] raises before a request is sent. *)
Theorem dry_run_sync_read_only (cfg : config) (ad : source) (tgt : target)
  (order : set_order) (force_users force_groups : bool) (w : world) :
  run_extends eq only_lookups
    w (world_of (sync cfg ad tgt order true force_users force_groups w)).
Proof.
  revert w. change (keeps eq only_lookups
                      (sync cfg ad tgt order true force_users force_groups)).
  unfold sync.
  apply keeps_bind; [exact _ | keeps_prog | intros _].
  apply keeps_bind; [exact _ | apply keeps_connect_ad; exact _ | intros ad_ok].
  destruct (negb ad_ok); [keeps_prog|].
  apply keeps_bind; [exact _ | apply keeps_connect_ipa; exact _ | intros ipa_ok].
  destruct (negb ipa_ok); [keeps_prog|].
  apply keeps_bind; [exact _ | apply ensure_id_range_read_only | intros _].
  apply keeps_try_finally; [exact _ | | keeps_prog].
  apply dry_sync_phases_keeps.
Qed.

(** ** Attribute mapping *)

Section Mapping.

Variables (cfg : config) (ad_user : ad_object).

Lemma map_attribute_from_source (mapping : list (string * string))
  (acc : gmap string atom) (item : string * string) :
  (∀ k v, acc !! k = Some v → from_source ad_user mapping k v) →
  ∀ k v, map_attribute (attributes ad_user) acc item !! k = Some v →
         from_source ad_user (mapping ++ [item]) k v.
Proof.
  intros Hacc k v. destruct item as [ad_attr ipa_attr].
  assert (∀ k v, acc !! k = Some v → from_source ad_user (mapping ++ [(ad_attr, ipa_attr)]) k v)
    as Hacc'.
  { intros k' v' H. destruct (Hacc _ _ H) as [Ht (a & Hin & Hv)].
    split; [done|]. exists a. split; [|done]. apply elem_of_app. by left. }
  unfold map_attribute.
  destruct (attributes ad_user !! ad_attr) as [val|] eqn:Hval; [|apply Hacc'].
  destruct (truthy val) eqn:Hty; [|apply Hacc'].
  set (value := match val with
                | PAtom a => a
                | PList l => match l with a :: _ => a | [] => ANone end
                end).
  destruct (atom_truthy value) eqn:Hvt; [|apply Hacc'].
  destruct (decide (ipa_attr = k)) as [->|Hne].
  - rewrite lookup_insert_eq. intros [= <-]. split; [done|].
    exists ad_attr. split; [apply elem_of_app; right; by apply list_elem_of_singleton|].
    rewrite Hval. subst value. destruct val as [a|[|a l]]; done.
  - rewrite lookup_insert_ne by done. apply Hacc'.
Qed.

Lemma fold_map_attribute_from_source (items mapping : list (string * string))
  (acc : gmap string atom) :
  (∀ k v, acc !! k = Some v → from_source ad_user mapping k v) →
  ∀ k v, fold_left (map_attribute (attributes ad_user)) items acc !! k = Some v →
         from_source ad_user (mapping ++ items) k v.
Proof.
  revert mapping acc. induction items as [|item items IH]; intros mapping acc Hacc.
  - rewrite app_nil_r. exact Hacc.
  - cbn [fold_left]. intros k v H.
    replace (mapping ++ item :: items)%list with ((mapping ++ [item]) ++ items)%list
      by by rewrite <- app_assoc.
    eapply IH; [|exact H]. by apply map_attribute_from_source.
Qed.

Lemma mapped_attributes_from_source (k : string) (v : atom) :
  mapped_attributes cfg ad_user !! k = Some v →
  from_source ad_user (user_attribute_mapping cfg) k v.
Proof.
  intros H. apply (fold_map_attribute_from_source _ [] ∅); [|exact H].
  intros k' v'. by rewrite lookup_empty.
Qed.

Lemma mail_missing_mapped :
  mail_missing (mapped_attributes cfg ad_user)
  = bool_decide (mapped_attributes cfg ad_user !! "mail" = None).
Proof.
  unfold mail_missing.
  destruct (mapped_attributes cfg ad_user !! "mail") as [m|] eqn:Hm; [|done].
  apply mapped_attributes_from_source in Hm as [-> _]. done.
Qed.

Lemma generated_mail_truthy (uid : atom) (dom : string) :
  atom_truthy (AStr (str_of_atom uid ++ "@" ++ dom)) = true.
Proof. cbn. by destruct (str_of_atom uid). Qed.

End Mapping.

(** X17.  [map_user_attributes] always returns, and every entry of its
    result is a truthy value: either the value, or the first element of
    the list value, of a source attribute that the configured mapping
    sends to that key, or, under ['mail'], the address generated from the
    mapped ['uid'] and the configured domain.  Empty and missing source
    values are never mapped. *)
Theorem mapped_values_from_source (cfg : config) (ad_user : ad_object)
  (w : world) :
  ∃ m, result_of (map_user_attributes cfg ad_user w) = Ok m
    ∧ ∀ k v, m !! k = Some v →
        atom_truthy v = true
        ∧ ((∃ ad_attr, (ad_attr, k) ∈ user_attribute_mapping cfg
                       ∧ first_value (attributes ad_user !! ad_attr) = Some v)
           ∨ (k = "mail"
              ∧ ∃ uid dom, default_email_domain cfg = Some dom ∧ dom ≠ ""
                           ∧ m !! "uid" = Some uid
                           ∧ v = AStr (str_of_atom uid ++ "@" ++ dom))).
Proof.
  unfold map_user_attributes. fold (mapped_attributes cfg ad_user).
  pose proof (mapped_attributes_from_source cfg ad_user) as Hsrc.
  unfold from_source in Hsrc.
  destruct (mail_missing _);
    [|eexists; split; [reflexivity|];
      intros k v H; destruct (Hsrc k v H); split; [done | by left]].
  destruct (default_email_domain cfg) as [dom|] eqn:Hdom;
    [|eexists; split; [reflexivity|];
      intros k v H; destruct (Hsrc k v H); split; [done | by left]].
  destruct (mapped_attributes cfg ad_user !! "uid") as [uid|] eqn:Huid;
    [|eexists; split; [reflexivity|];
      intros k v H; destruct (Hsrc k v H); split; [done | by left]].
  destruct dom as [|c dom];
    [eexists; split; [reflexivity|];
     intros k v H; destruct (Hsrc k v H); split; [done | by left]|].
  cbn [is_empty_string].
  eexists. split; [reflexivity|]. intros k v.
  destruct (decide ("mail" = k)) as [<-|Hne].
  - rewrite lookup_insert_eq. intros [= <-].
    split; [apply generated_mail_truthy|]. right. split; [done|].
    exists uid, (String c dom). rewrite lookup_insert_ne by done. done.
  - rewrite lookup_insert_ne by done. intros H.
    destruct (Hsrc k v H). split; [done | by left].
Qed.

(** X18.  A mail address that the mapping yields is kept as it is.  One is
    generated, as "<uid>@<default_email_domain>", exactly when the mapping
    yields none, the domain is configured and not empty, and the mapping
    yields a ['uid']; nothing else of the mapped dictionary changes. *)
Theorem generated_mail (cfg : config) (ad_user : ad_object) (w : world) :
  let mapped := mapped_attributes cfg ad_user in
  result_of (map_user_attributes cfg ad_user w)
  = Ok match mapped !! "mail", default_email_domain cfg, mapped !! "uid" with
       | None, Some dom, Some uid =>
           if is_empty_string dom then mapped
           else <["mail" := AStr (str_of_atom uid ++ "@" ++ dom)]> mapped
       | _, _, _ => mapped
       end.
Proof.
  cbv zeta. unfold map_user_attributes. fold (mapped_attributes cfg ad_user).
  rewrite mail_missing_mapped.
  destruct (mapped_attributes cfg ad_user !! "mail") as [m|] eqn:Hm.
  { rewrite bool_decide_eq_false_2 by done. done. }
  rewrite bool_decide_eq_true_2 by done.
  destruct (default_email_domain cfg) as [dom|]; [|done].
  destruct (mapped_attributes cfg ad_user !! "uid") as [uid|]; [|done].
  by destruct (is_empty_string dom).
Qed.

(** ** The lock state after a live run *)

Lemma kmap_option_name_None (m : gmap string pyval) (key : string) :
  (∀ k v, m !! k = Some v → Ipa.option_name k ≠ key) →
  (kmap Ipa.option_name m : gmap string pyval) !! key = None.
Proof.
  intros H. unfold kmap. apply not_elem_of_list_to_map_1.
  intros Hin. apply list_elem_of_fmap in Hin as ([k' v'] & Hk & Hin).
  apply list_elem_of_fmap in Hin as ([k v] & Hkv & Hin).
  cbn in Hk, Hkv. inversion Hkv; subst k' v'.
  apply elem_of_map_to_list in Hin. by apply (H k v).
Qed.

Lemma copy_option_keys (ipa_user : gmap string atom) (ks : list string)
  (acc : gmap string pyval) (k : string) (v : pyval) :
  fold_left (copy_option ipa_user) ks acc !! k = Some v →
  acc !! k = Some v ∨ ∃ k0, k0 ∈ ks ∧ k = "o_" ++ k0.
Proof.
  revert acc. induction ks as [|k0 ks IH]; intros acc; cbn [fold_left].
  - by left.
  - intros H. destruct (IH _ H) as [Hacc|(k1 & Hin & ->)].
    + unfold copy_option in Hacc. destruct (ipa_user !! k0) as [a|].
      * destruct (decide ("o_" ++ k0 = k)) as [<-|Hne].
        -- right. exists k0. split; [apply list_elem_of_here | done].
        -- rewrite lookup_insert_ne in Hacc by done. by left.
      * by left.
    + right. exists k1. split; [by apply list_elem_of_further | done].
Qed.

Lemma user_mod_params_no_lock (ipa_user : gmap string atom) :
  (kmap Ipa.option_name (user_mod_params ipa_user) : gmap string pyval)
    !! "nsaccountlock" = None.
Proof.
  apply kmap_option_name_None. intros k v H.
  apply copy_option_keys in H as [H|(k0 & Hin & ->)]; [by rewrite lookup_empty in H|].
  repeat (apply elem_of_cons in Hin as [->|Hin]; [by vm_compute|]).
  by apply elem_of_nil in Hin.
Qed.

Lemma user_add_params_no_lock (ipa_user : gmap string atom) :
  (kmap Ipa.option_name (user_add_params ipa_user) : gmap string pyval)
    !! "nsaccountlock" = None.
Proof.
  apply kmap_option_name_None. intros k v H.
  apply copy_option_keys in H as [H|(k0 & Hin & ->)]; [by rewrite lookup_empty in H|].
  repeat (apply elem_of_cons in Hin as [->|Hin]; [by vm_compute|]).
  by apply elem_of_nil in Hin.
Qed.

Lemma entry_locked_insert (b : bool) (entry : gmap string pyval) :
  entry_locked (<["nsaccountlock" := PAtom (ABool b)]> entry) = b.
Proof. unfold entry_locked. by rewrite lookup_insert_eq. Qed.

Lemma entry_locked_updated (ipa_user : gmap string atom)
  (entry : gmap string pyval) :
  entry_locked (kmap Ipa.option_name (user_mod_params ipa_user) ∪ entry)
  = entry_locked entry.
Proof.
  unfold entry_locked.
  by rewrite lookup_union_r by apply user_mod_params_no_lock.
Qed.


Lemma new_entry_unlocked (uid givenname sn cn : atom)
  (params : gmap string pyval) :
  (kmap Ipa.option_name params : gmap string pyval) !! "nsaccountlock" = None →
  entry_locked
    (kmap Ipa.option_name params ∪
     {[ "uid" := PAtom uid; "givenname" := PAtom givenname;
        "sn" := PAtom sn; "cn" := PAtom cn;
        "nsaccountlock" := PAtom (ABool false) ]}) = false.
Proof.
  intros H. unfold entry_locked. rewrite lookup_union_r by done.
  rewrite !lookup_insert_ne by done. by rewrite lookup_singleton_eq.
Qed.

Section LockState.

Variables (tgt : target) (username : string).

(** The target refuses nothing, except that it may refuse to disable a
    user who is locked already. *)
Hypothesis refuses_only_repeated_disable :
  ∀ d c, ipa_rejects tgt d c = true →
    c = user_disable username
    ∧ ∃ entry, users d !! username = Some entry ∧ entry_locked entry = true.

Lemma accepts_other (d : directory) (c : ipa_call) :
  c ≠ user_disable username → ipa_rejects tgt d c = false.
Proof.
  intros Hc. destruct (ipa_rejects tgt d c) eqn:E; [|done].
  by apply refuses_only_repeated_disable in E as [-> _].
Qed.

(** Disabling a user that the directory has: the user is locked
    afterwards, whether the call is carried out or refused, and the call
    is refused only when the user is locked. *)
Lemma disable_locks (w : world) (entry : gmap string pyval) :
  users (ipa w) !! username = Some entry →
  ∃ r w' entry',
    ipa_user_disable tgt username w = (r, w')
    ∧ users (ipa w') !! username = Some entry'
    ∧ entry_locked entry' = true
    ∧ (r = Ok tt ∨ r = Raise FreeIPAError ∧ entry_locked entry = true).
Proof.
  intros Hentry. unfold ipa_user_disable, invoke.
  destruct (ipa_rejects tgt (ipa w) (user_disable username)) eqn:E.
  - apply refuses_only_repeated_disable in E as [_ (e & He & Hl)].
    rewrite Hentry in He. inversion He; subst e.
    eexists _, _, entry. split; [reflexivity|]. split; [done|].
    split; [done|]. by right.
  - unfold Ipa.do_user_lock. rewrite Hentry. cbn.
    eexists _, _, _. split; [reflexivity|].
    split; [apply lookup_insert_eq|]. split; [apply entry_locked_insert|].
    by left.
Qed.

(** The attribute update that [force] adds keeps the user and its lock. *)
Lemma update_keeps_lock (force : bool) (ipa_user : gmap string atom)
  (w : world) (existing : gmap string pyval) :
  users (ipa w) !! username = Some existing →
  ∃ w' entry,
    when force
      (let params := user_mod_params ipa_user in
       when (negb (bool_decide (params = ∅)))
            (ipa_user_mod tgt username params)) w = (Ok tt, w')
    ∧ users (ipa w') !! username = Some entry
    ∧ entry_locked entry = entry_locked existing.
Proof.
  intros Hentry. destruct force; [|by eexists _, _].
  cbn [when]. cbv zeta.
  destruct (bool_decide (user_mod_params ipa_user = ∅)); [by eexists _, _|].
  cbn [negb when]. unfold ipa_user_mod, invoke.
  rewrite accepts_other by done.
  unfold Ipa.do_user_mod. rewrite Hentry. cbn.
  eexists _, _. split; [reflexivity|].
  split; [apply lookup_insert_eq | apply entry_locked_updated].
Qed.

Lemma existing_user_locked (force : bool) (ipa_user : gmap string atom)
  (is_disabled : bool) (w : world) (existing : gmap string pyval) :
  users (ipa w) !! username = Some existing →
  ∃ w' entry,
    try_except
      (sync_existing_user tgt false force username ipa_user is_disabled)
      (sync_user_handlers tgt false username ipa_user is_disabled) w
    = (Ok tt, w')
    ∧ users (ipa w') !! username = Some entry
    ∧ entry_locked entry = is_disabled || entry_locked existing.
Proof.
  intros Hentry. unfold sync_existing_user.
  set (w1 := set_ipa (ipa w) (add_call (user_show username) w)).
  assert (ipa_user_show tgt username w = (Ok (reply_of username existing), w1))
    as Hshow.
  { unfold ipa_user_show. apply invoke_accepted; [by apply accepts_other|].
    unfold Ipa.do_user_show. by rewrite Hentry. }
  destruct (update_keeps_lock force ipa_user w1 existing Hentry)
    as (w2 & entry1 & Hmod & Hentry1 & Hlock1).
  unfold try_except. erewrite bind_ok; [|exact Hshow].
  rewrite ipa_is_disabled_reply. cbn [negb].
  rewrite andb_true_r, andb_false_r.
  cbv zeta in Hmod.
  unfold mbind at 1, prog_bind at 1. unfold mbind at 1, prog_bind at 1.
  rewrite Hmod.
  destruct is_disabled; cbn [orb].
  - destruct (disable_locks w2 entry1 Hentry1)
      as (r & w3 & entry' & Hdis & Hentry' & Hlock' & [->|[-> _]]).
    + unfold mbind at 1, prog_bind at 1. rewrite Hdis.
      eexists _, entry'. split; [reflexivity|]. by split.
    + unfold mbind at 1, prog_bind at 1. rewrite Hdis.
      eexists _, entry'. split; [reflexivity|]. by split.
  - destruct force; eexists _, entry1; (split; [reflexivity|]); by split.
Qed.

Lemma absent_user_locked (ipa_user : gmap string atom)
  (is_disabled force : bool) (w : world) :
  users (ipa w) !! username = None →
  create_uid ipa_user username = AStr username →
  ∃ w' entry,
    try_except
      (sync_existing_user tgt false force username ipa_user is_disabled)
      (sync_user_handlers tgt false username ipa_user is_disabled) w
    = (Ok tt, w')
    ∧ users (ipa w') !! username = Some entry
    ∧ entry_locked entry = is_disabled.
Proof.
  intros Habsent Huid.
  set (w1 := add_call (user_show username) w).
  assert (sync_existing_user tgt false force username ipa_user is_disabled w
          = (Raise NotFound, set_ipa (ipa w) w1)) as Hlookup.
  { unfold sync_existing_user. apply bind_raise. unfold ipa_user_show.
    apply invoke_accepted; [by apply accepts_other|].
    unfold Ipa.do_user_show. by rewrite Habsent. }
  erewrite try_except_raise; [|exact Hlookup|reflexivity].
  unfold create_user. cbv zeta. rewrite Huid.
  set (entry :=
         (kmap Ipa.option_name (user_add_params ipa_user) ∪
          {[ "uid" := PAtom (AStr username);
             "givenname" := PAtom (create_givenname ipa_user username);
             "sn" := PAtom (create_sn ipa_user username);
             "cn" := PAtom (create_cn ipa_user username);
             "nsaccountlock" := PAtom (ABool false) ]} : gmap string pyval)).
  assert (entry_locked entry = false) as Hunlocked.
  { apply new_entry_unlocked, user_add_params_no_lock. }
  set (c := user_add (AStr username) (create_givenname ipa_user username)
                     (create_sn ipa_user username)
                     (create_cn ipa_user username)
                     (user_add_params ipa_user)).
  set (w2 := set_ipa (Ipa.set_users (<[username := entry]> (users (ipa w)))
                                    (ipa w))
                     (add_call c (set_ipa (ipa w) w1))).
  assert (ipa_user_add tgt (AStr username) (create_givenname ipa_user username)
            (create_sn ipa_user username) (create_cn ipa_user username)
            (user_add_params ipa_user) (set_ipa (ipa w) w1) = (Ok tt, w2))
    as Hadd.
  { unfold ipa_user_add. apply invoke_accepted; [by apply accepts_other|].
    unfold Ipa.do_user_add. cbn [ipa set_ipa]. by rewrite Habsent. }
  assert (users (ipa w2) !! username = Some entry) as Hentry.
  { cbn. apply lookup_insert_eq. }
  unfold mbind at 1, prog_bind at 1. unfold mbind at 1, prog_bind at 1.
  rewrite Hadd.
  destruct is_disabled.
  - destruct (disable_locks w2 entry Hentry)
      as (r & w3 & entry' & Hdis & Hentry' & Hlock' & [->|[_ Hl]]);
      [|congruence].
    unfold mbind at 1, prog_bind at 1. rewrite Hdis.
    eexists _, entry'. split; [reflexivity|]. by split.
  - eexists _, entry. split; [reflexivity|]. by split.
Qed.

End LockState.

(** X19.  After a live run over a user in scope, with the login name as
    the mapped ['uid'], on a target that refuses nothing except, possibly,
    disabling a user who is locked already: the run returns, the user
    exists on the target, and is locked exactly when the source account is
    disabled or the user was locked on the target before.  A disabled
    source account always ends up locked; an enabled one leaves the lock
    as it was, so a user created by the run is unlocked and a user found
    locked is never unlocked.  This for both values of [force]. *)
Theorem synced_lock_state (cfg : config) (tgt : target) (force : bool)
  (ad_user : ad_object) (username : string) (ipa_user : gmap string atom)
  (w : world) :
  sAMAccountName ad_user = Some username →
  username ≠ "" →
  should_sync_user cfg username = true →
  result_of (map_user_attributes cfg ad_user w) = Ok ipa_user →
  create_uid ipa_user username = AStr username →
  (∀ d c, ipa_rejects tgt d c = true →
     c = user_disable username
     ∧ ∃ entry, users d !! username = Some entry ∧ entry_locked entry = true) →
  let r := sync_user cfg tgt false force ad_user w in
  let locked_before :=
    match users (ipa w) !! username with
    | Some existing => entry_locked existing
    | None => false
    end in
  result_of r = Ok tt
  ∧ ∃ entry, users (ipa (world_of r)) !! username = Some entry
             ∧ entry_locked entry = source_is_disabled ad_user || locked_before.
Proof.
  intros Hname Hne Hscope Hmap Huid Hrej r. subst r. cbv zeta.
  destruct (sync_user_in_scope cfg tgt false force ad_user username ipa_user w)
    as (w1 & Hi & Hc & Hs & ->); try done.
  rewrite <- Hi.
  destruct (users (ipa w1) !! username) as [existing|] eqn:Hfound.
  - destruct (existing_user_locked tgt username Hrej force ipa_user
                (source_is_disabled ad_user) w1 existing Hfound)
      as (w' & entry & -> & Hentry & Hlock).
    split; [reflexivity|]. by exists entry.
  - destruct (absent_user_locked tgt username Hrej ipa_user
                (source_is_disabled ad_user) force w1 Hfound Huid)
      as (w' & entry & -> & Hentry & Hlock).
    split; [reflexivity|]. exists entry. split; [done|].
    by rewrite orb_false_r.
Qed.

Lemma synced_lock_state_witness :
  let r := sync_user Example.cfg Example.tgt false false Example.asmith
                     (initial_world Example.locked_directory) in
  source_is_disabled Example.asmith = false
  ∧ result_of r = Ok tt
  ∧ ∃ entry, users (ipa (world_of r)) !! "asmith" = Some entry
             ∧ entry_locked entry = true.
Proof.
  cbv zeta. split; [reflexivity|].
  apply (synced_lock_state Example.cfg Example.tgt false Example.asmith
           "asmith" {[ "uid" := AStr "asmith" ]}
           (initial_world Example.locked_directory)); done.
Defined.

(** ** Creating a group, and running again *)

Lemma sync_group_in_scope (cfg : config) (tgt : target) (dry_run force : bool)
  (ad_group : ad_object) (groupname : string) (w : world) :
  sAMAccountName ad_group = Some groupname →
  groupname ≠ "" →
  should_sync_group cfg groupname = true →
  ∃ w0, ipa w0 = ipa w ∧ calls w0 = calls w ∧ stats w0 = stats w
    ∧ sync_group cfg tgt dry_run force ad_group w
      = reconcile_group tgt dry_run force ad_group (sanitize groupname) w0.
Proof.
  intros Hname Hne Hscope.
  unfold sync_group. rewrite Hname, (is_empty_string_false _ Hne), Hscope.
  cbn [orb negb]. rewrite sanitized_name.
  destruct (negb (String.eqb (sanitize groupname) groupname));
    eexists; (split; [|split; [|split; [|reflexivity]]]); done.
Qed.

Lemma bump_groups (s : stats_dict) :
  groups_created (bump GroupsCreated s) = groups_created s + 1
  ∧ groups_updated (bump GroupsCreated s) = groups_updated s
  ∧ groups_created (bump GroupsUpdated s) = groups_created s
  ∧ groups_updated (bump GroupsUpdated s) = groups_updated s + 1.
Proof. by destruct s. Qed.

(** X20.  A live run over a group in scope that the target lacks, on a
    target that refuses nothing, looks the group up under its sanitized
    name, adds it without members and counts it in [groups_created].  The
    same iteration run again without [force] then finds the group, issues
    the lookup only, changes nothing and counts it in [groups_updated]. *)
Theorem group_created_then_skipped (cfg : config) (tgt : target) (force : bool)
  (ad_group : ad_object) (groupname : string) (w : world) :
  sAMAccountName ad_group = Some groupname →
  groupname ≠ "" →
  should_sync_group cfg groupname = true →
  groups (ipa w) !! sanitize groupname = None →
  (∀ d c, ipa_rejects tgt d c = false) →
  let name := sanitize groupname in
  let params := group_add_params ad_group in
  let r1 := sync_group cfg tgt false force ad_group w in
  let w1 := world_of r1 in
  let r2 := sync_group cfg tgt false false ad_group w1 in
  let w2 := world_of r2 in
  (result_of r1 = Ok tt
   ∧ calls w1 = (calls w ++ [group_show name; group_add name params])%list
   ∧ groups (ipa w1) !! name
     = Some {| group_attrs := kmap Ipa.option_name params;
               member_user := ∅; member_group := ∅ |}
   ∧ groups_created (stats w1) = groups_created (stats w) + 1
   ∧ groups_updated (stats w1) = groups_updated (stats w))
  ∧ (result_of r2 = Ok tt
     ∧ calls w2 = (calls w1 ++ [group_show name])%list
     ∧ ipa w2 = ipa w1
     ∧ groups_created (stats w2) = groups_created (stats w1)
     ∧ groups_updated (stats w2) = groups_updated (stats w1) + 1).
Proof.
  intros Hname Hne Hscope Habsent Hacc. cbv zeta.
  destruct (sync_group_in_scope cfg tgt false force ad_group groupname w)
    as (w0 & Hi0 & Hc0 & Hs0 & ->); try done.
  assert (reconcile_group tgt false force ad_group (sanitize groupname) w0
          = (Ok tt,
             set_stats (bump GroupsCreated (stats w0))
               (add_log (LogCreatedGroup (sanitize groupname))
                  (set_ipa
                     (Ipa.set_groups
                        (<[sanitize groupname :=
                             {| group_attrs :=
                                  kmap Ipa.option_name (group_add_params ad_group);
                                member_user := ∅; member_group := ∅ |}]>
                           (groups (ipa w0))) (ipa w0))
                     (add_call (group_add (sanitize groupname)
                                          (group_add_params ad_group))
                        (add_call (group_show (sanitize groupname)) w0))))))
    as Hrun1.
  { unfold reconcile_group, try_except, ipa_group_show, ipa_group_add, mbind,
      prog_bind, invoke, Ipa.do_group_show, Ipa.do_group_add.
    rewrite <- Hi0 in Habsent.
    rewrite Hacc, Habsent. cbn [ipa add_call set_ipa].
    rewrite Hacc, Habsent. reflexivity. }
  rewrite Hrun1. cbn [world_of result_of fst snd].
  set (w1 := set_stats _ _).
  destruct (bump_groups (stats w0)) as (Hb1 & Hb2 & _).
  split.
  { split; [done|]. split; [cbn; by rewrite Hc0, <- app_assoc|].
    split; [cbn; apply lookup_insert_eq|].
    split; cbn [w1 stats set_stats]; by rewrite <- Hs0. }
  destruct (sync_group_in_scope cfg tgt false false ad_group groupname w1)
    as (w0' & Hi0' & Hc0' & Hs0' & ->); try done.
  unfold reconcile_group, try_except, ipa_group_show, mbind, prog_bind, invoke,
    Ipa.do_group_show.
  rewrite Hacc, Hi0'. cbn [w1 ipa set_stats add_log set_ipa Ipa.set_groups groups].
  rewrite lookup_insert_eq. cbn.
  destruct (bump_groups (stats w0')) as (_ & _ & Hb3 & Hb4).
  rewrite ?Hc0', ?Hi0', ?Hb3, ?Hb4, ?Hs0'. done.
Qed.

Lemma group_created_then_skipped_witness :
  let w := initial_world Example.empty_directory in
  let w1 := world_of (sync_group Example.cfg Example.tgt false true
                                 Example.staff w) in
  let w2 := world_of (sync_group Example.cfg Example.tgt false false
                                 Example.staff w1) in
  calls w1 = [group_show "staff"; group_add "staff" ∅]
  ∧ calls w2 = (calls w1 ++ [group_show "staff"])%list
  ∧ ipa w2 = ipa w1.
Proof.
  cbv zeta.
  destruct (group_created_then_skipped Example.cfg Example.tgt true
              Example.staff "staff" (initial_world Example.empty_directory))
    as [(_ & Hc1 & _) (_ & Hc2 & Hi2 & _)]; [done..|].
  split; [exact Hc1 | split; [exact Hc2 | exact Hi2]].
Defined.

(** ** Resolving the members of a group *)

Lemma add_logs_nil (w : world) : add_logs [] w = w.
Proof. unfold add_logs. rewrite app_nil_r. by destruct w. Qed.

Lemma add_logs_one (e : log_event) (w : world) : add_logs [e] w = add_log e w.
Proof. reflexivity. Qed.

Lemma add_logs_app (l1 l2 : list log_event) (w : world) :
  add_logs l2 (add_logs l1 w) = add_logs (l1 ++ l2) w.
Proof. unfold add_logs. cbn. by rewrite app_assoc. Qed.

Lemma decisions_app (l1 l2 : list log_event) :
  decisions (l1 ++ l2) = (decisions l1 ++ decisions l2)%list.
Proof. unfold decisions. by rewrite map_app, concat_app. Qed.

Lemma resolves_to_cons (ad : source) (dn : atom) (members : list atom)
  (as_group : bool) (name : string) :
  resolves_to ad (dn :: members) as_group name
  ↔ resolves_to ad [dn] as_group name ∨ resolves_to ad members as_group name.
Proof.
  unfold resolves_to. split.
  - intros (m & e & r & Hin & H).
    apply elem_of_cons in Hin as [->|Hin].
    + left. exists dn, e, r. split; [apply list_elem_of_here | done].
    + right. by exists m, e, r.
  - intros [(m & e & r & Hin & H)|(m & e & r & Hin & H)];
      exists m, e, r; (split; [|done]).
    + apply elem_of_cons in Hin as [->|Hin]; [apply list_elem_of_here|].
      by apply elem_of_nil in Hin.
    + by apply list_elem_of_further.
Qed.

Lemma resolves_to_nil (ad : source) (as_group : bool) (name : string) :
  ¬ resolves_to ad [] as_group name.
Proof. intros (m & e & r & Hin & _). by apply elem_of_nil in Hin. Qed.

Section Resolve.

Variable ad : source.

(** One member: what the name sets become and what is logged, from any
    world. *)
Lemma resolve_member_spec (us gs : gset string) (member_dn : atom) :
  ∃ us' gs' l,
    decisions l = []
    ∧ (∀ w, resolve_member ad (us, gs) member_dn w
            = (Ok (us', gs'), add_logs l w))
    ∧ (∀ n, n ∈ us' ↔ n ∈ us ∨ resolves_to ad [member_dn] false n)
    ∧ (∀ n, n ∈ gs' ↔ n ∈ gs ∨ resolves_to ad [member_dn] true n).
Proof.
  assert (∀ b n, resolves_to ad [member_dn] b n →
            ∃ e r, ad_search_dn ad (str_of_atom member_dn) = Ok (e :: r)
                   ∧ member_sAMAccountName e = Some n ∧ n ≠ ""
                   ∧ is_group_entry e = b) as Hinv.
  { intros b n (m & e & r & Hin & H).
    apply elem_of_cons in Hin as [->|Hin]; [by exists e, r|].
    by apply elem_of_nil in Hin. }
  assert (∀ b n e r, ad_search_dn ad (str_of_atom member_dn) = Ok (e :: r) →
            member_sAMAccountName e = Some n → n ≠ "" →
            is_group_entry e = b → resolves_to ad [member_dn] b n) as Hintro.
  { intros b n e r H1 H2 H3 H4. exists member_dn, e, r.
    split; [apply list_elem_of_here | done]. }
  unfold resolve_member, try_except, mbind, prog_bind, search_member.
  destruct (ad_search_dn ad (str_of_atom member_dn)) as [[|e r]|exn] eqn:Hs.
  - exists us, gs, [LogMemberNotFound member_dn].
    split; [done|]. split; [done|].
    split; intros n; (split; [by left|]);
      (intros [?|H]; [done|]); apply Hinv in H as (? & ? & ? & _); congruence.
  - destruct (member_sAMAccountName e) as [name|] eqn:Hn.
    + destruct name as [|c name'].
      * exists us, gs, [LogNoSAMAccountName member_dn].
        split; [done|]. split; [done|].
        split; intros n; (split; [by left|]);
          (intros [?|H]; [done|]);
          apply Hinv in H as (? & ? & ? & ? & ? & _); congruence.
      * cbn [is_empty_string]. fold (is_group_entry e).
        destruct (is_group_entry e) eqn:Hg.
        -- exists us, (gs ∪ {[ String c name' ]}), [].
           split; [done|].
           split; [intros w; by rewrite add_logs_nil|].
           split; intros n.
           ++ split; [by left|]. intros [?|H]; [done|].
              apply Hinv in H as (? & ? & ? & ? & ? & ?). congruence.
           ++ rewrite elem_of_union, elem_of_singleton. split.
              ** intros [?| ->]; [by left|]. right. by eapply Hintro.
              ** intros [?|H]; [by left|]. right.
                 apply Hinv in H as (? & ? & ? & ? & ? & ?). congruence.
        -- exists (us ∪ {[ String c name' ]}), gs, [].
           split; [done|].
           split; [intros w; by rewrite add_logs_nil|].
           split; intros n.
           ++ rewrite elem_of_union, elem_of_singleton. split.
              ** intros [?| ->]; [by left|]. right. by eapply Hintro.
              ** intros [?|H]; [by left|]. right.
                 apply Hinv in H as (? & ? & ? & ? & ? & ?). congruence.
           ++ split; [by left|]. intros [?|H]; [done|].
              apply Hinv in H as (? & ? & ? & ? & ? & ?). congruence.
    + exists us, gs, [LogNoSAMAccountName member_dn].
      split; [done|]. split; [done|].
      split; intros n; (split; [by left|]);
        (intros [?|H]; [done|]);
        apply Hinv in H as (? & ? & ? & ? & _); congruence.
  - exists us, gs, [LogFailedQueryMember member_dn exn].
    split; [done|]. split; [done|].
    split; intros n; (split; [by left|]);
      (intros [?|H]; [done|]); apply Hinv in H as (? & ? & ? & _); congruence.
Qed.

Lemma resolve_members_spec (members : list atom) (us gs : gset string) :
  ∃ us' gs' l,
    decisions l = []
    ∧ (∀ w, resolve_members ad members (us, gs) w
            = (Ok (us', gs'), add_logs l w))
    ∧ (∀ n, n ∈ us' ↔ n ∈ us ∨ resolves_to ad members false n)
    ∧ (∀ n, n ∈ gs' ↔ n ∈ gs ∨ resolves_to ad members true n).
Proof.
  revert us gs. induction members as [|dn members IH]; intros us gs.
  - exists us, gs, []. split; [done|].
    split; [intros w; cbn; by rewrite add_logs_nil|].
    split; intros n; (split; [by left|]); intros [?|H]; try done;
      by apply resolves_to_nil in H.
  - destruct (resolve_member_spec us gs dn) as (us1 & gs1 & l1 & Hd1 & Hr1 & Hu1 & Hg1).
    destruct (IH us1 gs1) as (us2 & gs2 & l2 & Hd2 & Hr2 & Hu2 & Hg2).
    exists us2, gs2, (l1 ++ l2)%list.
    split; [by rewrite decisions_app, Hd1, Hd2|].
    split.
    { intros w. cbn [resolve_members]. unfold mbind, prog_bind.
      by rewrite Hr1, Hr2, add_logs_app. }
    split; intros n.
    + rewrite Hu2, Hu1, (resolves_to_cons ad dn members). tauto.
    + rewrite Hg2, Hg1, (resolves_to_cons ad dn members). tauto.
Qed.

End Resolve.

(** X21.  Resolving the members of a group never raises, calls nothing on
    the target and moves no counter.  The set of user names it returns
    holds exactly the non-empty login names of the first entries found for
    the member DNs whose object classes do not include "group" in any
    letter case, and the set of group names exactly those whose classes
    do; members that are not found, have no login name, or whose search
    fails contribute nothing. *)
Theorem resolved_member_names (ad : source) (members : list atom) (w : world) :
  ∃ us gs w',
    resolve_members ad members (∅, ∅) w = (Ok (us, gs), w')
    ∧ ipa w' = ipa w ∧ calls w' = calls w ∧ stats w' = stats w
    ∧ (∀ n, n ∈ us ↔ resolves_to ad members false n)
    ∧ (∀ n, n ∈ gs ↔ resolves_to ad members true n).
Proof.
  destruct (resolve_members_spec ad members ∅ ∅)
    as (us & gs & l & _ & Hr & Hu & Hg).
  exists us, gs, (add_logs l w). split; [apply Hr|].
  repeat (split; [done|]).
  split; intros n; [rewrite Hu | rewrite Hg]; set_solver.
Qed.

(** ** The additions of the membership phase *)

Section Additions.

Variables (tgt : target) (name : string).

Lemma add_user_member_live (u : string) (w : world) :
  ∃ w', add_user_member tgt false name u w = (Ok tt, w')
        ∧ calls w' = (calls w ++ [group_add_member_user name u])%list.
Proof.
  unfold add_user_member, try_except, ipa_group_add_member_user, mbind,
    prog_bind, invoke.
  destruct (ipa_rejects tgt (ipa w) _); [by eexists|].
  destruct (Ipa.do_group_add_member_user name u (ipa w)) as [[[]|e] d];
    by eexists.
Qed.

Lemma add_group_member_live (m : string) (w : world) :
  ∃ w', add_group_member tgt false name m w = (Ok tt, w')
        ∧ calls w' = (calls w ++ [group_add_member_group name (sanitize m)])%list.
Proof.
  unfold add_group_member, try_except, ipa_group_add_member_group, mbind,
    prog_bind, invoke.
  destruct (ipa_rejects tgt (ipa w) _); [by eexists|].
  destruct (Ipa.do_group_add_member_group name (sanitize m) (ipa w))
    as [[[]|e] d]; by eexists.
Qed.

Lemma add_user_members_live (l : list string) (w : world) :
  ∃ w', for_each l (add_user_member tgt false name) w = (Ok tt, w')
        ∧ calls w' = (calls w ++ map (group_add_member_user name) l)%list.
Proof.
  revert w. induction l as [|u l IH]; intros w; cbn [for_each map].
  - exists w. by rewrite app_nil_r.
  - destruct (add_user_member_live u w) as (w1 & Hr1 & Hc1).
    destruct (IH w1) as (w2 & Hr2 & Hc2).
    exists w2. split; [by erewrite bind_ok|].
    by rewrite Hc2, Hc1, <- app_assoc.
Qed.

Lemma add_group_members_live (l : list string) (w : world) :
  ∃ w', for_each l (add_group_member tgt false name) w = (Ok tt, w')
        ∧ calls w'
          = (calls w
             ++ map (λ m, group_add_member_group name (sanitize m)) l)%list.
Proof.
  revert w. induction l as [|m l IH]; intros w; cbn [for_each map].
  - exists w. by rewrite app_nil_r.
  - destruct (add_group_member_live m w) as (w1 & Hr1 & Hc1).
    destruct (IH w1) as (w2 & Hr2 & Hc2).
    exists w2. split; [by erewrite bind_ok|].
    by rewrite Hc2, Hc1, <- app_assoc.
Qed.

Lemma add_user_members_dry (l : list string) (w : world) :
  for_each l (add_user_member tgt true name) w
  = (Ok tt, add_logs (map (λ u, LogWouldAddUser u name) l) w).
Proof.
  revert w. induction l as [|u l IH]; intros w; cbn [for_each map].
  - by rewrite add_logs_nil.
  - erewrite bind_ok; [|reflexivity]. rewrite IH.
    by rewrite <- add_logs_one, add_logs_app.
Qed.

Lemma add_group_members_dry (l : list string) (w : world) :
  for_each l (add_group_member tgt true name) w
  = (Ok tt, add_logs (map (λ m, LogWouldAddGroup m name) l) w).
Proof.
  revert w. induction l as [|m l IH]; intros w; cbn [for_each map].
  - by rewrite add_logs_nil.
  - erewrite bind_ok; [|reflexivity]. rewrite IH.
    by rewrite <- add_logs_one, add_logs_app.
Qed.

Lemma decisions_would_add_users (l : list string) :
  decisions (map (λ u, LogWouldAddUser u name) l) = map (AddMember name) l.
Proof.
  induction l as [|u l IH]; [done|].
  cbn [map]. change (decisions (?e :: ?r)) with (decisions_of e ++ decisions r)%list.
  by rewrite IH.
Qed.

Lemma decisions_would_add_groups (l : list string) :
  decisions (map (λ m, LogWouldAddGroup m name) l)
  = map (λ m, AddMember name (sanitize m)) l.
Proof.
  induction l as [|m l IH]; [done|].
  cbn [map]. change (decisions (?e :: ?r)) with (decisions_of e ++ decisions r)%list.
  by rewrite IH.
Qed.

Variables (order : set_order) (us gs : gset string) (g : ipa_group).

(** The current members as the reconciler reads them: the reply of
    [group_show] has neither key, so both sets are empty. *)
Lemma reply_members_reply_of (k : string) :
  k ≠ "result" → k ≠ "value" → k ≠ "summary" →
  reply_members (reply_of name g) k = Ok ∅.
Proof.
  intros H1 H2 H3. unfold reply_members. by rewrite reply_of_lookup.
Qed.

Lemma reconcile_members_live (w : world) :
  groups (ipa w) !! name = Some g →
  ipa_rejects tgt (ipa w) (group_show name) = false →
  ∃ w', reconcile_members tgt order false name us gs w = (Ok tt, w')
        ∧ calls w'
          = (calls w ++ [group_show name]
             ++ map (group_add_member_user name) (iterate order us)
             ++ map (λ m, group_add_member_group name (sanitize m))
                    (iterate order gs))%list.
Proof.
  intros Hg Hacc. unfold reconcile_members.
  set (w1 := set_ipa (ipa w) (add_call (group_show name) w)).
  destruct (add_user_members_live (iterate order us) w1) as (w2 & Hr2 & Hc2).
  destruct (add_group_members_live (iterate order gs) w2) as (w3 & Hr3 & Hc3).
  exists w3. split.
  - apply try_except_ok. erewrite bind_ok.
    2:{ unfold ipa_group_show. apply invoke_accepted; [exact Hacc|].
        unfold Ipa.do_group_show. by rewrite Hg. }
    rewrite !reply_members_reply_of by done.
    unfold lift_prog. erewrite bind_ok; [|reflexivity].
    erewrite bind_ok; [|reflexivity].
    rewrite !difference_empty_L.
    fold w1. erewrite bind_ok; [|exact Hr2]. exact Hr3.
  - rewrite Hc3, Hc2. cbn. by rewrite <- !app_assoc.
Qed.

Lemma reconcile_members_dry (w : world) :
  groups (ipa w) !! name = Some g →
  ipa_rejects tgt (ipa w) (group_show name) = false →
  reconcile_members tgt order true name us gs w
  = (Ok tt,
     add_logs (map (λ u, LogWouldAddUser u name) (iterate order us)
               ++ map (λ m, LogWouldAddGroup m name) (iterate order gs))
       (set_ipa (ipa w) (add_call (group_show name) w))).
Proof.
  intros Hg Hacc. unfold reconcile_members.
  apply try_except_ok. erewrite bind_ok.
  2:{ unfold ipa_group_show. apply invoke_accepted; [exact Hacc|].
      unfold Ipa.do_group_show. by rewrite Hg. }
  rewrite !reply_members_reply_of by done.
  unfold lift_prog. erewrite bind_ok; [|reflexivity].
  erewrite bind_ok; [|reflexivity].
  rewrite !difference_empty_L.
  erewrite bind_ok; [|apply add_user_members_dry].
  by rewrite add_group_members_dry, add_logs_app.
Qed.

End Additions.

Lemma sync_membership_in_scope (cfg : config) (ad : source) (tgt : target)
  (order : set_order) (dry_run : bool) (ad_group : ad_object)
  (groupname : string)
  (us gs : gset string) (w : world) :
  sAMAccountName ad_group = Some groupname →
  groupname ≠ "" →
  should_sync_group cfg groupname = true →
  result_of (resolve_members ad (group_members ad_group) (∅, ∅) w)
  = Ok (us, gs) →
  ∃ l, decisions l = []
    ∧ sync_membership cfg ad tgt order dry_run ad_group w
      = reconcile_members tgt order dry_run (sanitize groupname) us gs (add_logs l w).
Proof.
  intros Hname Hne Hscope Hres.
  destruct (resolve_members_spec ad (group_members ad_group) ∅ ∅)
    as (us' & gs' & l & Hd & Hr & _).
  rewrite Hr in Hres. cbn in Hres. inversion Hres; subst us' gs'.
  unfold sync_membership. rewrite Hname, (is_empty_string_false _ Hne), Hscope.
  cbn [orb negb]. rewrite sanitized_name.
  destruct (negb (String.eqb (sanitize groupname) groupname)).
  - exists (LogUsingSanitizedGroupName groupname (sanitize groupname) :: l).
    split; [exact Hd|].
    erewrite bind_ok; [|reflexivity]. cbv zeta.
    erewrite bind_ok; [|apply Hr].
    by rewrite <- add_logs_one, add_logs_app.
  - exists l. split; [exact Hd|].
    erewrite bind_ok; [|reflexivity]. cbv zeta.
    erewrite bind_ok; [|apply Hr]. reflexivity.
Qed.

(** X22.  For a group in scope that the target has and can look up, with
    [us] and [gs] the user and group names resolved from its members: a
    live run issues the lookup, then one [group_add_member] for every
    name in [us], then one for every name in [gs], passing that name
    sanitized, each name once and in the order in which the run visits
    the set.  Members that the group [g] has already are added again: the
    current members are read from the reply of [group_show], where they
    are not, so nothing is subtracted.  The run does so whether or not
    the target accepts the additions, and returns.  A dry run issues the
    lookup only, leaves the target as it was, and logs the same additions
    as intents. *)
Theorem membership_additions (cfg : config) (ad : source) (tgt : target)
  (order : set_order) (ad_group : ad_object) (groupname : string)
  (g : ipa_group) (us gs : gset string) (w : world) :
  sAMAccountName ad_group = Some groupname →
  groupname ≠ "" →
  should_sync_group cfg groupname = true →
  result_of (resolve_members ad (group_members ad_group) (∅, ∅) w)
  = Ok (us, gs) →
  groups (ipa w) !! sanitize groupname = Some g →
  ipa_rejects tgt (ipa w) (group_show (sanitize groupname)) = false →
  let name := sanitize groupname in
  let users_to_add := iterate order us in
  let groups_to_add := iterate order gs in
  let live := sync_membership cfg ad tgt order false ad_group w in
  let dry := sync_membership cfg ad tgt order true ad_group w in
  users_to_add ≡ₚ elements us
  ∧ groups_to_add ≡ₚ elements gs
  ∧ (result_of live = Ok tt
     ∧ calls (world_of live)
       = (calls w ++ [group_show name]
          ++ map (group_add_member_user name) users_to_add
          ++ map (λ m, group_add_member_group name (sanitize m))
                 groups_to_add)%list)
  ∧ (result_of dry = Ok tt
     ∧ calls (world_of dry) = (calls w ++ [group_show name])%list
     ∧ ipa (world_of dry) = ipa w
     ∧ decisions (log (world_of dry))
       = (decisions (log w)
          ++ map (AddMember name) users_to_add
          ++ map (λ m, AddMember name (sanitize m)) groups_to_add)%list).
Proof.
  intros Hname Hne Hscope Hres Hg Hacc. cbv zeta.
  split; [apply iterate_permutation|]. split; [apply iterate_permutation|].
  split.
  - destruct (sync_membership_in_scope cfg ad tgt order false ad_group
                groupname us gs w) as (l & Hd & ->); try done.
    destruct (reconcile_members_live tgt (sanitize groupname) order us gs g
                (add_logs l w)) as (w' & -> & Hc); done.
  - destruct (sync_membership_in_scope cfg ad tgt order true ad_group
                groupname us gs w) as (l & Hd & ->); try done.
    rewrite (reconcile_members_dry tgt (sanitize groupname) order us gs g)
      by done.
    cbn [result_of world_of fst snd].
    split; [done|]. split; [done|]. split; [done|].
    cbn [log add_logs set_ipa add_call].
    rewrite !decisions_app, Hd, decisions_would_add_users,
      decisions_would_add_groups.
    by rewrite app_nil_r.
Qed.

Lemma membership_additions_witness :
  let w := initial_world Example.populated_directory in
  let live := sync_membership Example.cfg Example.ad Example.tgt Example.order
                              false Example.staff w in
  member_user <$> groups (ipa w) !! "staff" = Some {[ "jdoe" ]}
  ∧ result_of live = Ok tt
  ∧ calls (world_of live)
    = [group_show "staff"; group_add_member_user "staff" "jdoe";
       group_add_member_group "staff" "Dev-Team"].
Proof.
  cbv zeta. split; [by vm_compute|].
  destruct (membership_additions Example.cfg Example.ad Example.tgt
              Example.order Example.staff "staff"
              {| group_attrs := ∅; member_user := {[ "jdoe" ]};
                 member_group := {[ "Dev-Team" ]} |}
              {[ "jdoe" ]} {[ "Dev Team" ]}
              (initial_world Example.populated_directory))
    as (_ & _ & [Hr Hc] & _);
    [done | done | done | by vm_compute | done | done |].
  split; [exact Hr|]. rewrite Hc. by vm_compute.
Defined.

(** ** Reading the source directory *)

Section Reading.

Import Ldap.

Lemma requested_lookup_in (names : list string) (entry : ldap_entry) (k : string) :
  k ∈ names → requested names entry !! k = ldap_attributes entry !! k.
Proof.
  intros Hin. unfold requested.
  destruct (ldap_attributes entry !! k) as [v|] eqn:Hk.
  - by apply map_lookup_filter_Some_2.
  - apply map_lookup_filter_None_2. by left.
Qed.

Lemma requested_lookup_out (names : list string) (entry : ldap_entry) (k : string) :
  k ∉ names → requested names entry !! k = None.
Proof.
  intros Hin. unfold requested. apply map_lookup_filter_None_2.
  right. intros v _. exact Hin.
Qed.

Lemma sid_to_uid_returns (v : sid_value) (base : Z) :
  ∃ r, sid_to_uid v base = Ok r.
Proof.
  unfold sid_to_uid. destruct (sid_falsy v); [by eexists|].
  destruct (sid_to_uid_try v base); by eexists.
Qed.

Lemma sid_to_string_returns (v : sid_value) : ∃ r, sid_to_string v = Ok r.
Proof.
  unfold sid_to_string. destruct (sid_falsy v); [by eexists|].
  destruct (is_sid_string v); [by eexists|].
  destruct (sid_to_string_try v); by eexists.
Qed.

Lemma account_disabled_well_typed (entry : ldap_entry) :
  well_typed entry = true →
  account_disabled entry = Ok (uac_is_disabled (account_control entry)).
Proof.
  unfold well_typed, account_disabled, account_control.
  intros [H _]%andb_true_iff.
  destruct (ldap_attributes entry !! "userAccountControl") as [[[| | |]|]|];
    try done.
  cbn. by destruct (z =? 0).
Qed.

Lemma add_int_well_typed (entry : ldap_entry) (base : Z) (v : pyval) :
  well_typed entry = true →
  ldap_attributes entry !! "primaryGroupID" = Some v →
  truthy v = true →
  ∃ p, v = PAtom (AInt p) ∧ p ≠ 0 ∧ add_int base v = Ok (base + p).
Proof.
  unfold well_typed. intros [_ H]%andb_true_iff Hv Ht. rewrite Hv in H.
  destruct v as [[| |p|]|]; try done.
  exists p. split; [done|]. split; [|done].
  cbn in Ht. intros ->. done.
Qed.

(** The two steps of [user_dict] that may set an identifier, for a
    well-typed entry: each returns, and changes at most its own two
    keys. *)
Lemma uid_step_frame (base : Z) (name : string) (sid_string : option string)
  (sid : sid_value) (attrs : gmap string pyval) (l : list read_event) :
  ∃ attrs' l',
    (if not_set attrs "uidNumber" then
       calculated_uid ← lift (sid_to_uid sid base);
       match calculated_uid with
       | Some uid =>
           if uid =? 0 then mret attrs
           else
             emit (DebugCalculatedUID uid name sid_string) ;;
             mret (<["_calculated_uid" := PAtom (ABool true)]>
                     (<["uidNumber" := PAtom (AInt uid)]> attrs))
       | None => mret attrs
       end
     else mret attrs) l = (Ok attrs', l')
    ∧ uid_step_spec base sid attrs attrs'.
Proof.
  unfold uid_step_spec.
  destruct (not_set attrs "uidNumber"); [|by eexists _, _].
  destruct (sid_to_uid_returns sid base) as [r Hr].
  unfold mbind, reading_bind, lift. rewrite Hr.
  destruct r as [uid|]; [|by eexists _, _].
  destruct (uid =? 0); [by eexists _, _|].
  eexists _, _. split; [reflexivity|].
  split; [|split; [done|]].
  - intros k H1 H2. by rewrite !lookup_insert_ne.
  - intros _. by rewrite lookup_insert_ne, lookup_insert_eq, lookup_insert_eq.
Qed.

Lemma gid_step_frame (entry : ldap_entry) (base : Z) (name : string)
  (attrs : gmap string pyval) (l : list read_event) :
  well_typed entry = true →
  attrs !! "primaryGroupID" = ldap_attributes entry !! "primaryGroupID" →
  ∃ attrs' l',
    match attrs !! "primaryGroupID" with
    | Some v =>
        if truthy v then
          primary_gid ← lift (add_int base v);
          if not_set attrs "gidNumber" then
            emit (DebugCalculatedGID primary_gid name) ;;
            mret (<["_calculated_gid" := PAtom (ABool true)]>
                    (<["gidNumber" := PAtom (AInt primary_gid)]> attrs))
          else mret attrs
        else mret attrs
    | None => mret attrs
    end l = (Ok attrs', l')
    ∧ gid_step_spec base attrs attrs'.
Proof.
  intros Hwt Hpg. unfold gid_step_spec.
  destruct (attrs !! "primaryGroupID") as [v|] eqn:Hv; [|by eexists _, _].
  destruct (truthy v) eqn:Ht.
  2:{ eexists _, _. split; [reflexivity|]. split; [done|]. split; [done|].
      intros _. destruct v as [[| |p|]|]; try done.
      cbn in Ht. by destruct (p =? 0). }
  destruct (add_int_well_typed entry base v Hwt) as (p & -> & Hp & Hadd);
    [done | done |].
  unfold mbind, reading_bind, lift. rewrite Hadd.
  apply Z.eqb_neq in Hp. rewrite Hp.
  destruct (not_set attrs "gidNumber"); [|by eexists _, _].
  eexists _, _. split; [reflexivity|].
  split; [|split; [done|]].
  - intros k H1 H2. by rewrite !lookup_insert_ne.
  - intros _. by rewrite lookup_insert_ne, lookup_insert_eq, lookup_insert_eq.
Qed.

(** [user_dict] on a well-typed entry. *)
Lemma user_dict_run (base : Z) (entry : ldap_entry) (name : string)
  (l : list read_event) :
  well_typed entry = true →
  let attrs0 :=
    <["_is_disabled" :=
        PAtom (ABool (uac_is_disabled (account_control entry)))]>
      (requested user_attribute_names entry) in
  ∃ attrs l',
    user_dict base entry name l
    = (Ok {| dict_dn := ldap_entry_dn entry; dict_sAMAccountName := name;
             dict_objectSid := ldap_objectSid entry;
             dict_attributes := attrs |}, l')
    ∧ match ldap_objectSid entry with
      | Some sid =>
          if sid_falsy sid then attrs = attrs0
          else ∃ attrs1, uid_step_spec base sid attrs0 attrs1
                         ∧ gid_step_spec base attrs1 attrs
      | None => attrs = attrs0
      end.
Proof.
  intros Hwt attrs0. unfold user_dict.
  unfold mbind at 1, reading_bind at 1, lift at 1.
  rewrite account_disabled_well_typed by done. fold attrs0.
  destruct (ldap_objectSid entry) as [sid|]; [|by eexists _, _].
  destruct (sid_falsy sid); [by eexists _, _|].
  destruct (sid_to_string_returns sid) as [sid_string Hs].
  unfold mbind at 1, reading_bind at 1.
  unfold mbind at 1, reading_bind at 1, lift at 1. rewrite Hs.
  destruct (uid_step_frame base name sid_string sid attrs0 l)
    as (attrs1 & l1 & Hrun1 & Hspec1).
  unfold mbind at 1, reading_bind at 1. rewrite Hrun1.
  destruct (gid_step_frame entry base name attrs1 l1 Hwt)
    as (attrs2 & l2 & Hrun2 & Hspec2).
  { destruct Hspec1 as [Hframe _]. rewrite Hframe by done.
    unfold attrs0. rewrite lookup_insert_ne by done.
    apply requested_lookup_in. unfold user_attribute_names. set_solver. }
  rewrite Hrun2. eexists _, _. split; [reflexivity|].
  by exists attrs1.
Qed.

End Reading.

(** ** The identifiers of a user read from the source *)

Section UserIds.

Import Ldap.

Lemma spec_rid_sid_to_uid (v : sid_value) (base rid : Z) :
  spec_rid v = Some rid →
  sid_falsy v = false ∧ sid_to_uid v base = Ok (Some (base + rid)).
Proof.
  destruct v as [|s|b]; cbn [spec_rid]; intros H.
  - discriminate.
  - destruct (String.prefix "S-" s) eqn:Hp; [|discriminate].
    split; [by destruct s|].
    rewrite sid_to_uid_text by done.
    destruct (8 <=? length (Py.split "-" s))%nat; [|discriminate].
    cbn [andb] in H. destruct (Py.int _); by inversion H.
  - destruct (Nat.leb_spec 12 (length b)) as [H12|]; [|discriminate].
    split; [destruct b; [cbn in H12; lia | done]|].
    rewrite sid_to_uid_bytes.
    destruct (Nat.leb_spec 1 (declared_count b)) as [H1|]; [|discriminate].
    destruct (Nat.leb_spec (8 + 4 * declared_count b) (length b)) as [Hf|];
      [|discriminate].
    cbn [andb] in H. inversion H; subst rid.
    destruct (Nat.ltb_spec (length b) 12); [lia|].
    destruct (Nat.eqb_spec (declared_count b) 0); [lia|]. reflexivity.
Qed.

Lemma not_set_false (attrs : gmap string pyval) (k : string) (v : pyval) :
  attrs !! k = Some v → truthy v = true → not_set attrs k = false.
Proof. intros Hk Ht. unfold not_set. by rewrite Hk, Ht. Qed.

Lemma not_set_eq (attrs attrs' : gmap string pyval) (k : string) :
  attrs' !! k = attrs !! k → not_set attrs' k = not_set attrs k.
Proof. intros H. unfold not_set. by rewrite H. Qed.

Lemma user_attribute_in (k : string) :
  k ∈ user_attribute_names →
  ∀ entry b,
    (<["_is_disabled" := b]> (requested user_attribute_names entry)) !! k
    = ldap_attributes entry !! k.
Proof.
  intros Hin entry b. rewrite lookup_insert_ne.
  - by apply requested_lookup_in.
  - intros <-. revert Hin. unfold user_attribute_names. set_solver.
Qed.

(** X23.  An entry whose account-control value and primary group are
    integers where present always yields a dictionary.  It carries the
    login name, and under ['_is_disabled'] whether bit 0x0002 of the
    account-control value is set; a [uidNumber] or [gidNumber] that the
    entry holds with a truthy value is kept as it is and is not marked as
    calculated, whatever the SID and the primary group say. *)
Theorem explicit_ids_kept (base : Z) (entry : ldap_entry) (name : string)
  (l : list read_event) :
  well_typed entry = true →
  ∃ user l',
    user_dict base entry name l = (Ok user, l')
    ∧ dict_sAMAccountName user = name
    ∧ dict_attributes user !! "_is_disabled"
      = Some (PAtom (ABool (uac_is_disabled (account_control entry))))
    ∧ (∀ v, ldap_attributes entry !! "uidNumber" = Some v → truthy v = true →
         dict_attributes user !! "uidNumber" = Some v
         ∧ dict_attributes user !! "_calculated_uid" = None)
    ∧ (∀ v, ldap_attributes entry !! "gidNumber" = Some v → truthy v = true →
         dict_attributes user !! "gidNumber" = Some v
         ∧ dict_attributes user !! "_calculated_gid" = None).
Proof.
  intros Hwt.
  destruct (user_dict_run base entry name l Hwt) as (attrs & l' & Hrun & Hspec).
  cbv zeta in Hspec. eexists _, _. split; [exact Hrun|]. cbn.
  split; [done|].
  set (attrs0 := <["_is_disabled" := _]> _) in Hspec.
  assert (attrs0 !! "_is_disabled"
          = Some (PAtom (ABool (uac_is_disabled (account_control entry)))))
    as Hdis by apply lookup_insert_eq.
  assert (attrs0 !! "_calculated_uid" = None) as Hcu.
  { unfold attrs0. rewrite lookup_insert_ne by done.
    apply requested_lookup_out. unfold user_attribute_names. set_solver. }
  assert (attrs0 !! "_calculated_gid" = None) as Hcg.
  { unfold attrs0. rewrite lookup_insert_ne by done.
    apply requested_lookup_out. unfold user_attribute_names. set_solver. }
  assert (attrs0 !! "uidNumber" = ldap_attributes entry !! "uidNumber") as Hu.
  { apply user_attribute_in. unfold user_attribute_names. set_solver. }
  assert (attrs0 !! "gidNumber" = ldap_attributes entry !! "gidNumber") as Hg.
  { apply user_attribute_in. unfold user_attribute_names. set_solver. }
  assert (attrs = attrs0
          ∨ ∃ sid attrs1, uid_step_spec base sid attrs0 attrs1
                          ∧ gid_step_spec base attrs1 attrs) as [->|Hsteps].
  { destruct (ldap_objectSid entry) as [sid|]; [|by left].
    destruct (sid_falsy sid); [by left|].
    destruct Hspec as (attrs1 & H1 & H2). right. by exists sid, attrs1. }
  { split; [done|]. split; intros v Hv Ht; by rewrite ?Hu, ?Hg. }
  destruct Hsteps as (sid & attrs1 & (Hf1 & Hk1 & _) & (Hf2 & Hk2 & _)).
  split; [by rewrite Hf2, Hf1|].
  split; intros v Hv Ht.
  - rewrite !Hf2 by done.
    rewrite Hk1; [by rewrite Hu|].
    eapply not_set_false; [by rewrite Hu | done].
  - assert (attrs1 !! "gidNumber" = Some v) as Hg1.
    { by rewrite Hf1, Hg. }
    rewrite Hk2 by (by eapply not_set_false).
    split; [done|]. by rewrite Hf1.
Qed.

(** X24.  A well-typed entry without a truthy [uidNumber] whose SID is
    valid gets [uidNumber = base + RID], marked with ['_calculated_uid'];
    except that a sum of zero is dropped as if the SID had been invalid,
    because the result is tested for truth. *)
Theorem calculated_uid_from_sid (base : Z) (entry : ldap_entry) (name : string)
  (sid : sid_value) (rid : Z) (l : list read_event) :
  well_typed entry = true →
  not_set (ldap_attributes entry) "uidNumber" = true →
  ldap_objectSid entry = Some sid →
  spec_rid sid = Some rid →
  ∃ user l',
    user_dict base entry name l = (Ok user, l')
    ∧ if base + rid =? 0 then
        dict_attributes user !! "uidNumber"
        = ldap_attributes entry !! "uidNumber"
        ∧ dict_attributes user !! "_calculated_uid" = None
      else
        dict_attributes user !! "uidNumber" = Some (PAtom (AInt (base + rid)))
        ∧ dict_attributes user !! "_calculated_uid" = Some (PAtom (ABool true)).
Proof.
  intros Hwt Hunset Hsid Hrid.
  destruct (user_dict_run base entry name l Hwt) as (attrs & l' & Hrun & Hspec).
  cbv zeta in Hspec. eexists _, _. split; [exact Hrun|]. cbn.
  set (attrs0 := <["_is_disabled" := _]> _) in Hspec.
  destruct (spec_rid_sid_to_uid sid base rid Hrid) as [Hfalsy Huid].
  rewrite Hsid, Hfalsy in Hspec.
  destruct Hspec as (attrs1 & (Hf1 & _ & Hc1) & (Hf2 & _)).
  assert (attrs0 !! "uidNumber" = ldap_attributes entry !! "uidNumber") as Hu.
  { apply user_attribute_in. unfold user_attribute_names. set_solver. }
  assert (attrs0 !! "_calculated_uid" = None) as Hcu.
  { unfold attrs0. rewrite lookup_insert_ne by done.
    apply requested_lookup_out. unfold user_attribute_names. set_solver. }
  assert (not_set attrs0 "uidNumber" = true) as Hns.
  { by rewrite (not_set_eq (ldap_attributes entry) attrs0). }
  specialize (Hc1 Hns). rewrite Huid in Hc1.
  rewrite !Hf2 by done.
  destruct (base + rid =? 0); [by subst attrs1 | exact Hc1].
Qed.

(** X25.  The group ID of a user is calculated from the primary group only
    inside the branch taken when the entry has a truthy SID: a well-typed
    entry with a non-zero primary group and no truthy [gidNumber] gets
    [gidNumber = base + primaryGroupID], marked with ['_calculated_gid'],
    when it has a non-empty SID, valid or not, and keeps its [gidNumber]
    unset when it has none. *)
Theorem calculated_gid_needs_sid (base : Z) (entry : ldap_entry) (name : string)
  (p : Z) (l : list read_event) :
  well_typed entry = true →
  not_set (ldap_attributes entry) "gidNumber" = true →
  ldap_attributes entry !! "primaryGroupID" = Some (PAtom (AInt p)) →
  p ≠ 0 →
  ∃ user l',
    user_dict base entry name l = (Ok user, l')
    ∧ if match ldap_objectSid entry with
         | Some sid => negb (sid_falsy sid)
         | None => false
         end
      then
        dict_attributes user !! "gidNumber" = Some (PAtom (AInt (base + p)))
        ∧ dict_attributes user !! "_calculated_gid" = Some (PAtom (ABool true))
      else
        dict_attributes user !! "gidNumber"
        = ldap_attributes entry !! "gidNumber"
        ∧ dict_attributes user !! "_calculated_gid" = None.
Proof.
  intros Hwt Hunset Hpg Hp.
  destruct (user_dict_run base entry name l Hwt) as (attrs & l' & Hrun & Hspec).
  cbv zeta in Hspec. eexists _, _. split; [exact Hrun|]. cbn.
  set (attrs0 := <["_is_disabled" := _]> _) in Hspec.
  assert (attrs0 !! "gidNumber" = ldap_attributes entry !! "gidNumber") as Hg.
  { apply user_attribute_in. unfold user_attribute_names. set_solver. }
  assert (attrs0 !! "primaryGroupID"
          = ldap_attributes entry !! "primaryGroupID") as Hpg0.
  { apply user_attribute_in. unfold user_attribute_names. set_solver. }
  assert (attrs0 !! "_calculated_gid" = None) as Hcg.
  { unfold attrs0. rewrite lookup_insert_ne by done.
    apply requested_lookup_out. unfold user_attribute_names. set_solver. }
  destruct (ldap_objectSid entry) as [sid|]; [|by subst attrs].
  destruct (sid_falsy sid); cbn [negb]; [by subst attrs|].
  destruct Hspec as (attrs1 & (Hf1 & _) & (_ & _ & Hc2)).
  assert (not_set attrs1 "gidNumber" = true) as Hns.
  { rewrite (not_set_eq attrs0 attrs1) by by rewrite Hf1.
    by rewrite (not_set_eq (ldap_attributes entry) attrs0). }
  specialize (Hc2 Hns). rewrite Hf1, Hpg0, Hpg in Hc2 by done.
  apply Z.eqb_neq in Hp. by rewrite Hp in Hc2.
Qed.

Lemma explicit_ids_kept_witness :
  ∃ user l',
    user_dict 200000 LdapExample.alice "alice" [] = (Ok user, l')
    ∧ dict_attributes user !! "uidNumber" = Some (PAtom (AInt 5000))
    ∧ dict_attributes user !! "_calculated_uid" = None.
Proof.
  destruct (explicit_ids_kept 200000 LdapExample.alice "alice" [])
    as (user & l' & Hrun & _ & _ & Hu & _); [reflexivity|].
  exists user, l'. split; [exact Hrun|]. by apply Hu.
Defined.

Lemma calculated_uid_from_sid_witness :
  ∃ user l',
    user_dict 1668600000 LdapExample.jtong "jtong" [] = (Ok user, l')
    ∧ dict_attributes user !! "uidNumber" = Some (PAtom (AInt 1668601105))
    ∧ dict_attributes user !! "_calculated_uid" = Some (PAtom (ABool true)).
Proof.
  apply (calculated_uid_from_sid 1668600000 LdapExample.jtong "jtong"
           (SidStr "S-1-5-21-1-2-3-1105") 1105 []); reflexivity.
Defined.

Lemma calculated_gid_needs_sid_witness :
  ∃ user l',
    user_dict 1668600000 LdapExample.jtong "jtong" [] = (Ok user, l')
    ∧ dict_attributes user !! "gidNumber" = Some (PAtom (AInt 1668600513))
    ∧ dict_attributes user !! "_calculated_gid" = Some (PAtom (ABool true)).
Proof.
  apply (calculated_gid_needs_sid 1668600000 LdapExample.jtong "jtong" 513 []);
    done.
Defined.

End UserIds.

(** ** The lists read from the source *)

Section SourceLists.

Import Ldap.

Lemma login_names_cons (entry : ldap_entry) (entries : list ldap_entry) :
  login_names (entry :: entries)
  = match ldap_sAMAccountName entry with
    | Some name =>
        if is_empty_string name then login_names entries
        else name :: login_names entries
    | None => login_names entries
    end.
Proof.
  unfold login_names. cbn.
  destruct (ldap_sAMAccountName entry) as [n|]; [|reflexivity].
  by destruct (is_empty_string n).
Qed.

Lemma read_users_well_typed (base : Z) (entries : list ldap_entry)
  (acc : list ad_dict) (l : list read_event) :
  Forall (λ entry, well_typed entry = true) entries →
  ∃ users l',
    read_entries (user_dict base) entries acc l = (Ok (acc ++ users)%list, l')
    ∧ map dict_sAMAccountName users = login_names entries.
Proof.
  intros Hall. revert acc l.
  induction Hall as [|entry entries Hwt _ IH]; intros acc l.
  - exists [], l. by rewrite app_nil_r.
  - cbn [read_entries]. rewrite login_names_cons.
    destruct (ldap_sAMAccountName entry) as [name|]; [|apply IH].
    destruct (is_empty_string name); [apply IH|].
    destruct (user_dict_run base entry name l Hwt) as (attrs & l1 & Hrun & _).
    unfold mbind at 1, reading_bind at 1. rewrite Hrun.
    destruct (IH (acc ++ [ {| dict_dn := ldap_entry_dn entry;
                              dict_sAMAccountName := name;
                              dict_objectSid := ldap_objectSid entry;
                              dict_attributes := attrs |} ])%list l1)
      as (users & l2 & Hrest & Hnames).
    eexists (_ :: users), l2. split.
    + rewrite Hrest. by rewrite <- app_assoc.
    + cbn. by rewrite Hnames.
Qed.

Lemma read_users_raises (base : Z) (entries : list ldap_entry)
  (entry : ldap_entry) (name : string) :
  entry ∈ entries →
  ldap_sAMAccountName entry = Some name →
  name ≠ "" →
  (∀ l, ∃ x, user_dict base entry name l = (Raise x, l)) →
  ∀ acc l, ∃ x l', read_entries (user_dict base) entries acc l = (Raise x, l').
Proof.
  intros Hin Hname Hne Hraise.
  induction entries as [|e entries IH]; [by apply elem_of_nil in Hin|].
  intros acc l. cbn [read_entries].
  apply elem_of_cons in Hin as [<-|Hin].
  - rewrite Hname, (is_empty_string_false _ Hne).
    destruct (Hraise l) as [x Hx].
    unfold mbind, reading_bind. rewrite Hx. by eexists _, _.
  - specialize (IH Hin).
    destruct (ldap_sAMAccountName e) as [n|]; [|apply IH].
    destruct (is_empty_string n); [apply IH|].
    unfold mbind, reading_bind.
    destruct (user_dict base e n l) as [[u|x] l1]; [apply IH | by eexists _, _].
Qed.

Lemma text_account_control_raises (base : Z) (entry : ldap_entry)
  (name s : string) (l : list read_event) :
  ldap_attributes entry !! "userAccountControl" = Some (PAtom (AStr s)) →
  s ≠ "" →
  ∃ x, user_dict base entry name l = (Raise x, l).
Proof.
  intros Huac Hs. exists TypeError. unfold user_dict.
  unfold mbind at 1, reading_bind at 1, lift at 1.
  unfold account_disabled. rewrite Huac. by destruct s.
Qed.

(** X26.  When every entry returned by the search has integers for its
    account-control value and primary group where present,
    [get_ad_users] returns one dictionary per entry that has a non-empty
    login name, in the order of the entries, each under that name;
    entries without a login name are passed over. *)
Theorem get_ad_users_in_order (base : Z) (entries : list ldap_entry)
  (l : list read_event) :
  Forall (λ entry, well_typed entry = true) entries →
  ∃ users l',
    get_ad_users base (Ok entries) l = (Ok users, l')
    ∧ map dict_sAMAccountName users = login_names entries.
Proof.
  intros Hall.
  destruct (read_users_well_typed base entries [] l Hall)
    as (users & l1 & Hrun & Hnames).
  exists users, (l1 ++ [InfoRetrievedUsers (length users)])%list.
  split; [|exact Hnames].
  unfold get_ad_users, try_reading.
  unfold mbind at 1, reading_bind at 1, lift at 1.
  unfold mbind at 1, reading_bind at 1. rewrite Hrun. reflexivity.
Qed.

Lemma get_ad_users_in_order_witness :
  ∃ users l',
    get_ad_users 200000 (Ok [LdapExample.jtong; LdapExample.alice]) []
    = (Ok users, l')
    ∧ map dict_sAMAccountName users = ["jtong"; "alice"].
Proof.
  apply (get_ad_users_in_order 200000 [LdapExample.jtong; LdapExample.alice] []).
  by repeat constructor.
Defined.

(** X27.  [get_ad_users] never raises, but it is all or nothing: when the
    search raises, or when a single entry with a login name carries a
    non-empty text where the account-control integer should be, the
    [TypeError] of [uac & 0x0002] ends the loop and the function returns
    the empty list, dropping every user already read. *)
Theorem get_ad_users_all_or_nothing (base : Z)
  (search : outcome (list ldap_entry)) (l : list read_event) :
  match search with
  | Raise _ => True
  | Ok entries =>
      ∃ entry name s,
        entry ∈ entries
        ∧ ldap_sAMAccountName entry = Some name ∧ name ≠ ""
        ∧ ldap_attributes entry !! "userAccountControl" = Some (PAtom (AStr s))
        ∧ s ≠ ""
  end →
  ∃ x l', get_ad_users base search l
          = (Ok [], (l' ++ [ErrorFailedUsers x])%list).
Proof.
  intros H. unfold get_ad_users, try_reading.
  destruct search as [entries|x].
  - destruct H as (entry & name & s & Hin & Hname & Hne & Huac & Hs).
    destruct (read_users_raises base entries entry name Hin Hname Hne) with
      (acc := @nil ad_dict) (l := l) as (x & l' & Hrun).
    { intros l0. by eapply text_account_control_raises. }
    exists x, l'.
    unfold mbind at 1, reading_bind at 1, lift at 1.
    unfold mbind at 1, reading_bind at 1. rewrite Hrun. reflexivity.
  - by exists x, l.
Qed.

Lemma get_ad_users_all_or_nothing_witness :
  ∃ x l', get_ad_users 200000
            (Ok [LdapExample.jtong; LdapExample.raw; LdapExample.alice]) []
          = (Ok [], (l' ++ [ErrorFailedUsers x])%list).
Proof.
  apply (get_ad_users_all_or_nothing 200000
           (Ok [LdapExample.jtong; LdapExample.raw; LdapExample.alice]) []).
  exists LdapExample.raw, "raw", "512".
  split; [set_solver|]. done.
Defined.

(** X28.  A group entry without a truthy [gidNumber] whose SID is valid
    gets [gidNumber = base + RID] (unless that sum is zero), marked with
    ['_calculated_gid']; and this is the value that the group phase then
    passes to [group_add] as [o_gidnumber]. *)
Theorem group_gid_from_sid (base : Z) (entry : ldap_entry) (name : string)
  (sid : sid_value) (rid : Z) (l : list read_event) :
  not_set (ldap_attributes entry) "gidNumber" = true →
  ldap_objectSid entry = Some sid →
  spec_rid sid = Some rid →
  base + rid ≠ 0 →
  ∃ group l',
    group_dict base entry name l = (Ok group, l')
    ∧ dict_attributes group !! "gidNumber" = Some (PAtom (AInt (base + rid)))
    ∧ dict_attributes group !! "_calculated_gid" = Some (PAtom (ABool true))
    ∧ group_add_params (as_ad_object group) !! "o_gidnumber"
      = Some (PAtom (AInt (base + rid))).
Proof.
  intros Hunset Hsid Hrid Hnz.
  destruct (spec_rid_sid_to_uid sid base rid Hrid) as [Hfalsy Huid].
  destruct (sid_to_string_returns sid) as [sid_string Hs].
  assert (not_set (requested group_attribute_names entry) "gidNumber" = true)
    as Hns.
  { rewrite (not_set_eq (ldap_attributes entry)); [done|].
    apply requested_lookup_in. unfold group_attribute_names. set_solver. }
  unfold group_dict. rewrite Hsid, Hfalsy.
  unfold mbind, reading_bind, lift. rewrite Hs, Hns, Huid.
  apply Z.eqb_neq in Hnz. rewrite Hnz.
  eexists _, _. split; [reflexivity|]. cbn [dict_attributes].
  split; [by rewrite lookup_insert_ne, lookup_insert_eq|].
  split; [by rewrite lookup_insert_eq|].
  unfold group_add_params, as_ad_object, attributes.
  cbn [sAMAccountName other_attributes dict_attributes dict_sAMAccountName].
  rewrite lookup_insert_ne by done.
  rewrite lookup_insert_ne by done. rewrite lookup_insert_eq.
  by rewrite lookup_insert_eq.
Qed.

Lemma group_gid_from_sid_witness :
  ∃ group l',
    group_dict 200000 LdapExample.devs "devs" [] = (Ok group, l')
    ∧ dict_attributes group !! "gidNumber" = Some (PAtom (AInt 202001))
    ∧ dict_attributes group !! "_calculated_gid" = Some (PAtom (ABool true))
    ∧ group_add_params (as_ad_object group) !! "o_gidnumber"
      = Some (PAtom (AInt 202001)).
Proof.
  apply (group_gid_from_sid 200000 LdapExample.devs "devs"
           (SidStr "S-1-5-21-1-2-3-2001") 2001 []); done.
Defined.

End SourceLists.

(** ** The diagnostic command *)

Section Diagnostic.

Import Ldap ShowId.

Lemma present_integer (entry : ldap_entry) (k : string) (v : pyval) :
  integer_or_missing (ldap_attributes entry !! k) = true →
  present entry k = Some v →
  ∃ z, v = PAtom (AInt z).
Proof.
  unfold present. intros Hi Hp.
  destruct (ldap_attributes entry !! k) as [[[| |z|]|]|]; try done.
  destruct (truthy (PAtom (AInt z))); [|done].
  exists z. congruence.
Qed.

(** The block logged once the RID is known. *)
Lemma report_run (base : Z) (entry : ldap_entry) (sid_string : option string)
  (rid : Z) (l : list show_line) :
  integer_or_missing (ldap_attributes entry !! "primaryGroupID") = true →
  ∃ ls, report base entry sid_string rid l
        = (Ok tt,
           (l ++ [InfoSid sid_string; InfoRid rid; InfoBlank;
                  InfoCurrentBase base; InfoCalculatedUid (base + rid)]
              ++ ls)%list).
Proof.
  intros Hint. unfold report, mbind, showing_bind, say, lift.
  destruct (present entry "uidNumber") as [u|];
    destruct (present entry "gidNumber") as [g|];
    try (destruct (present entry "primaryGroupID") as [p|] eqn:Hp;
         [destruct (present_integer entry "primaryGroupID" p Hint Hp)
            as [z ->]|]);
    cbn; rewrite <- ?app_assoc; cbn [app]; eexists; reflexivity.
Qed.

Lemma show_sid_text (base : Z) (entry : ldap_entry) (s : string) (rid : Z)
  (l : list show_line) :
  integer_or_missing (ldap_attributes entry !! "primaryGroupID") = true →
  ldap_objectSid entry = Some (SidStr s) →
  spec_rid (SidStr s) = Some rid →
  ∃ ls, show_sid base entry l = (Ok tt, (l ++ ls)%list)
        ∧ InfoRid rid ∈ ls ∧ InfoCalculatedUid (base + rid) ∈ ls.
Proof.
  intros Hint Hsid Hrid. cbn [spec_rid] in Hrid.
  destruct (String.prefix "S-" s) eqn:Hp; [|discriminate].
  destruct (8 <=? length (Py.split "-" s))%nat eqn:H8; [|discriminate].
  cbn [andb] in Hrid.
  destruct (Py.int (List.last (Py.split "-" s) "")) as [r|] eqn:Hint';
    [|discriminate].
  inversion Hrid; subst r.
  unfold show_sid. rewrite Hsid.
  assert (sid_falsy (SidStr s) = false) as -> by by destruct s.
  cbn [is_sid_string]. rewrite Hp. cbv zeta. rewrite H8.
  unfold mbind at 1, showing_bind at 1, say at 1.
  unfold mbind at 1, showing_bind at 1, lift at 1. rewrite Hint'.
  destruct (report_run base entry (Some s) rid (l ++ [DebugRawSidType true])
              Hint) as [ls Hrun].
  rewrite Hrun. eexists. split; [by rewrite <- app_assoc|].
  split; set_solver.
Qed.

Lemma show_sid_bytes (base : Z) (entry : ldap_entry) (b : list byte)
  (l : list show_line) :
  integer_or_missing (ldap_attributes entry !! "primaryGroupID") = true →
  ldap_objectSid entry = Some (SidBytes b) →
  (12 ≤ length b)%nat →
  let offset := Z.to_nat (8 + (Z.of_nat (declared_count b) - 1) * 4) in
  (offset + 4 ≤ length b)%nat →
  let rid := Py.le_value (Py.slice offset (offset + 4) b) in
  ∃ ls, show_sid base entry l = (Ok tt, (l ++ ls)%list)
        ∧ InfoRid rid ∈ ls ∧ InfoCalculatedUid (base + rid) ∈ ls.
Proof.
  intros Hint Hsid H12 offset Hfull rid.
  unfold show_sid. rewrite Hsid.
  assert (sid_falsy (SidBytes b) = false) as ->.
  { destruct b; [cbn in H12; lia | done]. }
  cbn [is_sid_string sid_buffer]. cbv zeta.
  destruct (sid_to_string_returns (SidBytes b)) as [sid_string Hs].
  unfold mbind at 1, showing_bind at 1, say at 1.
  unfold mbind at 1, showing_bind at 1, lift at 1. rewrite Hs.
  destruct (Nat.leb_spec 12 (length b)) as [_|]; [|lia].
  assert (∃ c, nth_error b 1 = Some c) as [c Hc].
  { destruct b as [|b0 [|b1 r]]; cbn in H12; try lia. by eexists. }
  unfold Py.index. rewrite Hc.
  unfold mbind at 1, showing_bind at 1, lift at 1.
  assert (Py.byte_val c = Z.of_nat (declared_count b)) as ->.
  { unfold declared_count, Py.byte_val. rewrite Hc. by rewrite N_nat_Z. }
  unfold mbind at 1, showing_bind at 1, say at 1.
  unfold mbind at 1, showing_bind at 1, say at 1.
  unfold mbind at 1, showing_bind at 1, lift at 1.
  fold offset.
  assert (Z.to_nat (8 + (Z.of_nat (declared_count b) - 1) * 4 + 4)
          = (offset + 4)%nat) as -> by (unfold offset; lia).
  rewrite unpack_I_le_full by done. fold rid.
  match goal with
  | |- ∃ ls, report _ _ _ _ ?l0 = _ ∧ _ =>
      destruct (report_run base entry sid_string rid l0 Hint) as [ls Hrun]
  end.
  rewrite Hrun. eexists. split; [by rewrite <- !app_assoc|].
  split; set_solver.
Qed.

(** The whole command, once [show_sid] is known to return. *)
Lemma show_user_ids_found (base : Z) (username : string)
  (entry : ldap_entry) (rest : list ldap_entry) (l ls : list show_line) :
  show_sid base entry
    (l ++ [Connection LogConnectedAD; InfoRuleOpen; InfoUser username;
           InfoRule])%list
  = (Ok tt,
     ((l ++ [Connection LogConnectedAD; InfoRuleOpen; InfoUser username;
             InfoRule]) ++ ls)%list) →
  fst (show_user_ids true base username (Ok (entry :: rest)) l) = Ok true
  ∧ ∀ x, x ∈ ls →
         x ∈ snd (show_user_ids true base username (Ok (entry :: rest)) l).
Proof.
  intros Hsid. unfold show_user_ids, show_user_ids_try, try_showing, mbind,
    showing_bind, say, lift.
  rewrite <- !app_assoc. cbn [app]. rewrite Hsid. cbn [fst snd].
  split; [reflexivity|]. intros x Hx. set_solver.
Qed.

(** The whole command, once [show_sid] is known to raise. *)
Lemma show_user_ids_failed (base : Z) (username : string)
  (entry : ldap_entry) (rest : list ldap_entry) (l l1 : list show_line)
  (e : pyexn) :
  show_sid base entry
    (l ++ [Connection LogConnectedAD; InfoRuleOpen; InfoUser username;
           InfoRule])%list
  = (Raise e, l1) →
  fst (show_user_ids true base username (Ok (entry :: rest)) l) = Ok false
  ∧ ErrorFailed e ∈ snd (show_user_ids true base username
                                        (Ok (entry :: rest)) l).
Proof.
  intros Hsid. unfold show_user_ids, show_user_ids_try, try_showing, mbind,
    showing_bind, say, lift.
  rewrite <- !app_assoc. cbn [app]. rewrite Hsid. cbn [fst snd].
  split; [reflexivity|]. set_solver.
Qed.

Lemma int_raises_ValueError (s : string) (e : pyexn) :
  Py.int s = Raise e → e = ValueError.
Proof.
  unfold Py.int.
  destruct (match Py.lstrip s with
            | String "+" r => (false, r)
            | String "-" r => (true, r)
            | _ => (false, Py.lstrip s)
            end) as [neg s2].
  destruct (Py.scan_digits s2 Py.AtStart 0%N 0%nat) as [[[v nd] r]|];
    [|congruence].
  destruct (Py.int_max_str_digits <? nd)%nat; [congruence|].
  destruct (Py.all_space r); congruence.
Qed.

Lemma show_sid_text_unparsable (base : Z) (entry : ldap_entry) (s : string)
  (l : list show_line) :
  ldap_objectSid entry = Some (SidStr s) →
  String.prefix "S-" s = true →
  (8 ≤ length (Py.split "-" s))%nat →
  unparsable (List.last (Py.split "-" s) EmptyString) = true →
  ∃ l1, show_sid base entry l = (Raise ValueError, l1).
Proof.
  intros Hsid Hp H8 Hun. unfold show_sid. rewrite Hsid.
  assert (sid_falsy (SidStr s) = false) as -> by by destruct s.
  cbn [is_sid_string]. rewrite Hp. cbv zeta.
  destruct (Nat.leb_spec 8 (length (Py.split "-" s))) as [_|]; [|lia].
  unfold unparsable in Hun.
  destruct (Py.int (List.last (Py.split "-" s) EmptyString)) as [z|e] eqn:Hint;
    [discriminate|].
  apply int_raises_ValueError in Hint. subst e.
  unfold mbind at 1, showing_bind at 1, say at 1.
  unfold mbind at 1, showing_bind at 1, lift at 1.
  by eexists.
Qed.

Lemma show_sid_bytes_truncated (base : Z) (entry : ldap_entry) (b : list byte)
  (l : list show_line) :
  ldap_objectSid entry = Some (SidBytes b) →
  (12 ≤ length b)%nat →
  (length b < 8 + 4 * declared_count b)%nat →
  ∃ l1, show_sid base entry l = (Raise StructError, l1).
Proof.
  intros Hsid H12 Hshort. unfold show_sid. rewrite Hsid.
  assert (sid_falsy (SidBytes b) = false) as ->.
  { destruct b; [cbn in H12; lia | done]. }
  cbn [is_sid_string sid_buffer]. cbv zeta.
  destruct (sid_to_string_returns (SidBytes b)) as [sid_string Hs].
  unfold mbind at 1, showing_bind at 1, say at 1.
  unfold mbind at 1, showing_bind at 1, lift at 1. rewrite Hs.
  destruct (Nat.leb_spec 12 (length b)) as [_|]; [|lia].
  assert (∃ c, nth_error b 1 = Some c) as [c Hc].
  { destruct b as [|b0 [|b1 r]]; cbn in H12; try lia. by eexists. }
  unfold Py.index. rewrite Hc.
  unfold mbind at 1, showing_bind at 1, lift at 1.
  assert (Py.byte_val c = Z.of_nat (declared_count b)) as ->.
  { unfold declared_count, Py.byte_val. rewrite Hc. by rewrite N_nat_Z. }
  unfold mbind at 1, showing_bind at 1, say at 1.
  unfold mbind at 1, showing_bind at 1, say at 1.
  unfold mbind at 1, showing_bind at 1, lift at 1.
  set (offset := Z.to_nat (8 + (Z.of_nat (declared_count b) - 1) * 4)).
  assert (Z.to_nat (8 + (Z.of_nat (declared_count b) - 1) * 4 + 4)
          = (offset + 4)%nat) as -> by (unfold offset; lia).
  rewrite unpack_I_le_short by (unfold offset; lia).
  by eexists.
Qed.

(** X29.  What [show_user_ids] answers for the first entry found, when
    that entry has a SID and its primary group is an integer or missing.
    For a valid SID it returns [True] and logs the RID and, as calculated
    UID, exactly the value that [sid_to_uid] gives a sync run: base plus
    RID.  For an ['S-'] text of at least 8 components whose last one is
    not an integer, and for a buffer of at least 12 bytes that is shorter
    than the sub-authorities it declares, the exception is caught and the
    command returns [False].  For a buffer of at least 12 bytes that
    declares no sub-authority it reads the RID at offset
    8 + (0 - 1) * 4 = 4, inside the authority field, returns [True] and
    logs a UID from it, where [sid_to_uid] returns [None]. *)
Theorem show_id_reports_rid (base : Z) (username : string)
  (entry : ldap_entry) (rest : list ldap_entry) (sid : sid_value)
  (l : list show_line) :
  ldap_objectSid entry = Some sid →
  integer_or_missing (ldap_attributes entry !! "primaryGroupID") = true →
  let r := show_user_ids true base username (Ok (entry :: rest)) l in
  (∀ rid, spec_rid sid = Some rid →
     fst r = Ok true
     ∧ InfoRid rid ∈ snd r
     ∧ InfoCalculatedUid (base + rid) ∈ snd r
     ∧ sid_to_uid sid base = Ok (Some (base + rid)))
  ∧ (∀ s, sid = SidStr s → String.prefix "S-" s = true →
     (8 ≤ length (Py.split "-" s))%nat →
     unparsable (List.last (Py.split "-" s) EmptyString) = true →
     fst r = Ok false ∧ ErrorFailed ValueError ∈ snd r)
  ∧ (∀ b, sid = SidBytes b → (12 ≤ length b)%nat →
     (length b < 8 + 4 * declared_count b)%nat →
     fst r = Ok false ∧ ErrorFailed StructError ∈ snd r)
  ∧ (∀ b, sid = SidBytes b → (12 ≤ length b)%nat → declared_count b = 0%nat →
     fst r = Ok true
     ∧ InfoRid (Py.le_value (Py.slice 4 8 b)) ∈ snd r
     ∧ InfoCalculatedUid (base + Py.le_value (Py.slice 4 8 b)) ∈ snd r
     ∧ sid_to_uid sid base = Ok None).
Proof.
  intros Hsid Hint. cbv zeta.
  set (l0 := (l ++ [Connection LogConnectedAD; InfoRuleOpen;
                    InfoUser username; InfoRule])%list).
  split; [|split; [|split]].
  - intros rid Hrid.
    destruct (spec_rid_sid_to_uid sid base rid Hrid) as [_ Huid].
    assert (∃ ls, show_sid base entry l0 = (Ok tt, (l0 ++ ls)%list)
                  ∧ InfoRid rid ∈ ls ∧ InfoCalculatedUid (base + rid) ∈ ls)
      as (ls & Hrun & Hr & Hu).
    { destruct sid as [|s|b];
        [done | exact (show_sid_text base entry s rid l0 Hint Hsid Hrid) |].
      cbn [spec_rid] in Hrid.
      destruct (Nat.leb_spec 12 (length b)) as [H12|]; [|discriminate].
      destruct (Nat.leb_spec 1 (declared_count b)) as [H1|]; [|discriminate].
      destruct (Nat.leb_spec (8 + 4 * declared_count b) (length b)) as [Hf|];
        [|discriminate].
      cbn [andb] in Hrid. inversion Hrid; subst rid.
      assert (Z.to_nat (8 + (Z.of_nat (declared_count b) - 1) * 4)
              = (8 + (declared_count b - 1) * 4)%nat) as Hoff by lia.
      destruct (show_sid_bytes base entry b l0 Hint Hsid H12) as (ls & H);
        [lia|].
      cbv zeta in H. rewrite Hoff in H. by exists ls. }
    destruct (show_user_ids_found base username entry rest l ls Hrun)
      as [Hres Hin].
    split; [exact Hres|]. split; [by apply Hin|]. split; [by apply Hin|done].
  - intros s -> Hp H8 Hun.
    destruct (show_sid_text_unparsable base entry s l0 Hsid Hp H8 Hun)
      as [l1 Hrun].
    exact (show_user_ids_failed base username entry rest l l1 ValueError Hrun).
  - intros b -> H12 Hshort.
    destruct (show_sid_bytes_truncated base entry b l0 Hsid H12 Hshort)
      as [l1 Hrun].
    exact (show_user_ids_failed base username entry rest l l1 StructError Hrun).
  - intros b -> H12 Hcount.
    destruct (show_sid_bytes base entry b l0 Hint Hsid H12) as (ls & H).
    { rewrite Hcount. cbn. lia. }
    cbv zeta in H. rewrite Hcount in H. cbn [Z.of_nat Z.to_nat] in H.
    change (Z.to_nat (8 + (0 - 1) * 4)) with 4%nat in H.
    change (4 + 4)%nat with 8%nat in H.
    destruct H as (Hrun & Hr & Hu).
    destruct (show_user_ids_found base username entry rest l ls Hrun)
      as [Hres Hin].
    split; [exact Hres|]. split; [by apply Hin|]. split; [by apply Hin|].
    rewrite sid_to_uid_bytes.
    destruct (Nat.ltb_spec (length b) 12); [lia|]. by rewrite Hcount.
Qed.

Lemma show_id_reports_rid_witness :
  let r := show_user_ids true 1668600000 "jtong" (Ok [LdapExample.jtong]) [] in
  fst r = Ok true
  ∧ InfoRid 1105 ∈ snd r
  ∧ InfoCalculatedUid 1668601105 ∈ snd r.
Proof.
  cbv zeta.
  destruct (show_id_reports_rid 1668600000 "jtong" LdapExample.jtong []
              (SidStr "S-1-5-21-1-2-3-1105") []) as [H _];
    [reflexivity | reflexivity |].
  destruct (H 1105 eq_refl) as (Hres & Hr & Hu & _).
  split; [exact Hres | split; [exact Hr | exact Hu]].
Defined.

End Diagnostic.

(** ** The temporary password *)

Section TempPassword.

Import Azure.

Lemma choice_In (pool : list ascii) (r : nat) :
  pool ≠ [] → In (choice pool r) pool.
Proof.
  intros Hne. unfold choice. apply nth_In.
  apply Nat.mod_upper_bound. by destruct pool.
Qed.

Lemma choice_class (is_class : ascii → bool) (pool : list ascii) (r : nat) :
  pool ≠ [] → forallb is_class pool = true → is_class (choice pool r) = true.
Proof.
  intros Hne Hall. rewrite forallb_forall in Hall. by apply Hall, choice_In.
Qed.

Lemma existsb_removelast (f : ascii → bool) (p : list ascii) :
  existsb f p = false → existsb f (removelast p) = false.
Proof.
  induction p as [|c p IH]; [done|].
  cbn [existsb]. intros [Hc Hp]%orb_false_iff.
  destruct p as [|c' p]; [done|].
  change (removelast (c :: c' :: p)) with (c :: removelast (c' :: p)).
  cbn [existsb]. by rewrite Hc, IH.
Qed.

Lemma Forall_removelast (P : ascii → Prop) (p : list ascii) :
  Forall P p → Forall P (removelast p).
Proof.
  induction 1 as [|c p Hc Hp IH]; [constructor|].
  destruct p as [|c' p]; [constructor|].
  change (removelast (c :: c' :: p)) with (c :: removelast (c' :: p)).
  by constructor.
Qed.

Lemma length_removelast_snoc (p : list ascii) (c : ascii) :
  length (removelast p ++ [c]) = Nat.max (length p) 1.
Proof.
  rewrite length_app. cbn [length].
  destruct p as [|c0 p]; [done|].
  rewrite removelast_firstn_len, length_firstn. cbn [length]. lia.
Qed.

Lemma existsb_nonempty (f : ascii → bool) (p : list ascii) :
  existsb f p = true → (1 ≤ length p)%nat.
Proof. destruct p; [done | cbn; lia]. Qed.

Section Ensure.

Variables (is_class : ascii → bool) (pool : list ascii) (rand : nat → nat).
Hypothesis pool_nonempty : pool ≠ [].

Lemma ensure_length (p : list ascii) (k : nat) :
  length (fst (ensure is_class pool rand (p, k))) = Nat.max (length p) 1.
Proof.
  unfold ensure. destruct (existsb is_class p) eqn:H; cbn [fst].
  - apply existsb_nonempty in H. lia.
  - apply length_removelast_snoc.
Qed.

Lemma ensure_Forall (P : ascii → Prop) (p : list ascii) (k : nat) :
  Forall P p → Forall P pool →
  Forall P (fst (ensure is_class pool rand (p, k))).
Proof.
  intros Hp Hpool. unfold ensure. destruct (existsb is_class p); cbn [fst];
    [done|].
  apply Forall_app. split; [by apply Forall_removelast|].
  constructor; [|constructor].
  rewrite Forall_forall in Hpool. apply Hpool, list_elem_of_In.
  by apply choice_In.
Qed.

Lemma ensure_has (p : list ascii) (k : nat) :
  forallb is_class pool = true →
  existsb is_class (fst (ensure is_class pool rand (p, k))) = true.
Proof.
  intros Hpool. unfold ensure. destruct (existsb is_class p) eqn:H; cbn [fst];
    [done|].
  rewrite existsb_app. cbn [existsb].
  rewrite (choice_class is_class pool) by done. by rewrite orb_true_r.
Qed.

(** A step whose pool holds no character of the class [other] keeps the
    password free of that class, and keeps all but its last character. *)
Lemma ensure_keeps (other : ascii → bool) (p : list ascii) (k : nat) :
  forallb (λ c, negb (other c)) pool = true →
  existsb other p = false →
  existsb other (fst (ensure is_class pool rand (p, k))) = false
  ∧ removelast (fst (ensure is_class pool rand (p, k))) = removelast p.
Proof.
  intros Hpool Hp. unfold ensure. destruct (existsb is_class p); cbn [fst];
    [done|].
  split.
  - rewrite existsb_app, existsb_removelast by done. cbn [existsb].
    apply (choice_class _ pool (rand k)) in Hpool; [|done].
    apply negb_true_iff in Hpool. by rewrite Hpool.
  - apply removelast_last.
Qed.

End Ensure.

Lemma ensure_state (is_class : ascii → bool) (pool : list ascii)
  (rand : nat → nat) (st : list ascii * nat) :
  ensure is_class pool rand st
  = ensure is_class pool rand (fst st, snd st).
Proof. by destruct st. Qed.

Lemma drawn_in_alphabet (rand : nat → nat) (n : nat) :
  Forall (λ c, c ∈ alphabet) (drawn rand n).
Proof.
  unfold drawn. apply Forall_fmap, Forall_forall. intros k _.
  change (choice alphabet (rand k) ∈ alphabet).
  apply list_elem_of_In, choice_In. done.
Qed.

Lemma pool_in_alphabet (pool : list ascii) :
  forallb (λ c, existsb (Ascii.eqb c) alphabet) pool = true →
  Forall (λ c, c ∈ alphabet) pool.
Proof.
  rewrite forallb_forall. intros H. apply Forall_forall. intros c Hc.
  apply list_elem_of_In in Hc. apply H in Hc.
  apply existsb_exists in Hc as (c' & Hin & Heq).
  apply Ascii.eqb_eq in Heq. subst c'. by apply list_elem_of_In.
Qed.

(** X30.  [_generate_temp_password] for a configured length that reads as
    the integer [n]: the password has [max(n, 1)] characters, all from the
    alphabet, and at least one digit.  It need not have a lower-case
    letter, although each class has its own repair step: every step
    replaces the last character, so a later one undoes an earlier one.
    Whenever the characters drawn hold no digit and, the last apart, no
    lower-case letter, the password has no lower-case letter. *)
Theorem temp_password_classes (temp_password_length : option string)
  (rand : nat → nat) (n : Z) :
  Py.int (default "12" temp_password_length) = Ok n →
  ∃ password,
    _generate_temp_password temp_password_length rand = Ok password
    ∧ length password = Z.to_nat (Z.max n 1)
    ∧ Forall (λ c, c ∈ alphabet) password
    ∧ existsb isdigit password = true
    ∧ (existsb isdigit (drawn rand (Z.to_nat n)) = false →
       existsb islower (removelast (drawn rand (Z.to_nat n))) = false →
       existsb islower password = false).
Proof.
  intros Hn. unfold _generate_temp_password. rewrite Hn.
  unfold mbind, outcome_bind. cbv zeta.
  set (p0 := drawn rand (Z.to_nat n)).
  set (st1 := ensure islower ascii_lowercase rand (p0, Z.to_nat n)).
  set (st2 := ensure isupper ascii_uppercase rand st1).
  set (st3 := ensure isdigit digits rand st2).
  eexists. split; [reflexivity|].
  assert (length p0 = Z.to_nat n) as Hlen0.
  { unfold p0, drawn. by rewrite length_map, length_seq. }
  split.
  { unfold st3. rewrite ensure_state, ensure_length.
    unfold st2. rewrite ensure_state, ensure_length.
    unfold st1. rewrite ensure_length, Hlen0. lia. }
  split.
  { unfold st3. rewrite ensure_state.
    apply ensure_Forall; [done| |by apply pool_in_alphabet].
    unfold st2. rewrite ensure_state.
    apply ensure_Forall; [done| |by apply pool_in_alphabet].
    unfold st1.
    apply ensure_Forall; [done| |by apply pool_in_alphabet].
    apply drawn_in_alphabet. }
  split.
  { unfold st3. rewrite ensure_state. by apply ensure_has. }
  intros Hnodigit Hnolower.
  destruct (ensure_keeps islower ascii_lowercase rand ltac:(done) isdigit p0
              (Z.to_nat n) eq_refl Hnodigit) as [Hd1 Hr1].
  fold st1 in Hd1, Hr1.
  destruct (ensure_keeps isupper ascii_uppercase rand ltac:(done) isdigit
              (fst st1) (snd st1) eq_refl Hd1) as [Hd2 Hr2].
  rewrite <- ensure_state in Hd2, Hr2. fold st2 in Hd2, Hr2.
  unfold st3. rewrite ensure_state. unfold ensure. rewrite Hd2. cbn [fst].
  rewrite existsb_app, Hr2, Hr1, Hnolower. cbn [existsb].
  assert (islower (choice digits (rand (snd st2))) = false) as ->; [|done].
  apply negb_true_iff.
  by apply (choice_class (λ c, negb (islower c)) digits).
Qed.

Lemma temp_password_classes_witness :
  ∃ password,
    _generate_temp_password None (λ _, 62%nat) = Ok password
    ∧ length password = 12%nat
    ∧ existsb isdigit password = true
    ∧ existsb islower password = false.
Proof.
  destruct (temp_password_classes None (λ _, 62%nat) 12 eq_refl)
    as (password & Hrun & Hlen & _ & Hdigit & Hlower).
  exists password. split; [exact Hrun|]. split; [exact Hlen|].
  split; [exact Hdigit|]. by apply Hlower.
Defined.

End TempPassword.
